(** * EnderChest GUI: the configuration store and the stack reporter

    A shallow embedding of [common/config.py] and [common/stack.py].

    Python [str] values are sequences of Unicode code points; they are
    modelled as [list N].  Text constants of the source are written as
    Rocq string literals and injected with [u].  Exceptions, the module
    logger and the mutable [Config] object are modelled with a small
    state-and-exception monad.  The collaborators the source imports
    (the EnderChest and GSB libraries, [os], [tomllib], the clock, the
    version module) are the fields of a class [World].

    The definitions come first, in the order of the source; the
    properties follow. *)

From Stdlib Require Import NArith ZArith Lia List Bool Ascii String.
From Stdlib Require Import Sorted Permutation DecimalString.
Import ListNotations.

Open Scope N_scope.

(* ===================================================================== *)
(** ** Python strings *)
(* ===================================================================== *)

Module PyStr.

(** A Python [str]: a sequence of code points. *)
Definition str := list N.

(** Injection of an ASCII literal of the source. *)
Definition u (s : string) : str := map N_of_ascii (list_ascii_of_string s).

Definition quote : N := 34.
Definition backslash : N := 92.

(** The newline character, written [\n] in the source. *)
Definition nl : str := [10].

Fixpoint str_eqb (a b : str) : bool :=
  match a, b with
  | [], [] => true
  | x :: a', y :: b' => (x =? y) && str_eqb a' b'
  | _, _ => false
  end.

(** [a < b] on [str]: lexicographic on code points. *)
Fixpoint str_ltb (a b : str) : bool :=
  match a, b with
  | [], [] => false
  | [], _ :: _ => true
  | _ :: _, [] => false
  | x :: a', y :: b' => (x <? y) || ((x =? y) && str_ltb a' b')
  end.

Definition str_lt (a b : str) : Prop := str_ltb a b = true.

(** [s.startswith(p)] *)
Fixpoint startswith (p s : str) : bool :=
  match p, s with
  | [], _ => true
  | x :: p', y :: s' => (x =? y) && startswith p' s'
  | _ :: _, [] => false
  end.

(** [str.isspace] on one character; also the class [\s] of [re] on [str]
    patterns. *)
Definition isspace (c : N) : bool :=
  ((9 <=? c) && (c <=? 13)) || ((28 <=? c) && (c <=? 32))
  || (c =? 133) || (c =? 160) || (c =? 5760)
  || ((8192 <=? c) && (c <=? 8202))
  || (c =? 8232) || (c =? 8233) || (c =? 8239) || (c =? 8287)
  || (c =? 12288).

(** The line boundaries of [str.splitlines]. *)
Definition is_linebreak (c : N) : bool :=
  ((10 <=? c) && (c <=? 13)) || ((28 <=? c) && (c <=? 30))
  || (c =? 133) || (c =? 8232) || (c =? 8233).

Fixpoint lstrip (s : str) : str :=
  match s with
  | c :: s' => if isspace c then lstrip s' else s
  | [] => []
  end.

(** [s.strip()] *)
Definition strip (s : str) : str := rev (lstrip (rev (lstrip s))).

(** [s.splitlines()]; [cur] is the line being read. *)
Fixpoint splitlines_from (cur : str) (s : str) : list str :=
  match s with
  | [] => match cur with [] => [] | _ => [cur] end
  | c :: s' =>
      if is_linebreak c then
        cur :: match s' with
               | d :: s'' =>
                   if (c =? 13) && (d =? 10) then splitlines_from [] s''
                   else splitlines_from [] s'
               | [] => splitlines_from [] s'
               end
      else splitlines_from (cur ++ [c]) s'
  end.

Definition splitlines (s : str) : list str := splitlines_from [] s.

Definition is_digit (c : N) : bool := (48 <=? c) && (c <=? 57).

(** The number that a string of ASCII digits writes in base ten. *)
Definition decimal_value (s : str) : N :=
  fold_left (fun acc c => 10 * acc + (c - 48)) s 0.

(** [str(n)] for a natural number. *)
Definition str_of_N (n : N) : str :=
  map N_of_ascii
      (list_ascii_of_string (NilZero.string_of_uint (N.to_uint n))).

(** [sep.join(l)] *)
Fixpoint join (sep : str) (l : list str) : str :=
  match l with
  | [] => []
  | [x] => x
  | x :: l' => x ++ sep ++ join sep l'
  end.

End PyStr.
Import PyStr.

(* ===================================================================== *)
(** ** Logging and exceptions *)
(* ===================================================================== *)

(** The exception classes the modelled code raises or lets through.
    [TOMLDecodeError] and [UnicodeDecodeError] are subclasses of
    [ValueError], [FileNotFoundError] and [PermissionError] of [OSError];
    a value built with [OSError] or [ValueError] is of none of these
    subclasses. *)
Inductive exn : Type :=
| OSError (msg : str)
| FileNotFoundError (msg : str)
| PermissionError (msg : str)
| ValueError (msg : str)
| TOMLDecodeError (msg : str)
| UnicodeDecodeError
| KeyError (key : str)
| RuntimeError (msg : str)
| IndexError.

(** [except (ValueError, OSError)] *)
Definition is_ValueError_or_OSError (e : exn) : bool :=
  match e with
  | OSError _ | FileNotFoundError _ | PermissionError _
  | ValueError _ | TOMLDecodeError _ | UnicodeDecodeError => true
  | KeyError _ | RuntimeError _ | IndexError => false
  end.

(** [except (FileNotFoundError, IndexError)] *)
Definition is_FileNotFoundError_or_IndexError (e : exn) : bool :=
  match e with
  | FileNotFoundError _ | IndexError => true
  | _ => false
  end.

(** What a call gives: a value or an exception. *)
Inductive outcome (A : Type) : Type :=
| Return (a : A)
| Raise (e : exn).
Arguments Return {A} a.
Arguments Raise {A} e.

(** An argument of a logging call. *)
Inductive log_arg : Type :=
| ArgStr (s : str)
| ArgNone
| ArgExn (e : exn).

(** A record emitted by [LOGGER.error(fmt, *args)]. *)
Record LogRecord : Type := ERROR { log_fmt : str; log_args : list log_arg }.

(* ===================================================================== *)
(** ** [common/stack.py]: the Rsync version probe *)
(* ===================================================================== *)

Module Stack.

(** The fragment of [re] syntax used by the probe: literal characters,
    [.], and greedy [+] over a character class, capturing or not. *)
Inductive re_item : Type :=
| Lit (c : N)
| AnyChar
| Plus (cls : N -> bool)
| GroupPlus (cls : N -> bool).

(** Greedy repetition with backtracking: take as many characters of the
    class as possible, giving back one at a time while the continuation
    [k] fails.  [acc] is what has been taken so far. *)
Fixpoint star_greedy {R} (cls : N -> bool) (k : str -> str -> option R)
    (acc : str) (s : str) : option R :=
  match
    match s with
    | c :: s' => if cls c then star_greedy cls k (acc ++ [c]) s' else None
    | [] => None
    end
  with
  | Some r => Some r
  | None => k acc s
  end.

Definition plus_greedy {R} (cls : N -> bool) (k : str -> str -> option R)
    (s : str) : option R :=
  match s with
  | c :: s' => if cls c then star_greedy cls k [c] s' else None
  | [] => None
  end.

(** [re.match]: the pattern is matched at the start of [s]; the result is
    the list of captured groups. *)
Fixpoint re_match (pat : list re_item) (s : str) (groups : list str)
  : option (list str) :=
  match pat with
  | [] => Some groups
  | Lit c :: pat' =>
      match s with
      | x :: s' => if x =? c then re_match pat' s' groups else None
      | [] => None
      end
  | AnyChar :: pat' =>
      match s with
      | x :: s' => if x =? 10 then None else re_match pat' s' groups
      | [] => None
      end
  | Plus cls :: pat' =>
      plus_greedy cls (fun _ s' => re_match pat' s' groups) s
  | GroupPlus cls :: pat' =>
      plus_greedy cls (fun m s' => re_match pat' s' (groups ++ [m])) s
  end.

Definition lits (s : string) : list re_item := map Lit (u s).

(** [r"^rsync[\s]+version ([0-9]+).([0-9]+).([0-9]+)"] *)
Definition rsync_pattern : list re_item :=
  lits "rsync" ++ [Plus isspace] ++ lits "version "
    ++ [GroupPlus is_digit; AnyChar; GroupPlus is_digit; AnyChar;
        GroupPlus is_digit].

(** *** Bytes and their decoding *)

(** A [bytes] object: a sequence of numbers below 256. *)
Definition bytes : Type := list N.

Definition between (lo hi b : N) : bool := (lo <=? b) && (b <=? hi).

(** The second byte that may follow the first byte [b0] of a sequence of
    three bytes, and of four: UTF-8 has no overlong form, no surrogate
    and nothing above U+10FFFF. *)
Definition second_of_three (b0 b1 : N) : bool :=
  if b0 =? 224 then between 160 191 b1
  else if b0 =? 237 then between 128 159 b1
  else between 128 191 b1.

Definition second_of_four (b0 b1 : N) : bool :=
  if b0 =? 240 then between 144 191 b1
  else if b0 =? 244 then between 128 143 b1
  else between 128 191 b1.

Definition decoded (c : N) (rest : outcome str) : outcome str :=
  match rest with
  | Return s => Return (c :: s)
  | Raise e => Raise e
  end.

(** [b.decode("utf-8")], which is strict: a sequence that is not
    well-formed UTF-8 raises [UnicodeDecodeError]. *)
Fixpoint decode_utf_8 (b : bytes) : outcome str :=
  match b with
  | [] => Return []
  | b0 :: r0 =>
      if b0 <? 128 then decoded b0 (decode_utf_8 r0)
      else if between 194 223 b0 then
        match r0 with
        | b1 :: r1 =>
            if between 128 191 b1
            then decoded ((b0 - 192) * 64 + (b1 - 128)) (decode_utf_8 r1)
            else Raise UnicodeDecodeError
        | _ => Raise UnicodeDecodeError
        end
      else if between 224 239 b0 then
        match r0 with
        | b1 :: b2 :: r2 =>
            if second_of_three b0 b1 && between 128 191 b2
            then decoded (((b0 - 224) * 64 + (b1 - 128)) * 64 + (b2 - 128))
                         (decode_utf_8 r2)
            else Raise UnicodeDecodeError
        | _ => Raise UnicodeDecodeError
        end
      else if between 240 244 b0 then
        match r0 with
        | b1 :: b2 :: b3 :: r3 =>
            if second_of_four b0 b1 && between 128 191 b2
               && between 128 191 b3
            then decoded ((((b0 - 240) * 64 + (b1 - 128)) * 64
                            + (b2 - 128)) * 64 + (b3 - 128))
                         (decode_utf_8 r3)
            else Raise UnicodeDecodeError
        | _ => Raise UnicodeDecodeError
        end
      else Raise UnicodeDecodeError
  end.

(** *** Conversions that may raise *)

(** [int(s)] for [s] a non-empty string of ASCII digits, which is what the
    groups of the pattern are.  [max_str_digits] is
    [sys.get_int_max_str_digits()]: 4300 unless the interpreter was told
    otherwise, 0 for no limit.  A string of more than 640 digits that
    exceeds a limit in force is refused with a [ValueError] (the message
    is that of CPython 3.12). *)
Definition int_of_str (max_str_digits : N) (s : str) : outcome N :=
  let digits := N.of_nat (List.length s) in
  if (640 <? digits) && (0 <? max_str_digits) && (max_str_digits <? digits)
  then Raise (ValueError
                (u "Exceeds the limit (" ++ str_of_N max_str_digits
                   ++ u " digits) for integer string conversion: value has "
                   ++ str_of_N digits
                   ++ u " digits; use sys.set_int_max_str_digits() "
                   ++ u "to increase the limit"))
  else Return (decimal_value s).

(** The default of [sys.get_int_max_str_digits()]. *)
Definition default_max_str_digits : N := 4300.

(** [l[0]] *)
Definition first_item (l : list str) : outcome str :=
  match l with
  | head :: _ => Return head
  | [] => Raise IndexError
  end.

(** [major, minor, *_ = groups] *)
Definition unpack_two (groups : list str) : outcome (str * str) :=
  match groups with
  | major :: minor :: _ => Return (major, minor)
  | _ =>
      Raise (ValueError
               (u "not enough values to unpack (expected at least 2, got "
                  ++ str_of_N (N.of_nat (List.length groups)) ++ u ")"))
  end.

(** [int(major) < 3 or (int(major) == 3 and int(minor) < 2)]: the
    conversions are made in that order, and only as far as the value of the
    condition requires. *)
Definition too_old (max_str_digits : N) (major minor : str) : outcome bool :=
  match int_of_str max_str_digits major with
  | Raise e => Raise e
  | Return a =>
      if a <? 3 then Return true
      else
        match int_of_str max_str_digits major with
        | Raise e => Raise e
        | Return b =>
            if b =? 3 then
              match int_of_str max_str_digits minor with
              | Raise e => Raise e
              | Return c => Return (c <? 2)
              end
            else Return false
        end
  end.

(** *** The probe *)

(** What [subprocess.run(["rsync", "--version"], stdout=subprocess.PIPE,
    stderr=subprocess.PIPE)] returns: the two captured streams. *)
Record CompletedProcess : Type := { stdout : bytes; stderr : bytes }.

(** Computations that log and may raise; the state is the list of the
    records logged so far, oldest first.  A raise keeps the records logged
    before it. *)
Definition Logging (A : Type) : Type :=
  list LogRecord -> list LogRecord * outcome A.

Definition pure {A} (a : A) : Logging A := fun log => (log, Return a).

Definition and_then {A B} (c : Logging A) (k : A -> Logging B) : Logging B :=
  fun log =>
    match c log with
    | (log', Return a) => k a log'
    | (log', Raise e) => (log', Raise e)
    end.

(** The evaluation of an expression that does not log. *)
Definition eval {A} (r : outcome A) : Logging A := fun log => (log, r).

(** [LOGGER.error(msg, *args)] *)
Definition LOGGER_error (msg : str) (args : list log_arg) : Logging unit :=
  fun log => (log ++ [ERROR msg args], Return tt).

(** [try: c except (FileNotFoundError, IndexError): return ""] *)
Definition try_or_empty (c : Logging str) : Logging str :=
  fun log =>
    match c log with
    | (log', Return a) => (log', Return a)
    | (log', Raise e) =>
        if is_FileNotFoundError_or_IndexError e then (log', Return [])
        else (log', Raise e)
    end.

Declare Scope stack_scope.
Notation "x <- c ;; k" := (and_then c (fun x => k))
  (at level 61, c at next level, right associativity) : stack_scope.
Notation "c ;; k" := (and_then c (fun _ => k))
  (at level 61, right associativity) : stack_scope.
Local Open Scope stack_scope.

(** [_get_rsync_version]; [run] is what launching the binary gave, a
    completed process or the exception raised ([FileNotFoundError] when
    there is no such binary). *)
Definition _get_rsync_version (max_str_digits : N)
    (run : outcome CompletedProcess) : Logging str :=
  try_or_empty
    (result <- eval run ;;
     match stderr result with
     | [] => pure tt
     | _ =>
         message <- eval (decode_utf_8 (stderr result)) ;;
         LOGGER_error message []
     end ;;
     text <- eval (decode_utf_8 (stdout result)) ;;
     head <- eval (first_item (splitlines text)) ;;
     match re_match rsync_pattern head [] with
     | Some groups =>
         versions <- eval (unpack_two groups) ;;
         old <- eval (too_old max_str_digits (fst versions) (snd versions)) ;;
         if old then
           LOGGER_error (u "%s is too old") [ArgStr head] ;;
           pure []
         else pure (strip (skipn 5 head))
     | None =>
         LOGGER_error (u "Could not parse output message:" ++ nl ++ u "%s")
                      [ArgStr head] ;;
         pure []
     end).

(** What the probe returns or raises, and what it logs, starting from an
    empty log. *)
Definition answer (max_str_digits : N) (run : outcome CompletedProcess)
  : outcome str := snd (_get_rsync_version max_str_digits run []).

Definition logged (max_str_digits : N) (run : outcome CompletedProcess)
  : list LogRecord := fst (_get_rsync_version max_str_digits run []).

(** The probe on a run that wrote [out], in ASCII, and no error
    message. *)
Definition probe (max_str_digits : N) (out : string) : outcome str :=
  answer max_str_digits (Return {| stdout := u out; stderr := [] |}).

End Stack.

(* ===================================================================== *)
(** ** [json.dumps] on strings, and a JSON string unescaper *)
(* ===================================================================== *)

Module Json.

(** ["0123456789abcdef"[d]] *)
Definition hexdigit (d : N) : N :=
  nth (N.to_nat d) (u "0123456789abcdef") 48.

(** ['\\u{0:04x}'.format(n)] *)
Definition escape_u (n : N) : str :=
  [backslash; 117;
   hexdigit (N.land (N.shiftr n 12) 15); hexdigit (N.land (N.shiftr n 8) 15);
   hexdigit (N.land (N.shiftr n 4) 15); hexdigit (N.land n 15)].

(** A character that [json.dumps] copies: [' ' <= c <= '~'], not a quote
    and not a backslash. *)
Definition is_plain (c : N) : bool :=
  (32 <=? c) && (c <=? 126) && negb (c =? quote) && negb (c =? backslash).

(** The replacement of one character by [json.dumps] (with the default
    [ensure_ascii=True]). *)
Definition escape_char (c : N) : str :=
  if is_plain c then [c]
  else if c =? backslash then [backslash; backslash]
  else if c =? quote then [backslash; quote]
  else if c =? 8 then u "\b"
  else if c =? 12 then u "\f"
  else if c =? 10 then u "\n"
  else if c =? 13 then u "\r"
  else if c =? 9 then u "\t"
  else if c <? 65536 then escape_u c
  else
    let n := c - 65536 in
    let s1 := N.lor 55296 (N.land (N.shiftr n 10) 1023) in
    let s2 := N.lor 56320 (N.land n 1023) in
    escape_u s1 ++ escape_u s2.

(** [json.dumps(s)] for a [str]. *)
Definition dumps (s : str) : str :=
  [quote] ++ flat_map escape_char s ++ [quote].

(** The value of a hexadecimal digit. *)
Definition unhex (c : N) : option N :=
  if (48 <=? c) && (c <=? 57) then Some (c - 48)
  else if (97 <=? c) && (c <=? 102) then Some (c - 87)
  else if (65 <=? c) && (c <=? 70) then Some (c - 55)
  else None.

Definition hex4 (h1 h2 h3 h4 : N) : option N :=
  match unhex h1, unhex h2, unhex h3, unhex h4 with
  | Some a, Some b, Some c, Some d => Some (((a * 16 + b) * 16 + c) * 16 + d)
  | _, _, _, _ => None
  end.

Definition is_high_surrogate (c : N) : bool := (55296 <=? c) && (c <=? 56319).
Definition is_low_surrogate (c : N) : bool := (56320 <=? c) && (c <=? 57343).

(** The character written with a one-letter escape. *)
Definition simple_escape (e : N) : option N :=
  if e =? quote then Some quote
  else if e =? backslash then Some backslash
  else if e =? 47 then Some 47
  else if e =? 98 then Some 8
  else if e =? 102 then Some 12
  else if e =? 110 then Some 10
  else if e =? 114 then Some 13
  else if e =? 116 then Some 9
  else None.

Definition cons_opt (c : N) (r : option (str * str)) : option (str * str) :=
  match r with
  | Some (v, rest) => Some (c :: v, rest)
  | None => None
  end.

(** The JSON string scanner (RFC 8259; [json.decoder.scanstring] in strict
    mode): [s] starts just after the opening quote; the result is the
    decoded string and what follows the closing quote.  A [\u] escape of
    a high surrogate followed by a [\u] escape of a low surrogate is one
    character. *)
Fixpoint scanstring (s : str) : option (str * str) :=
  match s with
  | [] => None
  | c :: s1 =>
      if c =? quote then Some ([], s1)
      else if c =? backslash then
        match s1 with
        | [] => None
        | e :: s2 =>
            if e =? 117 then
              match s2 with
              | h1 :: h2 :: h3 :: h4 :: s3 =>
                  match hex4 h1 h2 h3 h4 with
                  | None => None
                  | Some uni =>
                      let single := cons_opt uni (scanstring s3) in
                      if is_high_surrogate uni then
                        match s3 with
                        | b :: v :: s3' =>
                            if (b =? backslash) && (v =? 117) then
                              match s3' with
                              | g1 :: g2 :: g3 :: g4 :: s4 =>
                                  match hex4 g1 g2 g3 g4 with
                                  | None => None
                                  | Some uni2 =>
                                      if is_low_surrogate uni2 then
                                        cons_opt
                                          (65536 +
                                           N.lor (N.shiftl (uni - 55296) 10)
                                                 (uni2 - 56320))
                                          (scanstring s4)
                                      else single
                                  end
                              | _ => None
                              end
                            else single
                        | _ => single
                        end
                      else single
                  end
              | _ => None
              end
            else
              match simple_escape e with
              | Some x => cons_opt x (scanstring s2)
              | None => None
              end
        end
      else if c <? 32 then None
      else cons_opt c (scanstring s1)
  end.

(** Does [rest] start with a [\u] escape that the scanner would take (or
    reject) as the second half of a pair? *)
Definition low_escape_follows (rest : str) : bool :=
  match rest with
  | b :: v :: r2 =>
      if (b =? backslash) && (v =? 117) then
        match r2 with
        | g1 :: g2 :: g3 :: g4 :: _ =>
            match hex4 g1 g2 g3 g4 with
            | Some uni2 => is_low_surrogate uni2
            | None => true
            end
        | _ => true
        end
      else false
  | _ => false
  end.

(** No high surrogate of [s] is immediately followed by a low one. *)
Fixpoint no_split_pair (s : str) : bool :=
  match s with
  | c :: s' =>
      match s' with
      | d :: _ => negb (is_high_surrogate c && is_low_surrogate d)
      | [] => true
      end && no_split_pair s'
  | [] => true
  end.

(** Every element is a code point: below [0x110000]. *)
Definition code_points (s : str) : Prop := forall c, In c s -> c < 1114112.

(** Unescaping of a quoted form: opening quote, string, nothing after. *)
Definition unescape (s : str) : option str :=
  match s with
  | q :: s' =>
      if q =? quote then
        match scanstring s' with
        | Some (v, []) => Some v
        | _ => None
        end
      else None
  | [] => None
  end.

End Json.

(* ===================================================================== *)
(** ** [common/config.py]: the TOML writer *)
(* ===================================================================== *)

(** A value of [_ConfigDict]: [str | tuple[str, ...]]. *)
Inductive config_value : Type :=
| VStr (s : str)
| VSeq (l : list str).

(** [_ConfigDict]: a [dict], in insertion order. *)
Definition _ConfigDict := list (str * config_value).

(** Insertion of [x] in a strictly increasing list. *)
Fixpoint insort (x : str) (l : list str) : list str :=
  match l with
  | [] => [x]
  | y :: l' => if str_ltb y x then y :: insort x l' else x :: l
  end.

(** [sorted(l)] *)
Definition sorted (l : list str) : list str := fold_right insort [] l.

(** [set(l)]: the distinct elements of [l] (in the order of their first
    occurrence; a Python set has no order of its own). *)
Fixpoint set (l : list str) : list str :=
  match l with
  | [] => []
  | x :: l' => x :: filter (fun y => negb (str_eqb x y)) (set l')
  end.

(** The text one entry of an array adds to [dumped]. *)
Definition dump_entry (entry : str) : str :=
  nl ++ u "    " ++ Json.dumps entry ++ u ",".

(** One iteration of the loop of [_to_toml]. *)
Definition dump_item (dumped : str) (item : str * config_value) : str :=
  let (key, value) := item in
  let dumped := dumped ++ key ++ u " = " in
  match value with
  | VStr s => dumped ++ Json.dumps s ++ nl
  | VSeq l =>
      let dumped := dumped ++ u "[" in
      let dumped :=
        fold_left (fun dumped entry => dumped ++ dump_entry entry)
                  (sorted (set l)) dumped in
      dumped ++ nl ++ u "]" ++ nl
  end.

Definition _to_toml (config_dict : _ConfigDict) : str :=
  fold_left dump_item config_dict [].

(** The rendering of an array in the words of the format: [key = [] and a
    line end, each element indented by four spaces, quoted and followed by
    a comma on a line of its own, the closing bracket on a line of its
    own. *)
Definition array_section (key : str) (entries : list str) : str :=
  key ++ u " = [" ++ nl
    ++ flat_map (fun e => u "    " ++ Json.dumps e ++ u "," ++ nl) entries
    ++ u "]" ++ nl.

(** The rendering of a string field: [key = "value"] on one line. *)
Definition string_line (key : str) (value : str) : str :=
  key ++ u " = " ++ Json.dumps value ++ nl.

(* ===================================================================== *)
(** ** [pathlib]: pure POSIX paths *)
(* ===================================================================== *)

Module Pathlib.

(** A path as [pathlib] holds it: the root (empty, one slash or two) and
    the components after it. *)
Record Path : Type := { root_of : str; parts : list str }.

Definition sep : N := 47.

(** [s.split("/")]; [cur] is the component being read. *)
Fixpoint split_sep (cur : str) (s : str) : list str :=
  match s with
  | [] => [cur]
  | c :: s' =>
      if c =? sep then cur :: split_sep [] s' else split_sep (cur ++ [c]) s'
  end.

(** The root of [posixpath.splitroot]: none for a relative path, two
    slashes when the path starts with exactly two, one otherwise. *)
Definition splitroot (s : str) : str :=
  match s with
  | a :: s1 =>
      if a =? sep then
        match s1 with
        | b :: s2 =>
            if b =? sep then
              match s2 with
              | c :: _ => if c =? sep then [sep] else [sep; sep]
              | [] => [sep; sep]
              end
            else [sep]
        | [] => [sep]
        end
      else []
  | [] => []
  end.

Definition is_component (x : str) : bool :=
  negb (str_eqb x []) && negb (str_eqb x (u ".")).

(** [Path(s)]: empty and [.] components are dropped. *)
Definition Path_of (s : str) : Path :=
  {| root_of := splitroot s; parts := filter is_component (split_sep [] s) |}.

(** [str(p)] *)
Definition str_of (p : Path) : str :=
  match root_of p, parts p with
  | [], [] => u "."
  | r, t => r ++ join [sep] t
  end.

Fixpoint parts_eqb (a b : list str) : bool :=
  match a, b with
  | [], [] => true
  | x :: a', y :: b' => str_eqb x y && parts_eqb a' b'
  | _, _ => false
  end.

(** [p == q] (and equality of hashes): same root, same components. *)
Definition Path_eqb (p q : Path) : bool :=
  str_eqb (root_of p) (root_of q) && parts_eqb (parts p) (parts q).

(** [p.parent] *)
Definition parent (p : Path) : Path :=
  match parts p with
  | [] => p
  | _ => {| root_of := root_of p; parts := removelast (parts p) |}
  end.

End Pathlib.
Import Pathlib.

(* ===================================================================== *)
(** ** Python dictionaries *)
(* ===================================================================== *)

(** A [dict] keyed by paths, as the list of its items in iteration order:
    a new key goes to the end, an assignment to a key already there keeps
    its place. *)
Definition dict (V : Type) : Type := list (Path * V).

(** [d[k] = v] *)
Fixpoint dict_set {V} (d : dict V) (k : Path) (v : V) : dict V :=
  match d with
  | [] => [(k, v)]
  | (k', v') :: d' =>
      if Path_eqb k' k then (k', v) :: d' else (k', v') :: dict_set d' k v
  end.

(** [d.get(k)] *)
Fixpoint dict_get {V} (d : dict V) (k : Path) : option V :=
  match d with
  | [] => None
  | (k', v') :: d' => if Path_eqb k' k then Some v' else dict_get d' k
  end.

(** [list(d)] and [list(d.values())] *)
Definition keys {V} (d : dict V) : list Path := map fst d.
Definition values {V} (d : dict V) : list V := map snd d.

(* ===================================================================== *)
(** ** The world outside the repository *)
(* ===================================================================== *)

(** The collaborators imported by [common/config.py]. *)
Class World : Type := {
  (** [enderchest.EnderChest] and [gsb.manifest.Manifest] *)
  EnderChest : Type;
  GSB_Manifest : Type;
  (** [save.root] *)
  root : GSB_Manifest -> Path;
  (** [enderchest.filesystem.ender_chest_config] *)
  ender_chest_config : Path -> outcome Path;
  (** [EnderChest.from_cfg] *)
  EnderChest_from_cfg : Path -> outcome EnderChest;
  (** [GSB_Manifest.of] *)
  GSB_Manifest_of : Path -> outcome GSB_Manifest;
  (** [os.getenv] *)
  getenv : str -> option str;
  (** [os.path.expanduser] on a first component starting with a tilde *)
  os_path_expanduser : str -> str;
  (** [get_versions()["version"]] *)
  version : str;
  (** [dt.datetime.now().isoformat(sep=" ")] *)
  now_isoformat : str;
  (** [tomllib.loads] *)
  tomllib_loads : str -> outcome _ConfigDict;
  (** the error, if any, of opening a path for reading or for writing,
      whatever the files are *)
  read_error : Path -> option exn;
  write_error : Path -> option exn
}.

(* ===================================================================== *)
(** ** [common/config.py]: the configuration store *)
(* ===================================================================== *)

Section ConfigStore.
Context {W : World}.

(** The attributes of a [Config] object. *)
Record Config : Type := {
  _ender_chests : dict EnderChest;
  _saves : dict GSB_Manifest
}.

(** The state the code works on: the [Config] object at hand, the records
    logged so far (oldest first), and the text files written. *)
Record Heap : Type := {
  self : Config;
  LOGGER : list LogRecord;
  files : dict str
}.

(** Computations that change the state and may raise.  A raise keeps the
    changes made before it. *)
Definition M (A : Type) : Type := Heap -> Heap * outcome A.

Definition ret {A} (a : A) : M A := fun h => (h, Return a).

Definition bind {A B} (c : M A) (k : A -> M B) : M B :=
  fun h =>
    match c h with
    | (h', Return a) => k a h'
    | (h', Raise e) => (h', Raise e)
    end.

(** A call to a collaborator. *)
Definition call {A} (r : outcome A) : M A := fun h => (h, r).

(** [try: c except (ValueError, OSError) as e: handler e] *)
Definition try_except {A} (c : M A) (handler : exn -> M A) : M A :=
  fun h =>
    match c h with
    | (h', Return a) => (h', Return a)
    | (h', Raise e) =>
        if is_ValueError_or_OSError e then handler e h' else (h', Raise e)
    end.

(** [LOGGER.error(fmt, *args)] *)
Definition LOGGER_error (fmt : str) (args : list log_arg) : M unit :=
  fun h =>
    ({| self := self h; LOGGER := LOGGER h ++ [ERROR fmt args];
        files := files h |}, Return tt).

Definition set_self (c : Config) : M unit :=
  fun h => ({| self := c; LOGGER := LOGGER h; files := files h |}, Return tt).

Definition get_self : M Config := fun h => (h, Return (self h)).

End ConfigStore.

Declare Scope py_scope.
Delimit Scope py_scope with py.
Notation "x <- c ;; k" := (bind c (fun x => k))
  (at level 61, c at next level, right associativity) : py_scope.
Notation "c ;; k" := (bind c (fun _ => k))
  (at level 61, right associativity) : py_scope.
Open Scope py_scope.

Section ConfigMethods.
Context {W : World}.

(** [for x in l: body x] *)
Fixpoint for_each {A} (l : list A) (body : A -> M unit) : M unit :=
  match l with
  | [] => ret tt
  | x :: l' => body x ;; for_each l' body
  end.

(** [p.expanduser()] *)
Definition expanduser (p : Path) : outcome Path :=
  match root_of p, parts p with
  | [], first :: rest =>
      if startswith (u "~") first then
        let homedir := os_path_expanduser first in
        if startswith (u "~") homedir then
          Raise (RuntimeError (u "Could not determine home directory."))
        else
          Return {| root_of := root_of (Path_of homedir);
                    parts := parts (Path_of homedir) ++ rest |}
      else Return p
  | _, _ => Return p
  end.

Definition register_enderchest (minecraft_root : Path) : M unit :=
  expanded <- call (expanduser minecraft_root) ;;
  cfg_file <- call (ender_chest_config expanded) ;;
  chest <- call (EnderChest_from_cfg cfg_file) ;;
  config <- get_self ;;
  set_self {| _ender_chests := dict_set (_ender_chests config) minecraft_root chest;
              _saves := _saves config |}.

Definition register_save (manifest_path : Path) : M unit :=
  expanded <- call (expanduser manifest_path) ;;
  save <- call (GSB_Manifest_of (parent expanded)) ;;
  config <- get_self ;;
  set_self {| _ender_chests := _ender_chests config;
              _saves := dict_set (_saves config) (root save) save |}.

(** The properties [ender_chests] and [saves]. *)
Definition ender_chests (config : Config) : list EnderChest :=
  values (_ender_chests config).

Definition saves (config : Config) : list GSB_Manifest :=
  values (_saves config).

Definition log_arg_of (s : option str) : log_arg :=
  match s with
  | Some s => ArgStr s
  | None => ArgNone
  end.

(** [Config()] *)
Definition __init__ : M unit :=
  set_self {| _ender_chests := []; _saves := [] |} ;;
  let minecraft_root := getenv (u "MINECRAFT_ROOT") in
  try_except
    match minecraft_root with
    | Some ((_ :: _) as value) => register_enderchest (Path_of value)
    | _ => ret tt
    end
    (fun env_chest_load_fail =>
       LOGGER_error
         (u "Failed to load chest from $MINECRAFT_ROOT: %s" ++ nl ++ u "%s")
         [log_arg_of minecraft_root; ArgExn env_chest_load_fail]).

(** [config_file.write_text(text)] *)
Definition write_text (config_file : Path) (text : str) : M unit :=
  fun h =>
    match write_error config_file with
    | Some e => (h, Raise e)
    | None =>
        ({| self := self h; LOGGER := LOGGER h;
            files := dict_set (files h) config_file text |}, Return tt)
    end.

(** [config_file.read_text()] *)
Definition read_text (config_file : Path) : M str :=
  fun h =>
    match read_error config_file with
    | Some e => (h, Raise e)
    | None =>
        match dict_get (files h) config_file with
        | Some text => (h, Return text)
        | None => (h, Raise (FileNotFoundError (str_of config_file)))
        end
    end.

(** The dictionary [write] renders. *)
Definition as_dict_of (config : Config) : _ConfigDict :=
  [ (u "generated_by_enderchest_gui", VStr version);
    (u "last_modified", VStr now_isoformat);
    (u "ender_chests", VSeq (map str_of (keys (_ender_chests config))));
    (u "saves", VSeq (map str_of (keys (_saves config)))) ].

Definition write (config_file : option Path) : M str :=
  config <- get_self ;;
  let dumped := _to_toml (as_dict_of config) in
  match config_file with
  | Some f => write_text f dumped ;; ret dumped
  | None => ret dumped
  end.

(** [as_dict[key]] *)
Fixpoint getitem (as_dict : _ConfigDict) (key : str) : outcome config_value :=
  match as_dict with
  | [] => Raise (KeyError key)
  | (k, v) :: d' => if str_eqb k key then Return v else getitem d' key
  end.

(** What a [for] loop over a value goes through: the characters of a
    string, the elements of a sequence. *)
Definition iter (v : config_value) : list str :=
  match v with
  | VStr s => map (fun c => [c]) s
  | VSeq l => l
  end.

(** The body of the first loop of [from_config]. *)
Definition load_chest_entry (minecraft_root : str) : M unit :=
  try_except (register_enderchest (Path_of minecraft_root))
    (fun load_error =>
       LOGGER_error (u "Failed to load chest from %s" ++ nl ++ u "%s")
                    [ArgStr minecraft_root; ArgExn load_error]).

(** The body of the second loop of [from_config]. *)
Definition load_save_entry (manifest_path : str) : M unit :=
  try_except (register_save (Path_of manifest_path))
    (fun load_error =>
       LOGGER_error (u "Failed to load GSB manifest from %s" ++ nl ++ u "%s")
                    [ArgStr manifest_path; ArgExn load_error]).

(** [Config.from_config(config_file)]; the object built is [self] of the
    final state, and is returned when the outcome is [Return]. *)
Definition from_config (config_file : Path) : M unit :=
  text <- read_text config_file ;;
  as_dict <- call (tomllib_loads text) ;;
  __init__ ;;
  chests <- call (getitem as_dict (u "ender_chests")) ;;
  for_each (iter chests) load_chest_entry ;;
  manifests <- call (getitem as_dict (u "saves")) ;;
  for_each (iter manifests) load_save_entry ;;
  ret tt.

(** *** Summaries used to state the properties *)

(** What the collaborators answer for a Minecraft root: the argument of
    the assignment in [register_enderchest], or the exception raised
    before it. *)
Definition load_chest (minecraft_root : Path) : outcome EnderChest :=
  match expanduser minecraft_root with
  | Return expanded =>
      match ender_chest_config expanded with
      | Return cfg_file => EnderChest_from_cfg cfg_file
      | Raise e => Raise e
      end
  | Raise e => Raise e
  end.

(** The same for a manifest path and [register_save]. *)
Definition load_save (manifest_path : Path) : outcome GSB_Manifest :=
  match expanduser manifest_path with
  | Return expanded => GSB_Manifest_of (parent expanded)
  | Raise e => Raise e
  end.

Definition with_chest (h : Heap) (k : Path) (v : EnderChest) : Heap :=
  {| self := {| _ender_chests := dict_set (_ender_chests (self h)) k v;
                _saves := _saves (self h) |};
     LOGGER := LOGGER h; files := files h |}.

Definition with_save (h : Heap) (k : Path) (v : GSB_Manifest) : Heap :=
  {| self := {| _ender_chests := _ender_chests (self h);
                _saves := dict_set (_saves (self h)) k v |};
     LOGGER := LOGGER h; files := files h |}.

Definition with_log (h : Heap) (r : LogRecord) : Heap :=
  {| self := self h; LOGGER := LOGGER h ++ [r]; files := files h |}.

Definition with_self (h : Heap) (c : Config) : Heap :=
  {| self := c; LOGGER := LOGGER h; files := files h |}.

(** The record logged for a chest, or a save, of the file that failed to
    load. *)
Definition chest_failure (minecraft_root : str) (e : exn) : LogRecord :=
  ERROR (u "Failed to load chest from %s" ++ nl ++ u "%s")
        [ArgStr minecraft_root; ArgExn e].

Definition save_failure (manifest_path : str) (e : exn) : LogRecord :=
  ERROR (u "Failed to load GSB manifest from %s" ++ nl ++ u "%s")
        [ArgStr manifest_path; ArgExn e].

(** The paths registered in a state. *)
Definition chest_keys (h : Heap) : list Path := keys (_ender_chests (self h)).
Definition save_keys (h : Heap) : list Path := keys (_saves (self h)).

(** No path is the key of two entries. *)
Definition keys_unique (h : Heap) : Prop :=
  NoDup (chest_keys h) /\ NoDup (save_keys h).

(** Every exception a listed entry fails with is one the loops catch. *)
Definition failures_caught {A} (load : Path -> outcome A) (entries : list str)
  : Prop :=
  forall entry e,
    In entry entries -> load (Path_of entry) = Raise e ->
    is_ValueError_or_OSError e = true.

(** What the first loop of [from_config] makes of the chests, and what it
    logs, when it runs to its end. *)
Definition replay_chest (d : dict EnderChest) (entry : str) : dict EnderChest :=
  match load_chest (Path_of entry) with
  | Return chest => dict_set d (Path_of entry) chest
  | Raise _ => d
  end.

Definition replay_chests (entries : list str) (d : dict EnderChest)
  : dict EnderChest := fold_left replay_chest entries d.

Definition chest_failures (entries : list str) : list LogRecord :=
  flat_map (fun entry =>
              match load_chest (Path_of entry) with
              | Return _ => []
              | Raise e => [chest_failure entry e]
              end) entries.

(** The same for the second loop and the saves. *)
Definition replay_save (d : dict GSB_Manifest) (entry : str)
  : dict GSB_Manifest :=
  match load_save (Path_of entry) with
  | Return save => dict_set d (root save) save
  | Raise _ => d
  end.

Definition replay_saves (entries : list str) (d : dict GSB_Manifest)
  : dict GSB_Manifest := fold_left replay_save entries d.

Definition save_failures (entries : list str) : list LogRecord :=
  flat_map (fun entry =>
              match load_save (Path_of entry) with
              | Return _ => []
              | Raise e => [save_failure entry e]
              end) entries.

(** A computation keeps a property of the state, whatever its outcome. *)
Definition preserves {A} (I : Heap -> Prop) (c : M A) : Prop :=
  forall h, I h -> I (fst (c h)).

(** The number of entries of a dictionary under a key. *)
Definition count_key {V} (d : dict V) (k : Path) : nat :=
  List.length (filter (Path_eqb k) (keys d)).

End ConfigMethods.

(* ===================================================================== *)
(** ** A concrete world *)
(* ===================================================================== *)

(** [tomllib.loads] on the documents a configuration file is made of:
    lines [key = value] with a bare key and, as value, a basic string or
    an array of basic strings, possibly over several lines.  On a document
    of this fragment the model answers as [tomllib] does, with the
    dictionary or with [TOMLDecodeError] (whose message is not modelled).
    Other TOML syntax (tables, numbers, comments, quoted and dotted keys,
    literal and multi-line strings) is outside the fragment: the model
    answers [TOMLDecodeError] there too, which says nothing of what
    [tomllib] makes of such a document.  The properties below apply the
    parser to the text that [_to_toml] renders, which is in the
    fragment. *)
Module Toml.

(** [s.replace("\r\n", "\n")], the first thing [tomllib.loads] does. *)
Fixpoint replace_crlf (s : str) : str :=
  match s with
  | [] => []
  | c :: s' =>
      match s' with
      | d :: s'' =>
          if (c =? 13) && (d =? 10) then 10 :: replace_crlf s''
          else c :: replace_crlf s'
      | [] => [c]
      end
  end.

Definition is_ws (c : N) : bool := (c =? 32) || (c =? 9).

Fixpoint skip_ws (s : str) : str :=
  match s with
  | c :: s' => if is_ws c then skip_ws s' else s
  | [] => []
  end.

(** Blanks and line ends, as allowed between the elements of an array
    and before a statement. *)
Fixpoint skip_ws_nl (s : str) : str :=
  match s with
  | c :: s' => if is_ws c || (c =? 10) then skip_ws_nl s' else s
  | [] => []
  end.

Definition is_bare_key_char (c : N) : bool :=
  ((65 <=? c) && (c <=? 90)) || ((97 <=? c) && (c <=? 122))
  || is_digit c || (c =? 95) || (c =? 45).

Fixpoint span (p : N -> bool) (s : str) : str * str :=
  match s with
  | c :: s' => if p c then let (a, b) := span p s' in (c :: a, b) else ([], s)
  | [] => ([], [])
  end.

Definition is_scalar_value (c : N) : bool :=
  (c <? 1114112) && negb ((55296 <=? c) && (c <=? 57343)).

Definition simple_escape (e : N) : option N :=
  if e =? quote then Some quote
  else if e =? backslash then Some backslash
  else if e =? 98 then Some 8
  else if e =? 116 then Some 9
  else if e =? 110 then Some 10
  else if e =? 102 then Some 12
  else if e =? 114 then Some 13
  else None.

(** A basic string, from just after its opening quote. *)
Fixpoint basic_string (s : str) : option (str * str) :=
  match s with
  | [] => None
  | c :: s1 =>
      if c =? quote then Some ([], s1)
      else if c =? backslash then
        match s1 with
        | [] => None
        | e :: s2 =>
            if e =? 117 then
              match s2 with
              | h1 :: h2 :: h3 :: h4 :: s3 =>
                  match Json.hex4 h1 h2 h3 h4 with
                  | Some uni =>
                      if is_scalar_value uni
                      then Json.cons_opt uni (basic_string s3) else None
                  | None => None
                  end
              | _ => None
              end
            else if e =? 85 then
              match s2 with
              | h1 :: h2 :: h3 :: h4 :: h5 :: h6 :: h7 :: h8 :: s3 =>
                  match Json.hex4 h1 h2 h3 h4, Json.hex4 h5 h6 h7 h8 with
                  | Some hi, Some lo =>
                      if is_scalar_value (hi * 65536 + lo)
                      then Json.cons_opt (hi * 65536 + lo) (basic_string s3)
                      else None
                  | _, _ => None
                  end
              | _ => None
              end
            else
              match simple_escape e with
              | Some x => Json.cons_opt x (basic_string s2)
              | None => None
              end
        end
      else if ((c <? 32) && negb (c =? 9)) || (c =? 127) then None
      else Json.cons_opt c (basic_string s1)
  end.

(** The elements of an array, from just after its opening bracket. *)
Fixpoint array_items (fuel : nat) (s : str) (acc : list str)
  : option (list str * str) :=
  match fuel with
  | O => None
  | S fuel =>
      match skip_ws_nl s with
      | c :: s' =>
          if c =? 93 then Some (acc, s')
          else if c =? quote then
            match basic_string s' with
            | Some (v, rest) =>
                match skip_ws_nl rest with
                | d :: rest' =>
                    if d =? 44 then array_items fuel rest' (acc ++ [v])
                    else if d =? 93 then Some (acc ++ [v], rest')
                    else None
                | [] => None
                end
            | None => None
            end
          else None
      | [] => None
      end
  end.

Definition value (s : str) : option (config_value * str) :=
  match s with
  | c :: s' =>
      if c =? quote then
        match basic_string s' with
        | Some (v, rest) => Some (VStr v, rest)
        | None => None
        end
      else if c =? 91 then
        match array_items (S (List.length s')) s' [] with
        | Some (l, rest) => Some (VSeq l, rest)
        | None => None
        end
      else None
  | [] => None
  end.

Definition has_key (d : _ConfigDict) (k : str) : bool :=
  existsb (fun kv => str_eqb (fst kv) k) d.

Definition decode_error : outcome _ConfigDict :=
  Raise (TOMLDecodeError (u "Invalid statement")).

Fixpoint statements (fuel : nat) (s : str) (acc : _ConfigDict)
  : outcome _ConfigDict :=
  match fuel with
  | O => decode_error
  | S fuel =>
      match skip_ws_nl s with
      | [] => Return acc
      | s0 =>
          let (key, s1) := span is_bare_key_char s0 in
          match key, skip_ws s1 with
          | _ :: _, eq :: s2 =>
              if (eq =? 61) && negb (has_key acc key) then
                match value (skip_ws s2) with
                | Some (v, s3) =>
                    match skip_ws s3 with
                    | [] => Return (acc ++ [(key, v)])
                    | c :: s4 =>
                        if c =? 10
                        then statements fuel s4 (acc ++ [(key, v)])
                        else decode_error
                    end
                | None => decode_error
                end
              else decode_error
          | _, _ => decode_error
          end
      end
  end.

Definition loads (s : str) : outcome _ConfigDict :=
  let src := replace_crlf s in
  statements (S (List.length src)) src [].

End Toml.

(** A world with a user [steve], a list of Minecraft roots that hold a
    readable EnderChest, a list of directories that hold a GSB manifest,
    and a value (or none) of [$MINECRAFT_ROOT].  A chest is described by
    the path of its configuration file, a save by its root, which is the
    directory given to [GSB_Manifest.of]. *)
Definition mem_path (p : Path) (l : list Path) : bool := existsb (Path_eqb p) l.

Definition demo_world (minecraft_root : option str)
    (chest_roots save_dirs : list Path) : World :=
  {| EnderChest := Path;
     GSB_Manifest := Path;
     root := fun save => save;
     ender_chest_config := fun p =>
       if mem_path p chest_roots
       then Return {| root_of := root_of p;
                      parts := parts p ++ [u "EnderChest"; u "enderchest.cfg"] |}
       else Raise (FileNotFoundError (str_of p));
     EnderChest_from_cfg := fun f => Return f;
     GSB_Manifest_of := fun d =>
       if mem_path d save_dirs then Return d
       else Raise (FileNotFoundError (str_of d));
     getenv := fun k =>
       if str_eqb k (u "MINECRAFT_ROOT") then minecraft_root else None;
     os_path_expanduser := fun first =>
       if str_eqb first (u "~") then u "/home/steve" else first;
     version := u "0.1.0";
     now_isoformat := u "2024-02-29 12:00:00.000000";
     tomllib_loads := Toml.loads;
     read_error := fun _ => None;
     write_error := fun _ => None |}.

(** The state before anything ran. *)
Definition blank {W : World} : Heap :=
  {| self := {| _ender_chests := []; _saves := [] |}; LOGGER := []; files := [] |}.


(** The path written [s]. *)
Definition P (s : string) : Path := Path_of (u s).

(** A state whose only file is [f], holding [text]. *)
Definition with_file {W : World} (f : Path) (text : str) : Heap :=
  {| self := {| _ender_chests := []; _saves := [] |};
     LOGGER := []; files := [(f, text)] |}.

(** A world without [$MINECRAFT_ROOT]: chests under [/a], [/b], [/good]
    and in steve's home, GSB repositories under [/saves], [/saves/world]
    and in steve's home. *)
Definition home_world : World :=
  demo_world None
    [P "/a"; P "/b"; P "/good"; P "/home/steve/minecraft"]
    [P "/saves"; P "/saves/world"; P "/home/steve/saves/world"].

(** The same with [$MINECRAFT_ROOT] set to [/mc], which holds a chest. *)
Definition env_world : World :=
  demo_world (Some (u "/mc"))
    [P "/mc"; P "/a"; P "/b"; P "/good"] [P "/saves/world"].

(** The text of a configuration file listing the given chests and saves. *)
Definition config_text (chests manifests : list str) : str :=
  _to_toml [(u "ender_chests", VSeq chests); (u "saves", VSeq manifests)].


(** The configuration file of the examples. *)
Definition cfg : Path := P "/cfg.toml".

(** The keys that replaying [entries] adds to a store whose keys are
    [seen], in the order the replay adds them: the listed paths that load
    and are not held yet, each where it is first listed. *)
Fixpoint added_chest_keys {W : World} (entries : list str) (seen : list Path)
  : list Path :=
  match entries with
  | [] => []
  | entry :: rest =>
      match load_chest (Path_of entry) with
      | Return _ =>
          if mem_path (Path_of entry) seen then added_chest_keys rest seen
          else Path_of entry :: added_chest_keys rest (seen ++ [Path_of entry])
      | Raise _ => added_chest_keys rest seen
      end
  end.

(* ===================================================================== *)
(** ** [common/stack.py]: the reports *)
(* ===================================================================== *)

Module StackReport.
Import Stack.
Local Open Scope stack_scope.

(** What evaluating [importlib.import_module(component).__version__] can
    raise: the two exceptions the report catches, and any other one (an
    [ImportError] that is not a [ModuleNotFoundError], say). *)
Inductive import_exn : Type :=
| ModuleNotFoundError (name : str)
| AttributeError (msg : str)
| ImportError (msg : str).

(** [except (ModuleNotFoundError, AttributeError)] *)
Definition is_ModuleNotFound_or_AttributeError (e : import_exn) : bool :=
  match e with
  | ModuleNotFoundError _ | AttributeError _ => true
  | ImportError _ => false
  end.

Inductive imported : Type :=
| Version (v : str)
| ImportFails (e : import_exn).

Definition REQUIRED_PY_DEPENDENCIES : list str :=
  [u "enderchest"; u "gsb"; u "pygit2"].

Definition OPTIONAL_PY_DEPENDENCIES : list str :=
  [u "paramiko"; u "pytest"].

(** A [dict[str, str]], in insertion order. *)
Definition report : Type := list (str * str).

(** [report[k] = v] *)
Fixpoint report_set (r : report) (k v : str) : report :=
  match r with
  | [] => [(k, v)]
  | (k', v') :: r' =>
      if str_eqb k' k then (k', v) :: r' else (k', v') :: report_set r' k v
  end.

(** [report.get(k)] *)
Fixpoint report_get (r : report) (k : str) : option str :=
  match r with
  | [] => None
  | (k', v') :: r' => if str_eqb k' k then Some v' else report_get r' k
  end.

Section Interpreter.

(** The installed packages: what
    [importlib.import_module(component).__version__] evaluates to. *)
Variable version_of : str -> imported.

(** The inner loop of [get_dependency_versions]; an exception that is
    not caught ends it. *)
Fixpoint report_components (component_list : list str) (r : report)
  : import_exn + report :=
  match component_list with
  | [] => inr r
  | component :: rest =>
      match version_of component with
      | Version v => report_components rest (report_set r component v)
      | ImportFails e =>
          if is_ModuleNotFound_or_AttributeError e
          then report_components rest (report_set r component [])
          else inl e
      end
  end.

(** The outer loop. *)
Fixpoint report_lists (lists : list (list str)) (r : report)
  : import_exn + report :=
  match lists with
  | [] => inr r
  | component_list :: rest =>
      match report_components component_list r with
      | inr r' => report_lists rest r'
      | inl e => inl e
      end
  end.

Definition get_dependency_versions : import_exn + report :=
  report_lists [REQUIRED_PY_DEPENDENCIES; OPTIONAL_PY_DEPENDENCIES] [].

(** The version shown for a component: the installed one, or the empty
    string. *)
Definition shown_version (component : str) : str :=
  match version_of component with
  | Version v => v
  | ImportFails _ => []
  end.

End Interpreter.

(** An environment with enderchest 0.1.12 and gsb 0.0.4, a pygit2 without
    version, no paramiko, and a pytest whose import breaks. *)
Definition some_packages (broken_pytest : bool) (component : str) : imported :=
  if str_eqb component (u "enderchest") then Version (u "0.1.12")
  else if str_eqb component (u "gsb") then Version (u "0.0.4")
  else if str_eqb component (u "pygit2")
  then ImportFails (AttributeError (u "__version__"))
  else if str_eqb component (u "pytest") && broken_pytest
  then ImportFails (ImportError (u "cannot import name"))
  else ImportFails (ModuleNotFoundError component).

(** [platform.uname()], as far as [get_stack] reads it. *)
Record uname_result : Type := { system : str; release : str; machine : str }.

(** [get_stack]; the arguments are what [platform.uname()] and
    [sys.version] gave, and those of the probe. *)
Definition get_stack (uname : uname_result) (sys_version : str)
    (max_str_digits : N) (run : outcome CompletedProcess) : Logging report :=
  Rsync <- _get_rsync_version max_str_digits run ;;
  pure [ (u "os", system uname ++ u " " ++ release uname);
         (u "architecture", machine uname);
         (u "Python", sys_version);
         (u "Rsync", Rsync) ].

End StackReport.

(* ===================================================================== *)
(** ** Notions used to state further properties *)
(* ===================================================================== *)

(** A string of digits that [int] refuses: longer than 640 characters and
    than the limit in force. *)
Definition over_limit (max_str_digits : N) (s : str) : Prop :=
  640 < N.of_nat (List.length s)
  /\ 0 < max_str_digits /\ max_str_digits < N.of_nat (List.length s).

(** [s.rstrip()] *)
Definition rstrip (s : str) : str := rev (lstrip (rev s)).

(** Every character of [s] is in the class. *)
Definition all_in (cls : N -> bool) (s : str) : Prop :=
  Forall (fun c => cls c = true) s.

(** A printable ASCII character. *)
Definition is_printable (c : N) : bool := (32 <=? c) && (c <=? 126).

(** A path as [pathlib] builds them: one of the three roots, and
    components that are not empty, not a single dot and hold no slash. *)
Definition well_formed (p : Path) : Prop :=
  (root_of p = [] \/ root_of p = [sep] \/ root_of p = [sep; sep])
  /\ Forall (fun x => is_component x = true /\ ~ In sep x) (parts p).

(** A character of the basic plane that is not a surrogate. *)
Definition is_bmp_scalar (c : N) : bool :=
  (c <? 65536) && negb ((55296 <=? c) && (c <=? 57343)).

(** The log has grown, the files are those of [h0]. *)
Definition log_grown {W : World} (h0 h : Heap) : Prop :=
  (exists l, LOGGER h = LOGGER h0 ++ l) /\ files h = files h0.

(** A printable ASCII character or a line feed. *)
Definition is_text (c : N) : bool := is_printable c || (c =? 10).

(** A world where [$MINECRAFT_ROOT] names the home of a user that does
    not exist. *)
Definition ghost_world : World :=
  demo_world (Some (u "~ghost/minecraft")) [P "/good"; P "/a"] [].

(** A key that TOML reads without quotes. *)
Definition bare_key (k : str) : Prop :=
  k <> [] /\ all_in Toml.is_bare_key_char k.

(** Every string of the value is made of characters of the basic plane
    that are not surrogates. *)
Definition value_in_basic_plane (v : config_value) : bool :=
  match v with
  | VStr s => forallb is_bmp_scalar s
  | VSeq l => forallb (forallb is_bmp_scalar) l
  end.

(** Every string of the value is made of code points. *)
Definition value_code_points (v : config_value) : Prop :=
  match v with
  | VStr s => Json.code_points s
  | VSeq l => Forall Json.code_points l
  end.

(** What the writer keeps of a value: a string as it is, the elements of
    a sequence sorted and without duplicates. *)
Definition written_value (v : config_value) : config_value :=
  match v with
  | VStr s => VStr s
  | VSeq l => VSeq (sorted (set l))
  end.

(** A world where steve keeps a chest in a directory named with U+1F600. *)
Definition emoji_world : World :=
  demo_world None [Path_of (u "/home/steve/" ++ [128512]); P "/a"] [].

(** The text the writer renders for one key. *)
Definition item_text (item : str * config_value) : str :=
  match snd item with
  | VStr s => string_line (fst item) s
  | VSeq l => array_section (fst item) (sorted (set l))
  end.

(** What the parser gives for one key of the writer. *)
Definition written_item (item : str * config_value) : str * config_value :=
  (fst item, written_value (snd item)).

(** Every string of a store, with the version and the time, is in the
    basic plane. *)
Definition store_in_basic_plane {W : World} (config : Config) : bool :=
  forallb (fun item => value_in_basic_plane (snd item)) (as_dict_of config).

(** [tomllib.loads] reads [text] as the model of the parser does: it
    returns the same dictionary, or raises a [TOMLDecodeError], whatever
    its message. *)
Definition reads_as_modelled {W : World} (text : str) : Prop :=
  match Toml.loads text with
  | Return d => tomllib_loads text = Return d
  | Raise _ => exists msg, tomllib_loads text = Raise (TOMLDecodeError msg)
  end.

(** The test that the strings of a value are made of code points. *)
Definition value_code_pointsb (v : config_value) : bool :=
  match v with
  | VStr s => forallb (fun c => c <? 1114112) s
  | VSeq l => forallb (forallb (fun c => c <? 1114112)) l
  end.

(** Every entry is under the key it belongs to: a chest is the one its
    key loads to, a save is under its own root. *)
Definition entries_consistent {W : World} (h : Heap) : Prop :=
  Forall (fun kv => load_chest (fst kv) = Return (snd kv))
         (_ender_chests (self h))
  /\ Forall (fun kv => fst kv = root (snd kv)) (_saves (self h)).

(* ===================================================================== *)
(** * Properties *)
(* ===================================================================== *)

(** ** Strings *)

Module PyStrFacts.

Lemma str_eqb_eq a b : str_eqb a b = true <-> a = b.
Proof.
  revert b; induction a as [|x a IH]; intros [|y b]; simpl; split;
    try congruence; try reflexivity.
  - intros H. apply andb_true_iff in H as [H1 H2].
    apply N.eqb_eq in H1. apply IH in H2. congruence.
  - intros H. injection H as -> ->. rewrite N.eqb_refl. simpl. now apply IH.
Qed.

Lemma str_eqb_refl a : str_eqb a a = true.
Proof. now apply str_eqb_eq. Qed.

Lemma str_eqb_neq a b : str_eqb a b = false <-> a <> b.
Proof.
  split.
  - intros H E. apply str_eqb_eq in E. congruence.
  - intros H. destruct (str_eqb a b) eqn:E; [|reflexivity].
    apply str_eqb_eq in E. contradiction.
Qed.

Lemma str_ltb_irrefl a : str_ltb a a = false.
Proof.
  induction a as [|x a IH]; simpl; [reflexivity|].
  rewrite N.ltb_irrefl, N.eqb_refl, IH. reflexivity.
Qed.

Lemma str_ltb_trans a b c :
  str_ltb a b = true -> str_ltb b c = true -> str_ltb a c = true.
Proof.
  revert b c; induction a as [|x a IH]; intros [|y b] [|z c]; simpl;
    try congruence; try reflexivity.
  intros H1 H2.
  apply orb_true_iff in H1. apply orb_true_iff in H2. apply orb_true_iff.
  destruct H1 as [H1|H1], H2 as [H2|H2].
  - left. apply N.ltb_lt in H1, H2. apply N.ltb_lt. lia.
  - apply andb_true_iff in H2 as [H2 _]. apply N.eqb_eq in H2. subst. now left.
  - apply andb_true_iff in H1 as [H1 _]. apply N.eqb_eq in H1. subst. now left.
  - apply andb_true_iff in H1 as [H1 H1'], H2 as [H2 H2'].
    apply N.eqb_eq in H1, H2. subst. right.
    rewrite N.eqb_refl. simpl. eauto.
Qed.

(** The order is total: distinct strings are comparable. *)
Lemma str_ltb_total a b :
  str_ltb a b = false -> str_ltb b a = false -> a = b.
Proof.
  revert b; induction a as [|x a IH]; intros [|y b]; simpl;
    try congruence; try reflexivity.
  intros H1 H2.
  apply orb_false_iff in H1 as [H1 H1'], H2 as [H2 H2'].
  apply N.ltb_ge in H1, H2. assert (x = y) by lia. subst.
  rewrite N.eqb_refl in H1', H2'. simpl in *. f_equal. now apply IH.
Qed.

End PyStrFacts.
Import PyStrFacts.

(** ** The Rsync version probe *)

Section StackFacts.
Import Stack.

Lemma decoded_raises c r e : decoded c r = Raise e -> r = Raise e.
Proof. destruct r; simpl; congruence. Qed.

Lemma decode_raises_upto n :
  forall b e, (List.length b <= n)%nat ->
    decode_utf_8 b = Raise e -> e = UnicodeDecodeError.
Proof.
  induction n as [|n IH]; intros b e Hn H.
  - destruct b; [discriminate|simpl in Hn; lia].
  - destruct b as [|b0 r0]; [discriminate|].
    cbn [decode_utf_8] in H. simpl in Hn.
    destruct (b0 <? 128).
    { apply decoded_raises in H. apply (IH r0); [lia|exact H]. }
    destruct (between 194 223 b0).
    { destruct r0 as [|b1 r1]; [congruence|].
      destruct (between 128 191 b1); [|congruence].
      apply decoded_raises in H. simpl in Hn. apply (IH r1); [lia|exact H]. }
    destruct (between 224 239 b0).
    { destruct r0 as [|b1 [|b2 r2]]; try congruence.
      destruct (second_of_three b0 b1 && between 128 191 b2); [|congruence].
      apply decoded_raises in H. simpl in Hn. apply (IH r2); [lia|exact H]. }
    destruct (between 240 244 b0); [|congruence].
    destruct r0 as [|b1 [|b2 [|b3 r3]]]; try congruence.
    destruct (second_of_four b0 b1 && between 128 191 b2 && between 128 191 b3);
      [|congruence].
    apply decoded_raises in H. simpl in Hn. apply (IH r3); [lia|exact H].
Qed.

(** Decoding raises nothing but [UnicodeDecodeError]. *)
Lemma decode_raises b e : decode_utf_8 b = Raise e -> e = UnicodeDecodeError.
Proof. apply (decode_raises_upto (List.length b)). lia. Qed.

(** ASCII text is its own encoding. *)
Lemma decode_ascii s :
  Forall (fun c => c < 128) s -> decode_utf_8 s = Return s.
Proof.
  induction 1 as [|c s Hc _ IH]; [reflexivity|].
  cbn [decode_utf_8]. apply N.ltb_lt in Hc. now rewrite Hc, IH.
Qed.

(** [int] returns the number written, or refuses a string that is too
    long with a [ValueError]. *)
Lemma int_of_str_cases limit s :
  (int_of_str limit s = Return (decimal_value s)
   /\ ~ (640 < N.of_nat (List.length s)
         /\ 0 < limit /\ limit < N.of_nat (List.length s)))
  \/ ((exists msg, int_of_str limit s = Raise (ValueError msg))
      /\ 640 < N.of_nat (List.length s)
      /\ 0 < limit /\ limit < N.of_nat (List.length s)).
Proof.
  unfold int_of_str. cbv zeta.
  destruct (640 <? N.of_nat (List.length s)) eqn:E1;
    destruct (0 <? limit) eqn:E2;
    destruct (limit <? N.of_nat (List.length s)) eqn:E3; cbn [andb];
    try (left; split; [reflexivity|];
         intros (H1 & H2 & H3);
         apply N.ltb_lt in H1, H2, H3; congruence).
  right. apply N.ltb_lt in E1, E2, E3. split; [eexists; reflexivity|auto].
Qed.

Lemma int_of_str_short limit s :
  (List.length s <= 640)%nat -> int_of_str limit s = Return (decimal_value s).
Proof.
  intros H. destruct (int_of_str_cases limit s) as [[E _]|(_ & H1 & _)];
    [exact E|lia].
Qed.

Lemma too_old_raises limit major minor e :
  too_old limit major minor = Raise e -> exists msg, e = ValueError msg.
Proof.
  unfold too_old.
  destruct (int_of_str_cases limit major) as [[-> _]|[[m ->] _]].
  - destruct (decimal_value major <? 3); [discriminate|].
    destruct (decimal_value major =? 3); [|discriminate].
    destruct (int_of_str_cases limit minor) as [[-> _]|[[m ->] _]];
      [discriminate|].
    intros H. injection H as <-. eauto.
  - intros H. injection H as <-. eauto.
Qed.

(** When the conversions are made, the version is too old exactly when it
    is below 3.2. *)
Lemma too_old_returns limit major minor b :
  too_old limit major minor = Return b ->
  b = (decimal_value major <? 3)
      || ((decimal_value major =? 3) && (decimal_value minor <? 2)).
Proof.
  unfold too_old.
  destruct (int_of_str_cases limit major) as [[-> _]|[[m ->] _]];
    [|discriminate].
  destruct (decimal_value major <? 3); [intros H; now injection H|].
  destruct (decimal_value major =? 3);
    [|intros H; now injection H].
  destruct (int_of_str_cases limit minor) as [[-> _]|[[m ->] _]];
    [|discriminate].
  intros H. now injection H.
Qed.

(** The probe on a run that wrote nothing on its error stream. *)
Lemma probe_quiet_run limit out log :
  _get_rsync_version limit (Return {| stdout := out; stderr := [] |}) log =
    match decode_utf_8 out with
    | Raise _ => (log, Raise UnicodeDecodeError)
    | Return text =>
        match splitlines text with
        | [] => (log, Return [])
        | head :: _ =>
            match re_match rsync_pattern head [] with
            | None =>
                (log ++ [ERROR (u "Could not parse output message:"
                                  ++ nl ++ u "%s") [ArgStr head]],
                 Return [])
            | Some groups =>
                match unpack_two groups with
                | Raise e => (log, Raise e)
                | Return (major, minor) =>
                    match too_old limit major minor with
                    | Raise e => (log, Raise e)
                    | Return true =>
                        (log ++ [ERROR (u "%s is too old") [ArgStr head]],
                         Return [])
                    | Return false => (log, Return (strip (skipn 5 head)))
                    end
                end
            end
        end
    end.
Proof.
  unfold _get_rsync_version, try_or_empty, and_then, eval, pure, LOGGER_error.
  cbn [stdout stderr].
  destruct (decode_utf_8 out) as [text|e] eqn:Ed.
  2:{ apply decode_raises in Ed. now subst e. }
  destruct (splitlines text) as [|head ls]; [reflexivity|]. cbn [first_item].
  destruct (re_match rsync_pattern head []) as [groups|]; [|reflexivity].
  destruct groups as [|major [|minor more]]; try reflexivity.
  cbn [unpack_two fst snd].
  destruct (too_old limit major minor) as [[|]|e] eqn:Eo; try reflexivity.
  apply too_old_raises in Eo as [msg ->]. reflexivity.
Qed.

(** On a run that wrote on its error stream, the probe logs what was
    written, if it can be decoded, and goes on as on a quiet run. *)
Lemma probe_noisy_run limit out err log :
  err <> [] ->
  _get_rsync_version limit (Return {| stdout := out; stderr := err |}) log =
    match decode_utf_8 err with
    | Return message =>
        _get_rsync_version limit (Return {| stdout := out; stderr := [] |})
                           (log ++ [ERROR message []])
    | Raise _ => (log, Raise UnicodeDecodeError)
    end.
Proof.
  intros Hne. destruct err as [|b err]; [contradiction|].
  unfold _get_rsync_version, try_or_empty, and_then, eval, pure, LOGGER_error.
  cbn [stdout stderr].
  destruct (decode_utf_8 (b :: err)) as [message|e] eqn:Ed; [reflexivity|].
  apply decode_raises in Ed. now subst e.
Qed.

(** What the probe logs is added to the log; its outcome does not depend
    on the log. *)
Lemma probe_frame limit run log :
  _get_rsync_version limit run log
  = (log ++ logged limit run, answer limit run).
Proof.
  assert (Hq : forall out l,
             _get_rsync_version limit
               (Return {| stdout := out; stderr := [] |}) l
             = (l ++ fst (_get_rsync_version limit
                            (Return {| stdout := out; stderr := [] |}) []),
                snd (_get_rsync_version limit
                       (Return {| stdout := out; stderr := [] |}) []))).
  { intros out l. rewrite !probe_quiet_run.
    destruct (decode_utf_8 out) as [text|e];
      [|cbn [fst snd]; now rewrite app_nil_r].
    destruct (splitlines text) as [|head ls];
      [cbn [fst snd]; now rewrite app_nil_r|].
    destruct (re_match rsync_pattern head []) as [groups|]; [|reflexivity].
    destruct (unpack_two groups) as [[major minor]|e];
      [|cbn [fst snd]; now rewrite app_nil_r].
    destruct (too_old limit major minor) as [[|]|e]; cbn [fst snd app];
      try reflexivity; now rewrite app_nil_r. }
  unfold logged, answer. destruct run as [[out err]|e].
  - destruct err as [|b err]; [apply Hq|].
    rewrite !(probe_noisy_run limit out (b :: err)) by discriminate.
    destruct (decode_utf_8 (b :: err)) as [message|e];
      [|cbn [fst snd]; now rewrite app_nil_r].
    rewrite (Hq out (log ++ _)), (Hq out ([] ++ _)). cbn [fst snd app].
    now rewrite <- app_assoc.
  - unfold _get_rsync_version, try_or_empty, and_then, eval.
    destruct (is_FileNotFoundError_or_IndexError e); cbn [fst snd];
      now rewrite app_nil_r.
Qed.

(** The answer of the probe on a run whose error stream can be decoded. *)
Lemma answer_of_run limit result message :
  decode_utf_8 (stderr result) = Return message ->
  answer limit (Return result)
  = answer limit (Return {| stdout := stdout result; stderr := [] |}).
Proof.
  intros Hm. destruct result as [out err]. cbn [stdout stderr] in *.
  destruct err as [|b err]; [reflexivity|].
  unfold answer at 1.
  rewrite (probe_noisy_run limit out (b :: err)) by discriminate.
  rewrite Hm, probe_frame. reflexivity.
Qed.

Lemma answer_quiet limit out :
  answer limit (Return {| stdout := out; stderr := [] |}) =
    match decode_utf_8 out with
    | Raise _ => Raise UnicodeDecodeError
    | Return text =>
        match splitlines text with
        | [] => Return []
        | head :: _ =>
            match re_match rsync_pattern head [] with
            | None => Return []
            | Some groups =>
                match unpack_two groups with
                | Raise e => Raise e
                | Return (major, minor) =>
                    match too_old limit major minor with
                    | Raise e => Raise e
                    | Return true => Return []
                    | Return false => Return (strip (skipn 5 head))
                    end
                end
            end
        end
    end.
Proof.
  unfold answer. rewrite probe_quiet_run.
  destruct (decode_utf_8 out) as [text|e]; [|reflexivity].
  destruct (splitlines text) as [|head ls]; [reflexivity|].
  destruct (re_match rsync_pattern head []) as [groups|]; [|reflexivity].
  destruct (unpack_two groups) as [[major minor]|e]; [|reflexivity].
  destruct (too_old limit major minor) as [[|]|e]; reflexivity.
Qed.

(** The answer on a first line that matches the pattern. *)
Lemma answer_match limit result message text head major minor more :
  decode_utf_8 (stderr result) = Return message ->
  decode_utf_8 (stdout result) = Return text ->
  first_item (splitlines text) = Return head ->
  re_match rsync_pattern head [] = Some (major :: minor :: more) ->
  answer limit (Return result) =
    match too_old limit major minor with
    | Raise e => Raise e
    | Return true => Return []
    | Return false => Return (strip (skipn 5 head))
    end.
Proof.
  intros Hm Ht Hl Hg. rewrite (answer_of_run _ _ _ Hm), answer_quiet.
  cbn [stdout]. rewrite Ht.
  destruct (splitlines text) as [|l ls]; [discriminate|].
  injection Hl as ->. rewrite Hg. reflexivity.
Qed.

(** C3, as the code has it.  On a first line "rsync version 2.9.1" the
    probe returns the empty string; on "rsync version 3.2.0" it returns
    "version 3.2.0", the rest of the line after the tool name, trimmed.
    More generally, when both streams of the run decode: on a first line
    that matches the pattern the probe returns the empty string if the
    version is found too old, the rest of the line after the tool name,
    trimmed, if it is not, and raises what [int] raises on a number it
    refuses; on a first line that does not match, and on no output, it
    returns the empty string.  When the binary is missing it returns the
    empty string; another exception of the launch is raised, and so is the
    [UnicodeDecodeError] of a stream that does not decode. *)
Theorem rsync_probe_returns :
  (forall limit, probe limit "rsync version 2.9.1" = Return [])
  /\ (forall limit, probe limit "rsync version 3.2.0" = Return (u "version 3.2.0"))
  /\ (forall limit,
        probe limit "rsync  version 3.2.7  protocol version 31"
        = Return (u "version 3.2.7  protocol version 31"))
  /\ (forall limit result message text head major minor more,
        decode_utf_8 (stderr result) = Return message ->
        decode_utf_8 (stdout result) = Return text ->
        first_item (splitlines text) = Return head ->
        re_match rsync_pattern head [] = Some (major :: minor :: more) ->
        too_old limit major minor = Return false ->
        answer limit (Return result) = Return (strip (skipn 5 head)))
  /\ (forall limit result message text head major minor more,
        decode_utf_8 (stderr result) = Return message ->
        decode_utf_8 (stdout result) = Return text ->
        first_item (splitlines text) = Return head ->
        re_match rsync_pattern head [] = Some (major :: minor :: more) ->
        too_old limit major minor = Return true ->
        answer limit (Return result) = Return [])
  /\ (forall limit result message text head major minor more e,
        decode_utf_8 (stderr result) = Return message ->
        decode_utf_8 (stdout result) = Return text ->
        first_item (splitlines text) = Return head ->
        re_match rsync_pattern head [] = Some (major :: minor :: more) ->
        too_old limit major minor = Raise e ->
        answer limit (Return result) = Raise e)
  /\ (forall limit result message text head,
        decode_utf_8 (stderr result) = Return message ->
        decode_utf_8 (stdout result) = Return text ->
        first_item (splitlines text) = Return head ->
        re_match rsync_pattern head [] = None ->
        answer limit (Return result) = Return [])
  /\ (forall limit result message text,
        decode_utf_8 (stderr result) = Return message ->
        decode_utf_8 (stdout result) = Return text ->
        splitlines text = [] ->
        answer limit (Return result) = Return [])
  /\ (forall limit msg, answer limit (Raise (FileNotFoundError msg)) = Return [])
  /\ (forall limit e,
        is_FileNotFoundError_or_IndexError e = false ->
        answer limit (Raise e) = Raise e)
  /\ (forall limit result e,
        stderr result <> [] ->
        decode_utf_8 (stderr result) = Raise e ->
        answer limit (Return result) = Raise UnicodeDecodeError)
  /\ (forall limit result message e,
        decode_utf_8 (stderr result) = Return message ->
        decode_utf_8 (stdout result) = Raise e ->
        answer limit (Return result) = Raise UnicodeDecodeError).
Proof.
  split; [intros limit; vm_compute; reflexivity|].
  split; [intros limit; vm_compute; reflexivity|].
  split; [intros limit; vm_compute; reflexivity|].
  split.
  { intros * Hm Ht Hl Hg Ho.
    now rewrite (answer_match _ _ _ _ _ _ _ _ Hm Ht Hl Hg), Ho. }
  split.
  { intros * Hm Ht Hl Hg Ho.
    now rewrite (answer_match _ _ _ _ _ _ _ _ Hm Ht Hl Hg), Ho. }
  split.
  { intros * Hm Ht Hl Hg Ho.
    now rewrite (answer_match _ _ _ _ _ _ _ _ Hm Ht Hl Hg), Ho. }
  split.
  { intros * Hm Ht Hl Hg. rewrite (answer_of_run _ _ _ Hm), answer_quiet.
    cbn [stdout]. rewrite Ht.
    destruct (splitlines text) as [|l ls]; [discriminate|].
    injection Hl as ->. now rewrite Hg. }
  split.
  { intros * Hm Ht Hs. rewrite (answer_of_run _ _ _ Hm), answer_quiet.
    cbn [stdout]. now rewrite Ht, Hs. }
  split; [reflexivity|].
  split.
  { intros limit e He. unfold answer, _get_rsync_version, try_or_empty,
      and_then, eval. cbn [snd]. now rewrite He. }
  split.
  { intros limit [out err] e Hne He. cbn [stderr] in *. unfold answer.
    rewrite (probe_noisy_run limit out err) by exact Hne. now rewrite He. }
  intros limit result message e Hm He.
  rewrite (answer_of_run _ _ _ Hm), answer_quiet. cbn [stdout].
  now rewrite He.
Qed.

(** The theorem at the output of an old, a recent and a foreign tool, the
    recent one with a warning on its error stream. *)
Lemma rsync_probe_returns_witness :
  answer default_max_str_digits
    (Return {| stdout := u "rsync  version 3.1.3  protocol version 31";
               stderr := [] |}) = Return []
  /\ answer default_max_str_digits
       (Return {| stdout := u "rsync  version 3.2.7  protocol version 31";
                  stderr := u "rsync: warning" |})
     = Return (u "version 3.2.7  protocol version 31")
  /\ answer default_max_str_digits
       (Return {| stdout := u "openrsync: protocol version 29";
                  stderr := [] |}) = Return []
  /\ answer default_max_str_digits
       (Return {| stdout := u "rsync version 3.2.7"; stderr := [255] |})
     = Raise UnicodeDecodeError.
Proof.
  destruct rsync_probe_returns
    as (_ & _ & _ & Hnew & Hold & _ & Hno & _ & _ & _ & Herr & _).
  split; [|split; [|split]].
  - apply (Hold _ _ [] (u "rsync  version 3.1.3  protocol version 31")
                (u "rsync  version 3.1.3  protocol version 31")
                (u "3") (u "1") [u "3"]); reflexivity.
  - apply (Hnew _ _ (u "rsync: warning")
                (u "rsync  version 3.2.7  protocol version 31")
                (u "rsync  version 3.2.7  protocol version 31")
                (u "3") (u "2") [u "7"]); reflexivity.
  - apply (Hno _ _ [] (u "openrsync: protocol version 29")
               (u "openrsync: protocol version 29")); reflexivity.
  - apply (Herr _ _ UnicodeDecodeError); [discriminate|reflexivity].
Defined.

(** C3 as stated fails: on "rsync version 3.2.0" the probe does not return
    the bare version "3.2.0". *)
Lemma rsync_probe_keeps_version_word :
  ~ (probe default_max_str_digits "rsync version 2.9.1" = Return []
     /\ probe default_max_str_digits "rsync version 3.2.0" = Return (u "3.2.0")
     /\ probe default_max_str_digits "no version here" = Return []).
Proof. intros (_ & H & _). vm_compute in H. discriminate. Qed.

End StackFacts.

(** ** JSON escaping *)

Module JsonFacts.
Import Json.

Lemma unhex_hexdigit d : d < 16 -> unhex (hexdigit d) = Some d.
Proof.
  intros H.
  assert (In d (map N.of_nat (seq 0 16))) as Hin.
  { apply in_map_iff. exists (N.to_nat d). split; [lia|].
    apply in_seq. lia. }
  simpl in Hin.
  repeat (destruct Hin as [<-|Hin]; [reflexivity|]). contradiction.
Qed.

Ltac euclid := zify; Z.to_euclidean_division_equations; lia.

Lemma nibble_lt n : N.land n 15 < 16.
Proof.
  change 15 with (N.ones 4). rewrite N.land_ones.
  apply N.mod_lt. discriminate.
Qed.

Lemma hex4_escape_u n rest :
  n < 65536 ->
  exists h1 h2 h3 h4,
    escape_u n ++ rest = backslash :: 117 :: h1 :: h2 :: h3 :: h4 :: rest
    /\ hex4 h1 h2 h3 h4 = Some n.
Proof.
  intros H. unfold escape_u. do 4 eexists. split; [reflexivity|].
  unfold hex4. rewrite !unhex_hexdigit by apply nibble_lt.
  f_equal. change 15 with (N.ones 4). rewrite !N.land_ones.
  rewrite !N.shiftr_div_pow2.
  change (2 ^ 12) with 4096. change (2 ^ 8) with 256. change (2 ^ 4) with 16.
  euclid.
Qed.

Lemma lor_shiftl_low hi lo k :
  lo < 2 ^ k -> N.lor (N.shiftl hi k) lo = hi * 2 ^ k + lo.
Proof.
  intros H. rewrite <- N.shiftl_mul_pow2.
  rewrite <- N.lxor_lor, <- N.add_nocarry_lxor; try reflexivity;
    apply N.bits_inj; intros i; rewrite N.land_spec, N.bits_0;
    destruct (N.lt_ge_cases i k) as [Hi|Hi].
  all: try (rewrite N.shiftl_spec_low by assumption; reflexivity).
  all: rewrite <- (N.mod_small lo (2 ^ k)) by assumption;
    rewrite N.mod_pow2_bits_high by assumption; apply andb_false_r.
Qed.

(** The two halves [json.dumps] writes for a character outside the basic
    plane, and what the scanner makes of them. *)
Lemma surrogates_of c :
  65536 <= c < 1114112 ->
  let n := c - 65536 in
  let s1 := N.lor 55296 (N.land (N.shiftr n 10) 1023) in
  let s2 := N.lor 56320 (N.land n 1023) in
  s1 < 65536 /\ s2 < 65536
  /\ is_high_surrogate s1 = true /\ is_low_surrogate s2 = true
  /\ 65536 + N.lor (N.shiftl (s1 - 55296) 10) (s2 - 56320) = c.
Proof.
  intros H n s1 s2.
  assert (Hhi : N.land (N.shiftr n 10) 1023 < 1024).
  { change 1023 with (N.ones 10). rewrite N.land_ones.
    apply N.mod_lt. discriminate. }
  assert (Hlo : N.land n 1023 < 1024).
  { change 1023 with (N.ones 10). rewrite N.land_ones.
    apply N.mod_lt. discriminate. }
  assert (E1 : s1 = 55296 + N.land (N.shiftr n 10) 1023).
  { unfold s1. change 55296 with (N.shiftl 54 10).
    rewrite lor_shiftl_low by exact Hhi. reflexivity. }
  assert (E2 : s2 = 56320 + N.land n 1023).
  { unfold s2. change 56320 with (N.shiftl 55 10).
    rewrite lor_shiftl_low by exact Hlo. reflexivity. }
  unfold is_high_surrogate, is_low_surrogate.
  rewrite E1, E2.
  replace (55296 + N.land (N.shiftr n 10) 1023 - 55296)
    with (N.land (N.shiftr n 10) 1023) by lia.
  replace (56320 + N.land n 1023 - 56320) with (N.land n 1023) by lia.
  rewrite lor_shiftl_low by exact Hlo.
  repeat split; try lia.
  - apply andb_true_iff; split; apply N.leb_le; lia.
  - apply andb_true_iff; split; apply N.leb_le; lia.
  - revert Hhi Hlo. change 1023 with (N.ones 10). rewrite !N.land_ones.
    rewrite N.shiftr_div_pow2. change (2 ^ 10) with 1024.
    intros _ _. unfold n. euclid.
Qed.


Lemma scan_plain c rest :
  is_plain c = true -> scanstring (c :: rest) = cons_opt c (scanstring rest).
Proof.
  unfold is_plain. intros H.
  apply andb_true_iff in H as [H Hb]. apply andb_true_iff in H as [H Hq].
  apply andb_true_iff in H as [Hlo _].
  apply negb_true_iff in Hb, Hq. apply N.leb_le in Hlo.
  cbn [scanstring]. rewrite Hq, Hb.
  destruct (c <? 32) eqn:E; [apply N.ltb_lt in E; lia|reflexivity].
Qed.

Lemma scan_simple e x rest :
  e <> 117 -> simple_escape e = Some x ->
  scanstring (backslash :: e :: rest) = cons_opt x (scanstring rest).
Proof.
  intros He Hx. cbn [scanstring].
  change (backslash =? quote) with false.
  change (backslash =? backslash) with true. cbv iota.
  apply N.eqb_neq in He. rewrite He, Hx. reflexivity.
Qed.

Lemma scan_u h1 h2 h3 h4 uni rest :
  hex4 h1 h2 h3 h4 = Some uni ->
  (is_high_surrogate uni = true -> low_escape_follows rest = false) ->
  scanstring (backslash :: 117 :: h1 :: h2 :: h3 :: h4 :: rest)
  = cons_opt uni (scanstring rest).
Proof.
  intros Hh Hf. cbn [scanstring].
  change (backslash =? quote) with false.
  change (backslash =? backslash) with true.
  change (117 =? 117) with true. cbv iota. rewrite Hh.
  destruct (is_high_surrogate uni); [|reflexivity].
  specialize (Hf eq_refl). unfold low_escape_follows in Hf.
  destruct rest as [|b [|v r2]]; try reflexivity.
  destruct ((b =? backslash) && (v =? 117)); [|reflexivity].
  destruct r2 as [|g1 [|g2 [|g3 [|g4 r3]]]]; try discriminate.
  destruct (hex4 g1 g2 g3 g4); [|discriminate].
  rewrite Hf. reflexivity.
Qed.

Lemma scan_pair h1 h2 h3 h4 g1 g2 g3 g4 s1 s2 rest :
  hex4 h1 h2 h3 h4 = Some s1 -> hex4 g1 g2 g3 g4 = Some s2 ->
  is_high_surrogate s1 = true -> is_low_surrogate s2 = true ->
  scanstring (backslash :: 117 :: h1 :: h2 :: h3 :: h4
              :: backslash :: 117 :: g1 :: g2 :: g3 :: g4 :: rest)
  = cons_opt (65536 + N.lor (N.shiftl (s1 - 55296) 10) (s2 - 56320))
             (scanstring rest).
Proof.
  intros Hh Hg H1 H2. cbn [scanstring].
  change (backslash =? quote) with false.
  change (backslash =? backslash) with true.
  change (117 =? 117) with true. cbv iota.
  rewrite Hh, H1. cbn [andb]. cbv iota. rewrite Hg, H2. reflexivity.
Qed.


Lemma high_not_low c : is_high_surrogate c = true -> is_low_surrogate c = false.
Proof.
  unfold is_high_surrogate, is_low_surrogate. intros H.
  apply andb_true_iff in H as [_ H]. apply N.leb_le in H.
  apply andb_false_iff. left. apply N.leb_gt. lia.
Qed.

Lemma scan_escape_char c rest :
  c < 1114112 ->
  (is_high_surrogate c = true -> low_escape_follows rest = false) ->
  scanstring (escape_char c ++ rest) = cons_opt c (scanstring rest).
Proof.
  intros Hc Hf. unfold escape_char.
  destruct (is_plain c) eqn:Hp; [now apply scan_plain|].
  destruct (c =? backslash) eqn:E1;
    [apply N.eqb_eq in E1; subst; now apply scan_simple|].
  destruct (c =? quote) eqn:E2;
    [apply N.eqb_eq in E2; subst; now apply scan_simple|].
  destruct (c =? 8) eqn:E3;
    [apply N.eqb_eq in E3; subst; now apply (scan_simple 98 8)|].
  destruct (c =? 12) eqn:E4;
    [apply N.eqb_eq in E4; subst; now apply (scan_simple 102 12)|].
  destruct (c =? 10) eqn:E5;
    [apply N.eqb_eq in E5; subst; now apply (scan_simple 110 10)|].
  destruct (c =? 13) eqn:E6;
    [apply N.eqb_eq in E6; subst; now apply (scan_simple 114 13)|].
  destruct (c =? 9) eqn:E7;
    [apply N.eqb_eq in E7; subst; now apply (scan_simple 116 9)|].
  destruct (c <? 65536) eqn:E8.
  - apply N.ltb_lt in E8.
    destruct (hex4_escape_u c rest E8) as (h1 & h2 & h3 & h4 & E & Hh).
    rewrite E. now apply scan_u.
  - apply N.ltb_ge in E8.
    destruct (surrogates_of c (conj E8 Hc)) as (L1 & L2 & S1 & S2 & Ec).
    cbv zeta. rewrite <- app_assoc.
    match goal with
    | |- context [escape_u ?a ++ escape_u ?b ++ rest] =>
        destruct (hex4_escape_u b rest L2) as (g1 & g2 & g3 & g4 & Eg & Hg);
        rewrite Eg;
        destruct (hex4_escape_u a
                    (backslash :: 117 :: g1 :: g2 :: g3 :: g4 :: rest) L1)
          as (h1 & h2 & h3 & h4 & Eh & Hh);
        rewrite Eh
    end.
    rewrite (scan_pair _ _ _ _ _ _ _ _ _ _ rest Hh Hg S1 S2).
    cbv zeta in Ec. rewrite Ec. reflexivity.
Qed.

Lemma low_escape_follows_dumps s t :
  code_points s ->
  match s with d :: _ => is_low_surrogate d = false | [] => True end ->
  low_escape_follows (flat_map escape_char s ++ quote :: t) = false.
Proof.
  intros Hs Hd. destruct s as [|d s'].
  - destruct t; reflexivity.
  - assert (Hc : d < 1114112) by (apply Hs; now left).
    cbn [flat_map]. rewrite <- app_assoc.
    set (rest := flat_map escape_char s' ++ quote :: t). clearbody rest.
    unfold escape_char.
    destruct (is_plain d) eqn:Hp.
    { unfold is_plain in Hp. apply andb_true_iff in Hp as [_ Hp].
      apply negb_true_iff in Hp. cbn [app low_escape_follows].
      destruct rest; [reflexivity|]. rewrite Hp. reflexivity. }
    destruct (d =? backslash); [reflexivity|].
    destruct (d =? quote); [reflexivity|].
    destruct (d =? 8); [reflexivity|].
    destruct (d =? 12); [reflexivity|].
    destruct (d =? 10); [reflexivity|].
    destruct (d =? 13); [reflexivity|].
    destruct (d =? 9); [reflexivity|].
    destruct (d <? 65536) eqn:E8.
    + apply N.ltb_lt in E8.
      destruct (hex4_escape_u d rest E8) as (h1 & h2 & h3 & h4 & E & Hh).
      rewrite E. cbn [low_escape_follows].
      change ((backslash =? backslash) && (117 =? 117)) with true.
      cbv iota. rewrite Hh. exact Hd.
    + apply N.ltb_ge in E8.
      destruct (surrogates_of d (conj E8 Hc)) as (L1 & L2 & S1 & S2 & Ec).
      cbv zeta. rewrite <- app_assoc.
      match goal with
      | |- context [escape_u ?a ++ ?r] =>
          destruct (hex4_escape_u a r L1) as (h1 & h2 & h3 & h4 & Eh & Hh);
          rewrite Eh
      end.
      cbn [low_escape_follows].
      change ((backslash =? backslash) && (117 =? 117)) with true.
      cbv iota. rewrite Hh. now apply high_not_low.
Qed.

Lemma code_points_tail c s : code_points (c :: s) -> code_points s.
Proof. intros H x Hx. apply H. now right. Qed.

Lemma scan_dumps s t :
  code_points s -> no_split_pair s = true ->
  scanstring (flat_map escape_char s ++ quote :: t) = Some (s, t).
Proof.
  induction s as [|c s IH]; intros Hs Hn.
  - reflexivity.
  - cbn [flat_map]. rewrite <- app_assoc.
    cbn [no_split_pair] in Hn. apply andb_true_iff in Hn as [Hcd Hn].
    rewrite scan_escape_char.
    + rewrite IH; [reflexivity|now apply code_points_tail in Hs|exact Hn].
    + apply Hs. now left.
    + intros Hh. apply low_escape_follows_dumps.
      * now apply code_points_tail in Hs.
      * destruct s as [|d s']; [exact I|].
        rewrite Hh in Hcd. cbn [andb] in Hcd.
        now apply negb_true_iff in Hcd.
Qed.

Lemma unescape_dumps s :
  code_points s -> no_split_pair s = true -> unescape (dumps s) = Some s.
Proof.
  intros Hs Hn. unfold unescape, dumps. cbn [app].
  change (quote =? quote) with true. cbv iota.
  rewrite scan_dumps by assumption. reflexivity.
Qed.

End JsonFacts.

(** ** Sorting and the TOML writer *)

Section WriterFacts.

Lemma In_insort x y l : In x (insort y l) <-> x = y \/ In x l.
Proof.
  induction l as [|z l IH]; simpl.
  - intuition congruence.
  - destruct (str_ltb z y); simpl; rewrite ?IH; intuition congruence.
Qed.

Lemma In_sorted x l : In x (sorted l) <-> In x l.
Proof.
  induction l as [|y l IH]; simpl; [tauto|].
  rewrite In_insort, IH. intuition congruence.
Qed.

Lemma In_set x l : In x (set l) <-> In x l.
Proof.
  induction l as [|y l IH]; simpl; [tauto|].
  rewrite filter_In, IH. split.
  - intros [H|[H _]]; auto.
  - intros [H|H]; auto.
    destruct (str_eqb y x) eqn:E.
    + apply str_eqb_eq in E. auto.
    + right. split; [exact H|reflexivity].
Qed.

Lemma NoDup_filter {A} (p : A -> bool) l : NoDup l -> NoDup (filter p l).
Proof.
  induction 1 as [|x l Hx Hl IH]; simpl; [constructor|].
  destruct (p x); [constructor|]; auto.
  rewrite filter_In. tauto.
Qed.

Lemma NoDup_set l : NoDup (set l).
Proof.
  induction l as [|x l IH]; simpl; constructor.
  - rewrite filter_In. intros [_ H]. rewrite str_eqb_refl in H. discriminate.
  - now apply NoDup_filter.
Qed.

Lemma insort_sorted x l :
  StronglySorted str_lt l -> ~ In x l -> StronglySorted str_lt (insort x l).
Proof.
  induction 1 as [|y l Hl IH Hy]; intros Hx; simpl.
  - repeat constructor.
  - destruct (str_ltb y x) eqn:E.
    + constructor.
      * apply IH. intros H. apply Hx. now right.
      * apply Forall_forall. intros z Hz. apply In_insort in Hz as [->|Hz].
        -- exact E.
        -- rewrite Forall_forall in Hy. now apply Hy.
    + assert (Hxy : str_lt x y).
      { unfold str_lt. destruct (str_ltb x y) eqn:E'; [reflexivity|].
        exfalso. apply Hx. left. symmetry. now apply str_ltb_total. }
      constructor; [now constructor|].
      constructor; [exact Hxy|].
      rewrite Forall_forall in *. intros z Hz.
      eapply str_ltb_trans; [exact Hxy|now apply Hy].
Qed.

Lemma sorted_sorted l : NoDup l -> StronglySorted str_lt (sorted l).
Proof.
  induction 1 as [|x l Hx Hl IH]; simpl; [constructor|].
  apply insort_sorted; [exact IH|]. now rewrite In_sorted.
Qed.

Lemma sorted_NoDup l : StronglySorted str_lt l -> NoDup l.
Proof.
  induction 1 as [|x l Hl IH Hx]; constructor; [|exact IH].
  intros H. rewrite Forall_forall in Hx. specialize (Hx x H).
  unfold str_lt in Hx. rewrite str_ltb_irrefl in Hx. discriminate.
Qed.

(** A strictly increasing list is determined by its elements. *)
Lemma sorted_unique l1 l2 :
  StronglySorted str_lt l1 -> StronglySorted str_lt l2 ->
  (forall x, In x l1 <-> In x l2) -> l1 = l2.
Proof.
  intros H1; revert l2. induction H1 as [|x l1 Hl1 IH Hx]; intros l2 H2 Hin.
  - destruct l2 as [|y l2]; [reflexivity|].
    exfalso. apply (Hin y). now left.
  - destruct H2 as [|y l2 Hl2 Hy].
    { exfalso. apply (Hin x). now left. }
    rewrite Forall_forall in Hx, Hy.
    assert (x = y) as <-.
    { destruct (proj1 (Hin x) (or_introl eq_refl)) as [E|Hx2]; [congruence|].
      destruct (proj2 (Hin y) (or_introl eq_refl)) as [E|Hy1]; [congruence|].
      exfalso. pose proof (str_ltb_trans _ _ _ (Hx _ Hy1) (Hy _ Hx2)) as C.
      rewrite str_ltb_irrefl in C. discriminate. }
    f_equal. apply IH; [exact Hl2|].
    intros z; split; intros Hz.
    + destruct (proj1 (Hin z) (or_intror Hz)) as [E|Hz2]; [|exact Hz2].
      subst z. specialize (Hx _ Hz). unfold str_lt in Hx.
      rewrite str_ltb_irrefl in Hx. discriminate.
    + destruct (proj2 (Hin z) (or_intror Hz)) as [E|Hz1]; [|exact Hz1].
      subst z. specialize (Hy _ Hz). unfold str_lt in Hy.
      rewrite str_ltb_irrefl in Hy. discriminate.
Qed.

Lemma sorted_set_sorted l : StronglySorted str_lt (sorted (set l)).
Proof. apply sorted_sorted, NoDup_set. Qed.

Lemma In_sorted_set x l : In x (sorted (set l)) <-> In x l.
Proof. now rewrite In_sorted, In_set. Qed.

Lemma sorted_set_ext l l' :
  (forall x, In x l <-> In x l') -> sorted (set l) = sorted (set l').
Proof.
  intros H. apply sorted_unique; try apply sorted_set_sorted.
  intros x. now rewrite !In_sorted_set.
Qed.

Lemma fold_left_append {A} (f : A -> str) l acc :
  fold_left (fun dumped e => dumped ++ f e) l acc = acc ++ flat_map f l.
Proof.
  revert acc; induction l as [|x l IH]; intros acc; simpl.
  - now rewrite app_nil_r.
  - rewrite IH. now rewrite <- app_assoc.
Qed.

Lemma flat_map_shift_nl (f : str -> str) l :
  flat_map (fun e => nl ++ f e) l ++ nl = nl ++ flat_map (fun e => f e ++ nl) l.
Proof.
  induction l as [|x l IH]; simpl; [reflexivity|].
  rewrite <- !app_assoc. simpl. f_equal. f_equal.
  change (10 :: flat_map (fun e => f e ++ nl) l)
    with (nl ++ flat_map (fun e => f e ++ nl) l).
  rewrite <- IH. reflexivity.
Qed.

(** What one key adds to the text. *)
Lemma dump_item_eq dumped key value :
  dump_item dumped (key, value) =
    dumped ++ match value with
              | VStr s => string_line key s
              | VSeq l => array_section key (sorted (set l))
              end.
Proof.
  unfold dump_item, string_line, array_section. destruct value as [s|l].
  - now rewrite <- !app_assoc.
  - rewrite fold_left_append. unfold dump_entry.
    change (u " = [") with (u " = " ++ u "[").
    rewrite <- !app_assoc. do 4 f_equal.
    rewrite (app_assoc _ nl).
    rewrite (flat_map_shift_nl (fun e => u "    " ++ Json.dumps e ++ u ",")).
    rewrite <- app_assoc. do 2 f_equal.
    apply flat_map_ext. intros e. now rewrite <- !app_assoc.
Qed.

Lemma to_toml_eq config_dict :
  _to_toml config_dict =
    flat_map (fun item =>
                match snd item with
                | VStr s => string_line (fst item) s
                | VSeq l => array_section (fst item) (sorted (set l))
                end) config_dict.
Proof.
  unfold _to_toml.
  enough (forall acc, fold_left dump_item config_dict acc =
            acc ++ flat_map (fun item =>
                match snd item with
                | VStr s => string_line (fst item) s
                | VSeq l => array_section (fst item) (sorted (set l))
                end) config_dict) as H by apply (H []).
  induction config_dict as [|[key value] d IH]; intros acc;
    cbn [fold_left flat_map fst snd].
  - now rewrite app_nil_r.
  - rewrite IH, dump_item_eq. now rewrite <- app_assoc.
Qed.

End WriterFacts.

(** ** Paths and dictionaries *)

Section DictFacts.

Lemma parts_eqb_eq a b : parts_eqb a b = true <-> a = b.
Proof.
  revert b; induction a as [|x a IH]; intros [|y b]; simpl; split;
    try congruence; try reflexivity.
  - intros H. apply andb_true_iff in H as [H1 H2].
    apply str_eqb_eq in H1. apply IH in H2. congruence.
  - intros H. injection H as -> ->. rewrite str_eqb_refl. simpl. now apply IH.
Qed.

Lemma Path_eqb_eq p q : Path_eqb p q = true <-> p = q.
Proof.
  destruct p as [r1 t1], q as [r2 t2]. unfold Path_eqb; simpl.
  rewrite andb_true_iff, str_eqb_eq, parts_eqb_eq. split.
  - intros [-> ->]. reflexivity.
  - intros H. injection H as -> ->. auto.
Qed.

Lemma Path_eqb_refl p : Path_eqb p p = true.
Proof. now apply Path_eqb_eq. Qed.

Lemma Path_eqb_neq p q : Path_eqb p q = false <-> p <> q.
Proof.
  split.
  - intros H E. apply Path_eqb_eq in E. congruence.
  - intros H. destruct (Path_eqb p q) eqn:E; [|reflexivity].
    apply Path_eqb_eq in E. contradiction.
Qed.

Context {V : Type}.
Implicit Types (d : dict V) (k : Path) (v : V).

Lemma dict_set_present d k v :
  In k (keys d) -> keys (dict_set d k v) = keys d.
Proof.
  induction d as [|[k' v'] d IH]; simpl; [tauto|].
  intros H. destruct (Path_eqb k' k) eqn:E; simpl; [reflexivity|].
  f_equal. apply IH. destruct H as [H|H]; [|exact H].
  apply Path_eqb_neq in E. contradiction.
Qed.

Lemma dict_set_absent d k v :
  ~ In k (keys d) -> dict_set d k v = d ++ [(k, v)].
Proof.
  induction d as [|[k' v'] d IH]; simpl; [reflexivity|].
  intros H. destruct (Path_eqb k' k) eqn:E.
  - apply Path_eqb_eq in E. tauto.
  - f_equal. apply IH. tauto.
Qed.

Lemma In_keys_dict_set d k v p :
  In p (keys (dict_set d k v)) <-> p = k \/ In p (keys d).
Proof.
  induction d as [|[k' v'] d IH]; simpl.
  - intuition congruence.
  - destruct (Path_eqb k' k) eqn:E; simpl.
    + apply Path_eqb_eq in E. subst. intuition congruence.
    + rewrite IH. intuition congruence.
Qed.

Lemma NoDup_keys_dict_set d k v :
  NoDup (keys d) -> NoDup (keys (dict_set d k v)).
Proof.
  induction d as [|[k' v'] d IH]; simpl; intros H.
  - repeat constructor. tauto.
  - inversion H as [|? ? Hk Hd]; subst.
    destruct (Path_eqb k' k) eqn:E; simpl.
    + constructor; assumption.
    + constructor; [|now apply IH].
      rewrite In_keys_dict_set. intros [->|C]; [|contradiction].
      rewrite Path_eqb_refl in E. discriminate.
Qed.

Lemma dict_get_dict_set d k v : dict_get (dict_set d k v) k = Some v.
Proof.
  induction d as [|[k' v'] d IH]; simpl.
  - now rewrite Path_eqb_refl.
  - destruct (Path_eqb k' k) eqn:E; simpl; rewrite E; auto.
Qed.

Lemma dict_get_dict_set_other d k v p :
  p <> k -> dict_get (dict_set d k v) p = dict_get d p.
Proof.
  intros Hp. induction d as [|[k' v'] d IH]; simpl.
  - destruct (Path_eqb k p) eqn:E; [|reflexivity].
    apply Path_eqb_eq in E. congruence.
  - destruct (Path_eqb k' k) eqn:E; simpl.
    + apply Path_eqb_eq in E. subst k'.
      destruct (Path_eqb k p) eqn:E'; [|reflexivity].
      apply Path_eqb_eq in E'. congruence.
    + destruct (Path_eqb k' p); auto.
Qed.

Lemma dict_get_In d k : In k (keys d) <-> exists v, dict_get d k = Some v.
Proof.
  induction d as [|[k' v'] d IH]; simpl.
  - split; [tauto|intros [v H]; discriminate].
  - destruct (Path_eqb k' k) eqn:E.
    + apply Path_eqb_eq in E. split; eauto.
    + rewrite <- IH. apply Path_eqb_neq in E. tauto.
Qed.

(** Assigning again what is already there changes nothing. *)
Lemma dict_set_same d k v : dict_get d k = Some v -> dict_set d k v = d.
Proof.
  induction d as [|[k' v'] d IH]; simpl; [discriminate|].
  destruct (Path_eqb k' k) eqn:E.
  - intros H. injection H as ->. reflexivity.
  - intros H. f_equal. auto.
Qed.

Lemma dict_set_twice d k v : dict_set (dict_set d k v) k v = dict_set d k v.
Proof. apply dict_set_same, dict_get_dict_set. Qed.

(** The first item keeps its place and its key. *)
Lemma dict_set_head d k v k0 v0 :
  hd_error d = Some (k0, v0) ->
  hd_error (dict_set d k v) = Some (k0, if Path_eqb k0 k then v else v0).
Proof.
  destruct d as [|[k' v'] d]; simpl; [discriminate|].
  intros H. injection H as -> ->.
  destruct (Path_eqb k0 k); reflexivity.
Qed.

(** An assignment touches the item of its key only. *)
Lemma dict_set_nth d k v i q x :
  nth_error d i = Some (q, x) ->
  NoDup (keys d) ->
  nth_error (dict_set d k v) i = Some (q, if Path_eqb q k then v else x).
Proof.
  revert i; induction d as [|[k' v'] d IH]; intros i Hi Hd.
  - destruct i; discriminate.
  - simpl in Hd. inversion Hd as [|? ? Hk Hd']; subst. simpl.
    destruct i as [|i]; simpl in Hi.
    + injection Hi as -> ->. destruct (Path_eqb q k); reflexivity.
    + destruct (Path_eqb k' k) eqn:E; simpl.
      * rewrite Hi. apply Path_eqb_eq in E. subst k'.
        destruct (Path_eqb q k) eqn:E'; [|reflexivity].
        apply Path_eqb_eq in E'. subst q. exfalso. apply Hk.
        apply nth_error_In in Hi. apply (in_map fst) in Hi. exact Hi.
      * now apply IH.
Qed.

Lemma count_key_unique d k :
  NoDup (keys d) -> In k (keys d) -> count_key d k = 1%nat.
Proof.
  unfold count_key. induction (keys d) as [|k' l IH]; simpl; [tauto|].
  intros Hd Hin. inversion Hd as [|? ? Hk Hl]; subst.
  destruct (Path_eqb k k') eqn:E.
  - apply Path_eqb_eq in E. subst k'. simpl. f_equal.
    apply length_zero_iff_nil.
    destruct (filter (Path_eqb k) l) as [|z l'] eqn:F; [reflexivity|].
    exfalso. assert (In z (filter (Path_eqb k) l)) as Hz by (rewrite F; now left).
    apply filter_In in Hz as [Hz1 Hz2]. apply Path_eqb_eq in Hz2. congruence.
  - apply IH; [exact Hl|]. destruct Hin as [->|H]; [|exact H].
    rewrite Path_eqb_refl in E. discriminate.
Qed.

End DictFacts.

(** ** The operations of the store *)

Section StoreFacts.
Context {W : World}.

Lemma register_enderchest_run p h :
  register_enderchest p h =
    match load_chest p with
    | Return chest => (with_chest h p chest, Return tt)
    | Raise e => (h, Raise e)
    end.
Proof.
  unfold register_enderchest, load_chest, bind, call, get_self, set_self.
  destruct (expanduser p); [|reflexivity].
  destruct (ender_chest_config a); [|reflexivity].
  destruct (EnderChest_from_cfg a0); reflexivity.
Qed.

Lemma register_save_run p h :
  register_save p h =
    match load_save p with
    | Return save => (with_save h (root save) save, Return tt)
    | Raise e => (h, Raise e)
    end.
Proof.
  unfold register_save, load_save, bind, call, get_self, set_self.
  destruct (expanduser p); [|reflexivity].
  destruct (GSB_Manifest_of (parent a)); reflexivity.
Qed.

Lemma load_chest_entry_run c h :
  load_chest_entry c h =
    match load_chest (Path_of c) with
    | Return chest => (with_chest h (Path_of c) chest, Return tt)
    | Raise e =>
        if is_ValueError_or_OSError e
        then (with_log h (chest_failure c e), Return tt)
        else (h, Raise e)
    end.
Proof.
  unfold load_chest_entry, try_except. rewrite register_enderchest_run.
  destruct (load_chest (Path_of c)); reflexivity.
Qed.

Lemma load_save_entry_run s h :
  load_save_entry s h =
    match load_save (Path_of s) with
    | Return save => (with_save h (root save) save, Return tt)
    | Raise e =>
        if is_ValueError_or_OSError e
        then (with_log h (save_failure s e), Return tt)
        else (h, Raise e)
    end.
Proof.
  unfold load_save_entry, try_except. rewrite register_save_run.
  destruct (load_save (Path_of s)); reflexivity.
Qed.

(** [Config()]: a fresh object, and the chest of [$MINECRAFT_ROOT] when
    there is one. *)
Lemma init_run h :
  __init__ h =
    let h0 := with_self h {| _ender_chests := []; _saves := [] |} in
    match getenv (u "MINECRAFT_ROOT") with
    | Some (c :: s) =>
        match load_chest (Path_of (c :: s)) with
        | Return chest => (with_chest h0 (Path_of (c :: s)) chest, Return tt)
        | Raise e =>
            if is_ValueError_or_OSError e
            then (with_log h0
                    (ERROR (u "Failed to load chest from $MINECRAFT_ROOT: %s"
                              ++ nl ++ u "%s")
                           [ArgStr (c :: s); ArgExn e]), Return tt)
            else (h0, Raise e)
        end
    | _ => (h0, Return tt)
    end.
Proof.
  unfold __init__, bind, set_self, try_except. cbv zeta.
  fold (with_self h {| _ender_chests := []; _saves := [] |}).
  destruct (getenv (u "MINECRAFT_ROOT")) as [[|c s]|]; try reflexivity.
  rewrite register_enderchest_run.
  destruct (load_chest (Path_of (c :: s))); reflexivity.
Qed.

End StoreFacts.

(** ** The loops of [from_config] *)

Section LoopFacts.
Context {W : World}.

Lemma replay_chest_eq d c :
  replay_chest d c =
    match load_chest (Path_of c) with
    | Return chest => dict_set d (Path_of c) chest
    | Raise _ => d
    end.
Proof. reflexivity. Qed.

Lemma replay_save_eq d s :
  replay_save d s =
    match load_save (Path_of s) with
    | Return save => dict_set d (root save) save
    | Raise _ => d
    end.
Proof. reflexivity. Qed.

Lemma chest_loop_run cs h :
  failures_caught load_chest cs ->
  for_each cs load_chest_entry h =
    ({| self := {| _ender_chests := replay_chests cs (_ender_chests (self h));
                   _saves := _saves (self h) |};
        LOGGER := LOGGER h ++ chest_failures cs;
        files := files h |}, Return tt).
Proof.
  revert h; induction cs as [|c cs IH]; intros h Hc.
  - destruct h as [[ch sv] lg fs]. simpl. unfold ret.
    now rewrite app_nil_r.
  - cbn [for_each]. unfold bind at 1. rewrite load_chest_entry_run.
    assert (Hcs : failures_caught load_chest cs).
    { intros x e Hx. apply Hc. now right. }
    unfold replay_chests, chest_failures. cbn [fold_left flat_map].
    rewrite replay_chest_eq.
    destruct (load_chest (Path_of c)) as [chest|e] eqn:E.
    + rewrite IH by exact Hcs. reflexivity.
    + rewrite (Hc c e (or_introl eq_refl) E).
      rewrite IH by exact Hcs. cbn [with_log LOGGER self files].
      now rewrite <- app_assoc.
Qed.

Lemma save_loop_run ss h :
  failures_caught load_save ss ->
  for_each ss load_save_entry h =
    ({| self := {| _ender_chests := _ender_chests (self h);
                   _saves := replay_saves ss (_saves (self h)) |};
        LOGGER := LOGGER h ++ save_failures ss;
        files := files h |}, Return tt).
Proof.
  revert h; induction ss as [|s ss IH]; intros h Hs.
  - destruct h as [[ch sv] lg fs]. simpl. unfold ret.
    now rewrite app_nil_r.
  - cbn [for_each]. unfold bind at 1. rewrite load_save_entry_run.
    assert (Hss : failures_caught load_save ss).
    { intros x e Hx. apply Hs. now right. }
    unfold replay_saves, save_failures. cbn [fold_left flat_map].
    rewrite replay_save_eq.
    destruct (load_save (Path_of s)) as [save|e] eqn:E.
    + rewrite IH by exact Hss. reflexivity.
    + rewrite (Hs s e (or_introl eq_refl) E).
      rewrite IH by exact Hss. cbn [with_log LOGGER self files].
      now rewrite <- app_assoc.
Qed.

(** A loop over two lists in a row stops in the first one if it raises
    there. *)
Lemma for_each_app {A} (l1 l2 : list A) body h :
  for_each (l1 ++ l2) body h =
    match for_each l1 body h with
    | (h1, Return _) => for_each l2 body h1
    | (h1, Raise e) => (h1, Raise e)
    end.
Proof.
  revert h; induction l1 as [|x l1 IH]; intros h; [reflexivity|].
  cbn [app for_each]. unfold bind.
  destruct (body x h) as [h1 [[]|e]]; [apply IH|reflexivity].
Qed.

(** *** What the replayed dictionaries hold *)

Ltac found x y := right; exists x, y; repeat split; simpl; auto; congruence.

Lemma In_keys_replay_chests cs d p :
  In p (keys (replay_chests cs d)) <->
  In p (keys d) \/
  exists c chest, In c cs /\ Path_of c = p /\ load_chest p = Return chest.
Proof.
  unfold replay_chests. revert d; induction cs as [|c cs IH]; intros d;
    cbn [fold_left].
  - split; [auto|]. intros [H|(c & chest & [] & _)]. exact H.
  - rewrite IH. rewrite replay_chest_eq.
    destruct (load_chest (Path_of c)) as [chest|e] eqn:E.
    + rewrite In_keys_dict_set. split.
      * intros [[->|H]|(c' & ch & Hc & Hp & Hl)]; auto.
        -- found c chest.
        -- found c' ch.
      * intros [H|(c' & ch & [->|Hc] & Hp & Hl)]; auto.
        found c' ch.
    + split.
      * intros [H|(c' & ch & Hc & Hp & Hl)]; auto.
        found c' ch.
      * intros [H|(c' & ch & [->|Hc] & Hp & Hl)]; auto.
        -- congruence.
        -- found c' ch.
Qed.


(** An entry that holds what its key loads to is not changed by a replay. *)
Lemma replay_chest_keeps d c p v :
  dict_get d p = Some v -> load_chest p = Return v ->
  dict_get (replay_chest d c) p = Some v.
Proof.
  intros Hd Hl. unfold replay_chest.
  destruct (load_chest (Path_of c)) as [chest|e] eqn:E; [|exact Hd].
  destruct (Path_eqb (Path_of c) p) eqn:Ep.
  - apply Path_eqb_eq in Ep. subst p.
    rewrite dict_get_dict_set. congruence.
  - apply Path_eqb_neq in Ep. rewrite dict_get_dict_set_other; auto.
Qed.

Lemma replay_chests_keeps cs d p v :
  dict_get d p = Some v -> load_chest p = Return v ->
  dict_get (replay_chests cs d) p = Some v.
Proof.
  unfold replay_chests. revert d; induction cs as [|c cs IH]; intros d Hd Hl;
    cbn [fold_left]; [exact Hd|].
  apply IH; [|exact Hl]. now apply replay_chest_keeps.
Qed.

Lemma replay_chests_registers cs d c chest :
  In c cs -> load_chest (Path_of c) = Return chest ->
  dict_get (replay_chests cs d) (Path_of c) = Some chest.
Proof.
  unfold replay_chests. revert d; induction cs as [|c' cs IH]; intros d Hc Hl;
    cbn [fold_left]; [destruct Hc|].
  destruct Hc as [->|Hc]; [|now apply IH].
  apply replay_chests_keeps; [|exact Hl].
  unfold replay_chest. rewrite Hl. apply dict_get_dict_set.
Qed.

Lemma replay_chests_head cs d k v :
  hd_error d = Some (k, v) -> load_chest k = Return v ->
  hd_error (replay_chests cs d) = Some (k, v).
Proof.
  unfold replay_chests. revert d; induction cs as [|c cs IH]; intros d Hd Hl;
    cbn [fold_left]; [exact Hd|].
  apply IH; [|exact Hl]. unfold replay_chest.
  destruct (load_chest (Path_of c)) as [chest|e] eqn:E; [|exact Hd].
  rewrite (dict_set_head _ _ _ _ _ Hd).
  destruct (Path_eqb k (Path_of c)) eqn:Ek; [|reflexivity].
  apply Path_eqb_eq in Ek. subst k. congruence.
Qed.

Lemma mem_path_In p l : mem_path p l = true <-> In p l.
Proof.
  unfold mem_path. rewrite existsb_exists. split.
  - intros (q & Hq & E). apply Path_eqb_eq in E. now subst.
  - intros H. exists p. split; [exact H|apply Path_eqb_refl].
Qed.

(** The keys after a replay: those held before, then the listed paths
    that load and were not held, in the order of the list. *)
Lemma keys_replay_chests cs d :
  keys (replay_chests cs d) = keys d ++ added_chest_keys cs (keys d).
Proof.
  unfold replay_chests. revert d; induction cs as [|c cs IH]; intros d;
    cbn [fold_left added_chest_keys]; [now rewrite app_nil_r|].
  rewrite IH, replay_chest_eq.
  destruct (load_chest (Path_of c)) as [chest|e]; [|reflexivity].
  destruct (mem_path (Path_of c) (keys d)) eqn:E.
  - apply mem_path_In in E. now rewrite (dict_set_present _ _ _ E).
  - assert (Hn : ~ In (Path_of c) (keys d)).
    { intros H. apply mem_path_In in H. congruence. }
    rewrite (dict_set_absent _ _ _ Hn). unfold keys. rewrite map_app.
    cbn [map fst]. now rewrite <- app_assoc.
Qed.

Lemma NoDup_replay_chests cs d :
  NoDup (keys d) -> NoDup (keys (replay_chests cs d)).
Proof.
  unfold replay_chests. revert d; induction cs as [|c cs IH]; intros d Hd;
    cbn [fold_left]; [exact Hd|].
  apply IH. unfold replay_chest.
  destruct (load_chest (Path_of c)); [now apply NoDup_keys_dict_set|exact Hd].
Qed.

Lemma NoDup_replay_saves ss d :
  NoDup (keys d) -> NoDup (keys (replay_saves ss d)).
Proof.
  unfold replay_saves. revert d; induction ss as [|s ss IH]; intros d Hd;
    cbn [fold_left]; [exact Hd|].
  apply IH. unfold replay_save.
  destruct (load_save (Path_of s)); [now apply NoDup_keys_dict_set|exact Hd].
Qed.



(** *** Properties kept by the operations *)

Lemma preserves_ret {A} I (a : A) : preserves I (ret a).
Proof. intros h H. exact H. Qed.

Lemma preserves_call {A} I (r : outcome A) : preserves I (call r).
Proof. intros h H. exact H. Qed.

Lemma preserves_bind {A B} I (c : M A) (k : A -> M B) :
  preserves I c -> (forall a, preserves I (k a)) -> preserves I (bind c k).
Proof.
  intros Hc Hk h H. unfold bind. specialize (Hc h H).
  destruct (c h) as [h' [a|e]]; simpl in *; [now apply Hk|exact Hc].
Qed.

Lemma preserves_try {A} I (c : M A) handler :
  preserves I c -> (forall e, preserves I (handler e)) ->
  preserves I (try_except c handler).
Proof.
  intros Hc Hh h H. unfold try_except. specialize (Hc h H).
  destruct (c h) as [h' [a|e]]; simpl in *; [exact Hc|].
  destruct (is_ValueError_or_OSError e); [now apply Hh|exact Hc].
Qed.

Lemma preserves_for_each {A} I (l : list A) body :
  (forall x, preserves I (body x)) -> preserves I (for_each l body).
Proof.
  intros Hb. induction l as [|x l IH]; cbn [for_each].
  - apply preserves_ret.
  - apply preserves_bind; auto.
Qed.

Lemma read_text_heap f h : fst (read_text f h) = h.
Proof.
  unfold read_text. destruct (read_error f); [reflexivity|].
  destruct (dict_get (files h) f); reflexivity.
Qed.

Lemma preserves_read_text I f : preserves I (read_text f).
Proof. intros h H. now rewrite read_text_heap. Qed.

End LoopFacts.

(** ** Loading a configuration file *)

Section LoadFacts.
Context {W : World}.

Lemma from_config_run f h text d cv sv :
  snd (read_text f h) = Return text ->
  tomllib_loads text = Return d ->
  snd (__init__ h) = Return tt ->
  getitem d (u "ender_chests") = Return cv ->
  getitem d (u "saves") = Return sv ->
  failures_caught load_chest (iter cv) ->
  failures_caught load_save (iter sv) ->
  from_config f h =
    (let h0 := fst (__init__ h) in
     {| self := {| _ender_chests :=
                     replay_chests (iter cv) (_ender_chests (self h0));
                   _saves := replay_saves (iter sv) (_saves (self h0)) |};
        LOGGER := (LOGGER h0 ++ chest_failures (iter cv))
                    ++ save_failures (iter sv);
        files := files h0 |}, Return tt).
Proof.
  intros Hr Hl Hi Hc Hs Fc Fs. unfold from_config, bind, call.
  pose proof (read_text_heap f h) as Hh.
  destruct (read_text f h) as [h' o]. simpl in Hr, Hh. subst h' o.
  rewrite Hl. destruct (__init__ h) as [h0 o0]. simpl in Hi. subst o0.
  rewrite Hc, (chest_loop_run _ _ Fc), Hs, (save_loop_run _ _ Fs).
  reflexivity.
Qed.





End LoadFacts.

(** ** Registration *)

Section RegistrationFacts.
Context {W : World}.

Lemma keys_unique_with_chest h k v :
  keys_unique h -> keys_unique (with_chest h k v).
Proof.
  intros [Hc Hs]. split; [|exact Hs]. now apply NoDup_keys_dict_set.
Qed.

Lemma keys_unique_with_save h k v :
  keys_unique h -> keys_unique (with_save h k v).
Proof.
  intros [Hc Hs]. split; [exact Hc|]. now apply NoDup_keys_dict_set.
Qed.

Lemma preserves_register_enderchest p :
  preserves keys_unique (register_enderchest p).
Proof.
  intros h H. rewrite register_enderchest_run.
  destruct (load_chest p); [now apply keys_unique_with_chest|exact H].
Qed.

Lemma preserves_register_save p : preserves keys_unique (register_save p).
Proof.
  intros h H. rewrite register_save_run.
  destruct (load_save p); [now apply keys_unique_with_save|exact H].
Qed.

Lemma preserves_LOGGER_error fmt args :
  preserves keys_unique (LOGGER_error fmt args).
Proof. intros h H. exact H. Qed.

Lemma init_keys_unique h : keys_unique (fst (__init__ h)).
Proof.
  assert (H0 : keys_unique (with_self h {| _ender_chests := []; _saves := [] |}))
    by (split; constructor).
  rewrite init_run. cbv zeta.
  destruct (getenv (u "MINECRAFT_ROOT")) as [[|c s]|]; try exact H0.
  destruct (load_chest (Path_of (c :: s))).
  - now apply keys_unique_with_chest.
  - destruct (is_ValueError_or_OSError e); exact H0.
Qed.

Lemma preserves_from_config f : preserves keys_unique (from_config f).
Proof.
  unfold from_config.
  apply preserves_bind; [apply preserves_read_text|intros text].
  apply preserves_bind; [apply preserves_call|intros d].
  apply preserves_bind; [intros h _; apply init_keys_unique|intros _].
  apply preserves_bind; [apply preserves_call|intros cv].
  apply preserves_bind.
  { apply preserves_for_each. intros c. apply preserves_try.
    - apply preserves_register_enderchest.
    - intros e. apply preserves_LOGGER_error. }
  intros _.
  apply preserves_bind; [apply preserves_call|intros sv].
  apply preserves_bind; [|intros _; apply preserves_ret].
  apply preserves_for_each. intros s. apply preserves_try.
  - apply preserves_register_save.
  - intros e. apply preserves_LOGGER_error.
Qed.

Lemma preserves_write f : preserves keys_unique (write f).
Proof.
  unfold write. intros h H. unfold bind, get_self.
  destruct f as [f|]; [|exact H].
  unfold write_text, ret. destruct (write_error f); exact H.
Qed.

(** C4, as the code has it: no operation of the store makes two entries
    share a key.  The key of a chest is the path given to
    [register_enderchest], as given (not expanded); the key of a save is
    the root of the manifest the resolver returned. *)
Theorem store_keys_stay_unique h :
  keys_unique h ->
  (forall p, keys_unique (fst (register_enderchest p h)))
  /\ (forall p, keys_unique (fst (register_save p h)))
  /\ keys_unique (fst (__init__ h))
  /\ (forall f, keys_unique (fst (from_config f h)))
  /\ (forall f, keys_unique (fst (write f h)))
  /\ (forall p,
        snd (register_enderchest p h) = Return tt ->
        forall q, In q (chest_keys (fst (register_enderchest p h)))
                  <-> q = p \/ In q (chest_keys h))
  /\ (forall p,
        snd (register_save p h) = Return tt ->
        exists save,
          load_save p = Return save
          /\ forall q, In q (save_keys (fst (register_save p h)))
                       <-> q = root save \/ In q (save_keys h)).
Proof.
  intros H.
  split; [intros p; now apply preserves_register_enderchest|].
  split; [intros p; now apply preserves_register_save|].
  split; [apply init_keys_unique|].
  split; [intros f; now apply preserves_from_config|].
  split; [intros f; now apply preserves_write|].
  split.
  - intros p. rewrite register_enderchest_run.
    destruct (load_chest p); [|discriminate]. intros _ q.
    apply In_keys_dict_set.
  - intros p. rewrite register_save_run.
    destruct (load_save p) as [save|]; [|discriminate]. intros _.
    exists save. split; [reflexivity|]. intros q. apply In_keys_dict_set.
Qed.

(** C6: a path whose chest loads registers; registering it again leaves the
    state as the first registration made it; the store then holds one entry
    under the path.  A path already registered keeps its place in the
    listing, only its descriptor being replaced; a new path goes to the end. *)
Theorem register_chest_twice h p chest :
  load_chest p = Return chest ->
  NoDup (chest_keys h) ->
  let h1 := fst (register_enderchest p h) in
  let h2 := fst (register_enderchest p h1) in
  snd (register_enderchest p h) = Return tt
  /\ snd (register_enderchest p h1) = Return tt
  /\ h2 = h1
  /\ count_key (_ender_chests (self h2)) p = 1%nat
  /\ List.length (ender_chests (self h2)) = List.length (ender_chests (self h1))
  /\ (In p (chest_keys h) ->
      chest_keys h1 = chest_keys h
      /\ forall i q old,
           nth_error (_ender_chests (self h)) i = Some (q, old) ->
           nth_error (ender_chests (self h1)) i =
             Some (if Path_eqb q p then chest else old))
  /\ (~ In p (chest_keys h) ->
      _ender_chests (self h1) = _ender_chests (self h) ++ [(p, chest)]
      /\ ender_chests (self h1) = ender_chests (self h) ++ [chest]).
Proof.
  intros Hl Hd h1 h2. subst h2 h1.
  repeat first [rewrite register_enderchest_run | rewrite Hl
               | progress cbn [fst snd]].
  assert (E : with_chest (with_chest h p chest) p chest = with_chest h p chest).
  { unfold with_chest. cbn [self _ender_chests _saves LOGGER files].
    now rewrite dict_set_twice. }
  rewrite E.
  split; [reflexivity|]. split; [reflexivity|]. split; [reflexivity|].
  split; [|split; [reflexivity|split]].
  - apply count_key_unique.
    + now apply NoDup_keys_dict_set.
    + apply In_keys_dict_set. now left.
  - intros Hin. split.
    + now apply dict_set_present.
    + intros i q old Hi. unfold ender_chests, values.
      cbn [with_chest self _ender_chests].
      rewrite nth_error_map, (dict_set_nth _ p chest _ _ _ Hi Hd).
      reflexivity.
  - intros Hn. unfold ender_chests, values.
    cbn [with_chest self _ender_chests].
    rewrite (dict_set_absent _ _ _ Hn). split; [reflexivity|].
    now rewrite map_app.
Qed.

(** C7: two manifest paths that the resolver sends to manifests of one root
    leave, after both registrations, one entry under that root, holding the
    manifest of the second; the keys are that root and those held before,
    so neither input path becomes a key. *)
Theorem saves_collapse_on_root h m1 m2 s1 s2 :
  load_save m1 = Return s1 ->
  load_save m2 = Return s2 ->
  root s1 = root s2 ->
  NoDup (save_keys h) ->
  let h1 := fst (register_save m1 h) in
  let h2 := fst (register_save m2 h1) in
  snd (register_save m1 h) = Return tt
  /\ snd (register_save m2 h1) = Return tt
  /\ count_key (_saves (self h2)) (root s1) = 1%nat
  /\ dict_get (_saves (self h2)) (root s1) = Some s2
  /\ save_keys h2 = save_keys h1
  /\ (forall q, In q (save_keys h2) <-> q = root s1 \/ In q (save_keys h))
  /\ (_saves (self h) = [] -> _saves (self h2) = [(root s1, s2)]).
Proof.
  intros L1 L2 Hr Hd h1 h2. subst h2 h1.
  repeat first [rewrite register_save_run | rewrite L1 | rewrite L2
               | progress cbn [fst snd]].
  unfold save_keys. cbn [with_save self _saves]. rewrite <- Hr.
  split; [reflexivity|]. split; [reflexivity|].
  assert (Hin : In (root s1) (keys (dict_set (_saves (self h)) (root s1) s1)))
    by (apply In_keys_dict_set; now left).
  split; [|split; [|split; [|split]]].
  - apply count_key_unique.
    + now do 2 apply NoDup_keys_dict_set.
    + apply In_keys_dict_set. now left.
  - apply dict_get_dict_set.
  - now apply dict_set_present.
  - intros q. rewrite !In_keys_dict_set. tauto.
  - intros ->. simpl. rewrite Path_eqb_refl. reflexivity.
Qed.

End RegistrationFacts.

(** ** The constructor in [from_config], and errors of the whole document *)

Section DocumentFacts.
Context {W : World}.

Lemma init_with_env h value chest :
  getenv (u "MINECRAFT_ROOT") = Some value -> value <> [] ->
  load_chest (Path_of value) = Return chest ->
  __init__ h =
    (with_chest (with_self h {| _ender_chests := []; _saves := [] |})
                (Path_of value) chest, Return tt).
Proof.
  intros He Hv Hl. rewrite init_run, He. cbv zeta.
  destruct value as [|c s]; [contradiction|]. now rewrite Hl.
Qed.


(** C9: with [$MINECRAFT_ROOT] set to a root whose chest loads, the store
    that [from_config] returns has that chest as its first entry, whatever
    the file lists, and after it the chests of the listed paths that load,
    each where the file first lists it; when the file lists no chest it is
    the only one.  A chest of the environment that the file does not list
    is in the store all the same: the file alone does not determine the
    store. *)
Theorem load_keeps_env_chest_first f h text d cv sv value chest :
  getenv (u "MINECRAFT_ROOT") = Some value ->
  value <> [] ->
  load_chest (Path_of value) = Return chest ->
  snd (read_text f h) = Return text ->
  tomllib_loads text = Return d ->
  getitem d (u "ender_chests") = Return cv ->
  getitem d (u "saves") = Return sv ->
  failures_caught load_chest (iter cv) ->
  failures_caught load_save (iter sv) ->
  let h' := fst (from_config f h) in
  snd (from_config f h) = Return tt
  /\ hd_error (_ender_chests (self h')) = Some (Path_of value, chest)
  /\ hd_error (ender_chests (self h')) = Some chest
  /\ In (Path_of value) (chest_keys h')
  /\ (iter cv = [] -> _ender_chests (self h') = [(Path_of value, chest)])
  /\ (forall c v,
        In c (iter cv) -> load_chest (Path_of c) = Return v ->
        dict_get (_ender_chests (self h')) (Path_of c) = Some v)
  /\ chest_keys h'
     = Path_of value :: added_chest_keys (iter cv) [Path_of value]
  /\ (forall p,
        In p (chest_keys h') <->
        p = Path_of value
        \/ exists c v, In c (iter cv) /\ Path_of c = p
                       /\ load_chest p = Return v)
  /\ (~ In (Path_of value) (map Path_of (iter cv)) ->
      ~ (forall p, In p (chest_keys h') -> In p (map Path_of (iter cv)))).
Proof.
  intros He Hv Hc Hr Hl Hcv Hsv Fc Fs h'. subst h'.
  pose proof (init_with_env h _ _ He Hv Hc) as Hi.
  assert (Hi' : snd (__init__ h) = Return tt) by now rewrite Hi.
  rewrite (from_config_run _ _ _ _ _ _ Hr Hl Hi' Hcv Hsv Fc Fs).
  rewrite Hi. cbv zeta. unfold chest_keys.
  cbn [fst snd self _ender_chests _saves with_chest with_self dict_set].
  assert (Hh : hd_error (replay_chests (iter cv) [(Path_of value, chest)])
               = Some (Path_of value, chest))
    by now apply replay_chests_head.
  assert (Hk : keys (replay_chests (iter cv) [(Path_of value, chest)])
               = Path_of value
                   :: added_chest_keys (iter cv) [Path_of value])
    by exact (keys_replay_chests (iter cv) [(Path_of value, chest)]).
  assert (Hin : forall p,
             In p (keys (replay_chests (iter cv) [(Path_of value, chest)])) <->
             p = Path_of value
             \/ exists c v, In c (iter cv) /\ Path_of c = p
                            /\ load_chest p = Return v).
  { intros p. rewrite In_keys_replay_chests. cbn [keys map fst In].
    intuition congruence. }
  split; [reflexivity|]. split; [exact Hh|].
  split; [|split; [|split; [|split; [|split; [|split]]]]].
  - unfold ender_chests, values. cbn [self _ender_chests].
    destruct (replay_chests (iter cv) [(Path_of value, chest)]) as [|x l];
      [discriminate|]. simpl in *. now injection Hh as ->.
  - rewrite Hk. now left.
  - intros ->. reflexivity.
  - intros c v Hc' Hl'. now apply replay_chests_registers.
  - exact Hk.
  - exact Hin.
  - intros Hn Hall. apply Hn, Hall, Hin. now left.
Qed.


(** ** What [write] emits *)

Lemma write_text_of h :
  snd (write None h) =
    Return (string_line (u "generated_by_enderchest_gui") version
            ++ string_line (u "last_modified") now_isoformat
            ++ array_section (u "ender_chests")
                 (sorted (set (map str_of (chest_keys h))))
            ++ array_section (u "saves")
                 (sorted (set (map str_of (save_keys h))))).
Proof.
  unfold write, bind, get_self, ret. cbn [snd]. f_equal.
  rewrite to_toml_eq. unfold as_dict_of.
  cbn [flat_map fst snd]. now rewrite app_nil_r.
Qed.

(** C5: [write] renders the version and the time, then the chests and the
    saves, each as an array in the prescribed layout whose elements are
    strictly increasing (hence without duplicates) and are the strings of
    the registered paths; stores holding the same paths in another order
    of insertion are rendered alike; chests "/b" then "/a" give the array
    section of the example. *)
Theorem write_emits_sorted_arrays h :
  let chests := sorted (set (map str_of (chest_keys h))) in
  let saves_ := sorted (set (map str_of (save_keys h))) in
  snd (write None h) =
    Return (string_line (u "generated_by_enderchest_gui") version
            ++ string_line (u "last_modified") now_isoformat
            ++ array_section (u "ender_chests") chests
            ++ array_section (u "saves") saves_)
  /\ StronglySorted str_lt chests /\ NoDup chests
  /\ StronglySorted str_lt saves_ /\ NoDup saves_
  /\ (forall x, In x chests <-> In x (map str_of (chest_keys h)))
  /\ (forall x, In x saves_ <-> In x (map str_of (save_keys h)))
  /\ (forall h',
        Permutation (chest_keys h) (chest_keys h') ->
        Permutation (save_keys h) (save_keys h') ->
        snd (write None h') = snd (write None h))
  /\ _to_toml [(u "ender_chests", VSeq (map str_of [P "/b"; P "/a"]))]
     = u "ender_chests = [" ++ nl
         ++ u "    " ++ [quote] ++ u "/a" ++ [quote] ++ u "," ++ nl
         ++ u "    " ++ [quote] ++ u "/b" ++ [quote] ++ u "," ++ nl
         ++ u "]" ++ nl.
Proof.
  cbv zeta.
  split; [apply write_text_of|].
  split; [apply sorted_set_sorted|].
  split; [apply sorted_NoDup, sorted_set_sorted|].
  split; [apply sorted_set_sorted|].
  split; [apply sorted_NoDup, sorted_set_sorted|].
  split; [intros x; apply In_sorted_set|].
  split; [intros x; apply In_sorted_set|].
  split; [|reflexivity].
  intros h' Pc Ps. rewrite !write_text_of.
  assert (Ec : sorted (set (map str_of (chest_keys h')))
               = sorted (set (map str_of (chest_keys h)))).
  { apply sorted_set_ext. intros x. split; apply Permutation_in;
      [apply Permutation_sym|]; now apply Permutation_map. }
  assert (Es : sorted (set (map str_of (save_keys h')))
               = sorted (set (map str_of (save_keys h)))).
  { apply sorted_set_ext. intros x. split; apply Permutation_in;
      [apply Permutation_sym|]; now apply Permutation_map. }
  now rewrite Ec, Es.
Qed.

End DocumentFacts.

(** C8, as the code has it: for a string in which no high surrogate is
    immediately followed by a low one (so for every string of Unicode
    scalar values), whatever quotes, backslashes and control characters it
    holds, the quoted form the writer emits for it, as a field and as an
    array element, unescapes to the string itself. *)
Theorem json_escape_roundtrip (s : str) :
  Json.code_points s ->
  Json.no_split_pair s = true ->
  Json.unescape (Json.dumps s) = Some s
  /\ (forall key, _to_toml [(key, VStr s)] = key ++ u " = " ++ Json.dumps s ++ nl)
  /\ dump_entry s = nl ++ u "    " ++ Json.dumps s ++ u ",".
Proof.
  intros Hs Hn. split; [now apply JsonFacts.unescape_dumps|]. split.
  - intros key. unfold _to_toml. cbn [fold_left dump_item].
    now rewrite app_nil_l, <- !app_assoc.
  - reflexivity.
Qed.

(** ** The properties on concrete stores *)

Section Examples.

(** Every failure among the given entries is a [FileNotFoundError]. *)
Ltac caught :=
  intros entry e Hin Hload; simpl in Hin;
  repeat (destruct Hin as [<-|Hin]; [vm_compute in Hload|]);
  try contradiction;
  first [discriminate Hload | injection Hload as <-; reflexivity].



(** Registering a chest in an empty store keeps the keys distinct. *)
Lemma store_keys_stay_unique_witness :
  let W := home_world in
  keys_unique (fst (register_enderchest (P "/a") blank))
  /\ keys_unique (fst (register_save (P "/saves/world/.gsb_manifest") blank)).
Proof.
  intros W.
  assert (H : keys_unique blank) by (split; constructor).
  destruct (@store_keys_stay_unique W blank H) as (T1 & T2 & _).
  split; [apply T1|apply T2].
Defined.

(** C4 as stated fails: the spelling with a tilde and the expanded
    spelling of one directory are two keys, so the store holds two entries
    for it. *)
Lemma tilde_spelling_is_a_second_entry :
  let W := home_world in
  let h := fst ((register_enderchest (P "~/minecraft") ;;
                 register_enderchest (P "/home/steve/minecraft")) blank) in
  expanduser (P "~/minecraft") = expanduser (P "/home/steve/minecraft")
  /\ chest_keys h = [P "~/minecraft"; P "/home/steve/minecraft"]
  /\ List.length (ender_chests (self h)) = 2%nat
  /\ ~ (List.length (ender_chests (self h)) = 1%nat).
Proof. vm_compute. repeat split; discriminate. Qed.

(** A chest registered twice in an empty store. *)
Lemma register_chest_twice_witness :
  let W := home_world in
  let h1 := fst (register_enderchest (P "/a") blank) in
  let h2 := fst (register_enderchest (P "/a") h1) in
  h2 = h1 /\ count_key (_ender_chests (self h2)) (P "/a") = 1%nat.
Proof.
  intros W h1 h2.
  destruct (@register_chest_twice W blank (P "/a")
              (P "/a/EnderChest/enderchest.cfg") eq_refl (NoDup_nil _))
    as (_ & _ & T3 & T4 & _).
  split; [exact T3|exact T4].
Defined.

(** Two spellings of a manifest path in steve's home. *)
Lemma saves_collapse_on_root_witness :
  let W := home_world in
  let h1 := fst (register_save (P "~/saves/world/.gsb_manifest") blank) in
  let h2 := fst (register_save (P "/home/steve/saves/world/.gsb_manifest") h1) in
  count_key (_saves (self h2)) (P "/home/steve/saves/world") = 1%nat
  /\ _saves (self h2)
     = [(P "/home/steve/saves/world", P "/home/steve/saves/world")].
Proof.
  intros W h1 h2.
  destruct (@saves_collapse_on_root W blank
              (P "~/saves/world/.gsb_manifest")
              (P "/home/steve/saves/world/.gsb_manifest")
              (P "/home/steve/saves/world") (P "/home/steve/saves/world")
              eq_refl eq_refl eq_refl (NoDup_nil _))
    as (_ & _ & T3 & _ & _ & _ & T7).
  split; [exact T3|exact (T7 eq_refl)].
Defined.

(** With [$MINECRAFT_ROOT] set to [/mc], a file that lists [/b], [/mc],
    [/bad] and [/a] loads to a store whose chests are those of [/mc], [/b]
    and [/a], in that order; a file that lists [/a] only loads to a store
    that holds the chest of [/mc], which it does not list. *)
Lemma load_keeps_env_chest_first_witness :
  let W := env_world in
  let h := with_file cfg
             (array_section (u "ender_chests")
                [u "/b"; u "/mc"; u "/bad"; u "/a"]
              ++ array_section (u "saves") []) in
  let h' := fst (from_config cfg h) in
  let g := with_file cfg (config_text [u "/a"] []) in
  let g' := fst (from_config cfg g) in
  snd (from_config cfg h) = Return tt
  /\ hd_error (_ender_chests (self h'))
     = Some (P "/mc", P "/mc/EnderChest/enderchest.cfg")
  /\ chest_keys h' = [P "/mc"; P "/b"; P "/a"]
  /\ dict_get (_ender_chests (self h')) (P "/a")
     = Some (P "/a/EnderChest/enderchest.cfg")
  /\ chest_keys g' = [P "/mc"; P "/a"]
  /\ ~ (forall p, In p (chest_keys g') -> In p [P "/a"]).
Proof.
  intros W h h' g g'.
  destruct (@load_keeps_env_chest_first W cfg h
              (array_section (u "ender_chests")
                 [u "/b"; u "/mc"; u "/bad"; u "/a"]
               ++ array_section (u "saves") [])
              [(u "ender_chests", VSeq [u "/b"; u "/mc"; u "/bad"; u "/a"]);
               (u "saves", VSeq [])]
              (VSeq [u "/b"; u "/mc"; u "/bad"; u "/a"]) (VSeq []) (u "/mc")
              (P "/mc/EnderChest/enderchest.cfg"))
    as (T1 & T2 & _ & _ & _ & T6 & T7 & _);
    try (vm_compute; reflexivity); try caught; try discriminate.
  destruct (@load_keeps_env_chest_first W cfg g
              (config_text [u "/a"] [])
              [(u "ender_chests", VSeq [u "/a"]); (u "saves", VSeq [])]
              (VSeq [u "/a"]) (VSeq []) (u "/mc")
              (P "/mc/EnderChest/enderchest.cfg"))
    as (_ & _ & _ & _ & _ & _ & U7 & _ & U9);
    try (vm_compute; reflexivity); try caught; try discriminate.
  split; [exact T1|]. split; [exact T2|].
  split; [fold h' in T7; rewrite T7; vm_compute; reflexivity|].
  split; [apply (T6 (u "/a")); [simpl; auto|vm_compute; reflexivity]|].
  split; [fold g' in U7; rewrite U7; vm_compute; reflexivity|].
  apply U9. vm_compute. intros [H|[]]. discriminate H.
Defined.



(** Chests registered as [/b] then [/a], and as [/a] then [/b]. *)
Lemma write_emits_sorted_arrays_witness :
  let W := home_world in
  let h := fst ((register_enderchest (P "/b") ;;
                 register_enderchest (P "/a")) blank) in
  let h' := fst ((register_enderchest (P "/a") ;;
                  register_enderchest (P "/b")) blank) in
  snd (write None h') = snd (write None h)
  /\ snd (write None h)
     = Return (string_line (u "generated_by_enderchest_gui") (u "0.1.0")
               ++ string_line (u "last_modified")
                              (u "2024-02-29 12:00:00.000000")
               ++ array_section (u "ender_chests") [u "/a"; u "/b"]
               ++ array_section (u "saves") []).
Proof.
  intros W h h'.
  destruct (@write_emits_sorted_arrays W h) as (T1 & _ & _ & _ & _ & _ & _ & T8 & _).
  split.
  - apply T8.
    + change (chest_keys h) with [P "/b"; P "/a"].
      change (chest_keys h') with [P "/a"; P "/b"]. apply perm_swap.
    + apply Permutation_refl.
  - rewrite T1. vm_compute. reflexivity.
Defined.

(** A string with a quote, a backslash, a line feed, a letter outside
    ASCII, a character outside the basic plane and two lone surrogates. *)
Lemma json_escape_roundtrip_witness :
  Json.unescape (Json.dumps [quote; backslash; 10; 233; 128512; 57000; 55357])
  = Some [quote; backslash; 10; 233; 128512; 57000; 55357].
Proof.
  apply (json_escape_roundtrip [quote; backslash; 10; 233; 128512; 57000; 55357]).
  - intros c Hc. simpl in Hc.
    repeat (destruct Hc as [<-|Hc]; [reflexivity|]). contradiction.
  - reflexivity.
Defined.

(** C8 as stated fails: a quote followed by a high and a low surrogate,
    three characters, unescapes to two. *)
Lemma json_escape_merges_surrogates :
  ~ (forall s : str,
       Json.code_points s ->
       (exists c, In c s /\ (c = quote \/ c = backslash \/ c < 32)) ->
       Json.unescape (Json.dumps s) = Some s).
Proof.
  intros H. specialize (H [quote; 55357; 56832]).
  assert (Json.code_points [quote; 55357; 56832]) as Hc.
  { intros c Hc. simpl in Hc.
    repeat (destruct Hc as [<-|Hc]; [reflexivity|]). contradiction. }
  specialize (H Hc). vm_compute in H.
  assert (Some [34; 128512] = Some [34; 55357; 56832]) as E.
  { apply H. exists 34. split; [now left|now left]. }
  discriminate E.
Qed.

(** C1 fails on the code: a save registered from the manifest of
    [/saves/world] is written as its root, [/saves/world]; the load takes
    that for the path of a manifest file and registers the repository of
    its parent, [/saves].  Every registration of the replay succeeds and
    the saves of the loaded store are not those written. *)
Theorem roundtrip_moves_save_to_parent :
  let W := home_world in
  let h := fst ((__init__ ;;
                 register_enderchest (P "/b") ;;
                 register_enderchest (P "/a") ;;
                 register_save (P "/saves/world/.gsb_manifest") ;;
                 write (Some cfg)) blank) in
  let h' := fst (from_config cfg h) in
  save_keys h = [P "/saves/world"]
  /\ snd (from_config cfg h) = Return tt
  /\ LOGGER h' = []
  /\ chest_keys h' = [P "/a"; P "/b"]
  /\ save_keys h' = [P "/saves"]
  /\ ~ (forall r, In r (save_keys h') <-> In r (save_keys h)).
Proof.
  vm_compute. repeat split.
  intros H. destruct (proj1 (H _) (or_introl eq_refl)) as [E|[]].
  discriminate E.
Qed.

End Examples.

(* ===================================================================== *)
(** * Further properties *)
(* ===================================================================== *)

(** ** The pattern of the Rsync probe *)

Section MatcherFacts.
Import Stack.

Lemma star_greedy_eq {R} cls (k : str -> str -> option R) acc s :
  star_greedy cls k acc s =
    match
      match s with
      | c :: s' => if cls c then star_greedy cls k (acc ++ [c]) s' else None
      | [] => None
      end
    with
    | Some r => Some r
    | None => k acc s
    end.
Proof. destruct s; reflexivity. Qed.

(** What a greedy repetition took is made of characters of the class, and
    the continuation accepted the rest. *)
Lemma star_greedy_sound {R} cls (k : str -> str -> option R) s :
  forall acc r,
    star_greedy cls k acc s = Some r ->
    exists m rest,
      s = m ++ rest /\ all_in cls m /\ k (acc ++ m) rest = Some r.
Proof.
  induction s as [|c s IH]; intros acc r H; rewrite star_greedy_eq in H.
  - exists [], []. rewrite !app_nil_r.
    split; [reflexivity|split; [constructor|exact H]].
  - destruct (cls c) eqn:Ec.
    + destruct (star_greedy cls k (acc ++ [c]) s) as [r'|] eqn:E.
      * injection H as ->.
        apply IH in E as (m & rest & -> & Hm & Hk).
        exists (c :: m), rest. rewrite <- app_assoc in Hk.
        split; [reflexivity|split; [now constructor|exact Hk]].
      * exists [], (c :: s). rewrite app_nil_r.
        split; [reflexivity|split; [constructor|exact H]].
    + exists [], (c :: s). rewrite app_nil_r.
      split; [reflexivity|split; [constructor|exact H]].
Qed.

Lemma plus_greedy_sound {R} cls (k : str -> str -> option R) s r :
  plus_greedy cls k s = Some r ->
  exists m rest,
    s = m ++ rest /\ m <> [] /\ all_in cls m /\ k m rest = Some r.
Proof.
  unfold plus_greedy. destruct s as [|c s]; [discriminate|].
  destruct (cls c) eqn:Ec; [|discriminate]. intros H.
  apply star_greedy_sound in H as (m & rest & -> & Hm & Hk).
  exists (c :: m), rest.
  split; [reflexivity|split; [discriminate|split; [now constructor|exact Hk]]].
Qed.

Lemma re_match_lits l pat s groups gs :
  re_match (map Lit l ++ pat) s groups = Some gs ->
  exists rest, s = l ++ rest /\ re_match pat rest groups = Some gs.
Proof.
  revert s; induction l as [|c l IH]; intros s H.
  - exists s. split; [reflexivity|exact H].
  - cbn [map app re_match] in H. destruct s as [|x s]; [discriminate|].
    destruct (x =? c) eqn:E; [|discriminate]. apply N.eqb_eq in E. subst x.
    apply IH in H as (rest & -> & H). exists rest. split; [reflexivity|exact H].
Qed.

Lemma re_match_any pat s groups gs :
  re_match (AnyChar :: pat) s groups = Some gs ->
  exists c rest, s = c :: rest /\ c <> 10 /\ re_match pat rest groups = Some gs.
Proof.
  cbn [re_match]. destruct s as [|x s]; [discriminate|].
  destruct (x =? 10) eqn:E; [discriminate|]. apply N.eqb_neq in E.
  intros H. exists x, s. auto.
Qed.

Lemma re_match_plus cls pat s groups :
  re_match (Plus cls :: pat) s groups =
    plus_greedy cls (fun _ s' => re_match pat s' groups) s.
Proof. reflexivity. Qed.

Lemma re_match_group cls pat s groups :
  re_match (GroupPlus cls :: pat) s groups =
    plus_greedy cls (fun m s' => re_match pat s' (groups ++ [m])) s.
Proof. reflexivity. Qed.

Lemma re_match_rsync_shape head gs :
  re_match rsync_pattern head [] = Some gs ->
  exists ws major c1 minor c2 patch tail,
    head = u "rsync" ++ ws ++ u "version "
             ++ major ++ c1 :: minor ++ c2 :: patch ++ tail
    /\ gs = [major; minor; patch]
    /\ ws <> [] /\ all_in isspace ws
    /\ major <> [] /\ all_in is_digit major
    /\ minor <> [] /\ all_in is_digit minor
    /\ patch <> [] /\ all_in is_digit patch
    /\ c1 <> 10 /\ c2 <> 10.
Proof.
  unfold rsync_pattern, lits. intros H.
  apply re_match_lits in H as (r1 & -> & H).
  cbn [app] in H. rewrite re_match_plus in H.
  apply plus_greedy_sound in H as (ws & r2 & -> & Hws & Hws' & H).
  cbv beta in H.
  apply re_match_lits in H as (r3 & -> & H).
  rewrite re_match_group in H.
  apply plus_greedy_sound in H as (major & r4 & -> & Hma & Hma' & H).
  cbv beta in H.
  apply re_match_any in H as (c1 & r5 & -> & Hc1 & H).
  rewrite re_match_group in H.
  apply plus_greedy_sound in H as (minor & r6 & -> & Hmi & Hmi' & H).
  cbv beta in H.
  apply re_match_any in H as (c2 & r7 & -> & Hc2 & H).
  rewrite re_match_group in H.
  apply plus_greedy_sound in H as (patch & tail & -> & Hpa & Hpa' & H).
  cbn [re_match app] in H. injection H as <-.
  exists ws, major, c1, minor, c2, patch, tail.
  split; [reflexivity|]. split; [reflexivity|]. tauto.
Qed.

(** X1.  A first line that the pattern of the probe accepts is the word
    "rsync", at least one blank, the word "version" and one space, then
    three non-empty runs of ASCII digits separated by one character each
    (any character but a line feed, not necessarily a dot), then anything;
    the groups are the three runs of digits. *)
Theorem rsync_pattern_sound head gs :
  re_match rsync_pattern head [] = Some gs ->
  exists ws major c1 minor c2 patch tail,
    head = u "rsync" ++ ws ++ u "version "
             ++ major ++ c1 :: minor ++ c2 :: patch ++ tail
    /\ gs = [major; minor; patch]
    /\ ws <> [] /\ all_in isspace ws
    /\ major <> [] /\ all_in is_digit major
    /\ minor <> [] /\ all_in is_digit minor
    /\ patch <> [] /\ all_in is_digit patch
    /\ c1 <> 10 /\ c2 <> 10.
Proof.
  unfold rsync_pattern, lits. intros H.
  apply re_match_lits in H as (r1 & -> & H).
  cbn [app] in H. rewrite re_match_plus in H.
  apply plus_greedy_sound in H as (ws & r2 & -> & Hws & Hws' & H).
  cbv beta in H.
  apply re_match_lits in H as (r3 & -> & H).
  rewrite re_match_group in H.
  apply plus_greedy_sound in H as (major & r4 & -> & Hma & Hma' & H).
  cbv beta in H.
  apply re_match_any in H as (c1 & r5 & -> & Hc1 & H).
  rewrite re_match_group in H.
  apply plus_greedy_sound in H as (minor & r6 & -> & Hmi & Hmi' & H).
  cbv beta in H.
  apply re_match_any in H as (c2 & r7 & -> & Hc2 & H).
  rewrite re_match_group in H.
  apply plus_greedy_sound in H as (patch & tail & -> & Hpa & Hpa' & H).
  cbn [re_match app] in H. injection H as <-.
  exists ws, major, c1, minor, c2, patch, tail.
  split; [reflexivity|]. split; [reflexivity|]. tauto.
Qed.

(** The pattern on the first line of Rsync 3.2.7. *)
Lemma rsync_pattern_sound_witness :
  exists ws major c1 minor c2 patch tail,
    u "rsync  version 3.2.7  protocol version 31"
    = u "rsync" ++ ws ++ u "version "
        ++ major ++ c1 :: minor ++ c2 :: patch ++ tail
    /\ [u "3"; u "2"; u "7"] = [major; minor; patch]
    /\ ws <> [] /\ all_in isspace ws
    /\ major <> [] /\ all_in is_digit major
    /\ minor <> [] /\ all_in is_digit minor
    /\ patch <> [] /\ all_in is_digit patch
    /\ c1 <> 10 /\ c2 <> 10.
Proof.
  apply (rsync_pattern_sound
           (u "rsync  version 3.2.7  protocol version 31")
           [u "3"; u "2"; u "7"]).
  reflexivity.
Defined.


(** *** Trimming *)

Lemma lstrip_app a b :
  lstrip (a ++ b) = match lstrip a with [] => lstrip b | l => l ++ b end.
Proof.
  induction a as [|c a IH]; [reflexivity|]. cbn [app lstrip].
  destruct (isspace c); [exact IH|reflexivity].
Qed.

Lemma lstrip_blanks ws s : all_in isspace ws -> lstrip (ws ++ s) = lstrip s.
Proof.
  induction 1 as [|c ws Hc _ IH]; [reflexivity|].
  cbn [app lstrip]. now rewrite Hc.
Qed.

(** Trimming on the right stops at a character that is not a blank. *)
Lemma rstrip_keeps p x t :
  isspace x = false -> rstrip (p ++ x :: t) = p ++ x :: rstrip t.
Proof.
  intros Hx. unfold rstrip. rewrite rev_app_distr. cbn [rev].
  rewrite <- app_assoc. cbn [app]. rewrite lstrip_app.
  destruct (lstrip (rev t)) as [|y l].
  - cbn [lstrip]. rewrite Hx. cbn [rev]. now rewrite rev_involutive.
  - rewrite rev_app_distr. cbn [rev]. rewrite rev_involutive.
    now rewrite <- app_assoc.
Qed.

Lemma digit_not_space c : is_digit c = true -> isspace c = false.
Proof.
  unfold is_digit, isspace. intros H. apply andb_true_iff in H as [H1 H2].
  apply N.leb_le in H1, H2.
  repeat (apply orb_false_iff; split);
    try (apply andb_false_iff; first [left; apply N.leb_gt; lia
                                     |right; apply N.leb_gt; lia]);
    apply N.eqb_neq; lia.
Qed.

(** On a run that returned, the probe raises the error of decoding the
    error stream, or does what it does on the same output with nothing on
    the error stream. *)
Lemma answer_run_cases limit result :
  (stderr result <> []
   /\ (exists e, decode_utf_8 (stderr result) = Raise e)
   /\ answer limit (Return result) = Raise UnicodeDecodeError)
  \/ ((exists message, decode_utf_8 (stderr result) = Return message)
      /\ answer limit (Return result)
         = answer limit (Return {| stdout := stdout result; stderr := [] |})).
Proof.
  destruct (decode_utf_8 (stderr result)) as [message|e] eqn:Ed.
  - right. split; [now exists message|]. exact (answer_of_run _ _ _ Ed).
  - left. destruct result as [out err]. cbn [stderr] in *.
    assert (Hne : err <> []) by (intros ->; discriminate Ed).
    split; [exact Hne|]. split; [now exists e|]. unfold answer.
    rewrite (probe_noisy_run limit out err) by exact Hne. now rewrite Ed.
Qed.

(** What the probe answers, when it answers something: the launch
    succeeded, the first line has the shape of the pattern with a version
    of at least 3.2, and the answer is that line from the word "version"
    on, without the blanks at its end. *)
Lemma probe_answer_shape limit run v :
  answer limit run = Return v -> v <> [] ->
  exists result text rest ws major c1 minor c2 patch tail,
    run = Return result
    /\ decode_utf_8 (stdout result) = Return text
    /\ splitlines text
       = (u "rsync" ++ ws ++ u "version "
            ++ major ++ c1 :: minor ++ c2 :: patch ++ tail) :: rest
    /\ ws <> [] /\ all_in isspace ws
    /\ major <> [] /\ all_in is_digit major
    /\ minor <> [] /\ all_in is_digit minor
    /\ patch <> [] /\ all_in is_digit patch
    /\ (3 < decimal_value major
        \/ (decimal_value major = 3 /\ 2 <= decimal_value minor))
    /\ v = u "version " ++ major ++ c1 :: minor ++ c2 :: patch ++ rstrip tail.
Proof.
  intros Hv Hne. destruct run as [result|e].
  2:{ unfold answer, _get_rsync_version, try_or_empty, and_then, eval in Hv.
      cbn [snd] in Hv.
      destruct (is_FileNotFoundError_or_IndexError e); cbn [snd] in Hv;
        [injection Hv as <-; now destruct Hne|discriminate]. }
  destruct (answer_run_cases limit result) as [(_ & _ & E)|[_ E]];
    rewrite E in Hv; [discriminate|].
  rewrite answer_quiet in Hv. cbn [stdout] in Hv.
  destruct (decode_utf_8 (stdout result)) as [text|e] eqn:Hd; [|discriminate].
  destruct (splitlines text) as [|head ls] eqn:Hs;
    [injection Hv as <-; now destruct Hne|].
  destruct (re_match rsync_pattern head []) as [gs|] eqn:Hm;
    [|injection Hv as <-; now destruct Hne].
  destruct (re_match_rsync_shape _ _ Hm)
    as (ws & major & c1 & minor & c2 & patch & tail & Hh & -> & Hws & Hws'
        & Hma & Hma' & Hmi & Hmi' & Hpa & Hpa' & _).
  cbn [unpack_two] in Hv.
  destruct (too_old limit major minor) as [[|]|e] eqn:Ho;
    [injection Hv as <-; now destruct Hne| |discriminate].
  injection Hv as Hv. subst head.
  exists result, text, ls, ws, major, c1, minor, c2, patch, tail.
  split; [reflexivity|]. split; [exact Hd|]. split; [exact Hs|].
  repeat (split; [assumption|]). split.
  - apply too_old_returns in Ho. symmetry in Ho.
    apply orb_false_iff in Ho as [H1 H2].
    apply N.ltb_ge in H1. apply andb_false_iff in H2.
    destruct (N.eq_dec (decimal_value major) 3) as [E3|E3].
    + right. split; [exact E3|]. destruct H2 as [H2|H2].
      * apply N.eqb_neq in H2. contradiction.
      * now apply N.ltb_ge in H2.
    + left. lia.
  - subst v.
    change (rstrip (lstrip (ws ++ u "version "
                              ++ major ++ c1 :: minor ++ c2 :: patch ++ tail))
            = u "version " ++ major ++ c1 :: minor ++ c2 :: patch
                ++ rstrip tail).
    rewrite lstrip_blanks by exact Hws'.
    change (lstrip (u "version " ++ ?x)) with (u "version " ++ x).
    destruct (exists_last Hpa) as (patch' & d & ->).
    assert (Hd' : isspace d = false).
    { apply digit_not_space. unfold all_in in Hpa'.
      rewrite Forall_forall in Hpa'. apply Hpa'. apply in_or_app.
      right. now left. }
    replace (u "version " ++ major ++ c1 :: minor ++ c2 :: (patch' ++ [d]) ++ tail)
      with ((u "version " ++ major ++ c1 :: minor ++ c2 :: patch') ++ d :: tail).
    2:{ rewrite <- !app_assoc. cbn [app]. rewrite <- !app_assoc.
        cbn [app]. reflexivity. }
    rewrite (rstrip_keeps _ d tail Hd').
    rewrite <- !app_assoc. cbn [app]. rewrite <- !app_assoc. cbn [app].
    reflexivity.
Qed.

End MatcherFacts.

(** ** The reports of [common/stack.py] *)

Section ReportFacts.
Import Stack StackReport.

(** X2.  The stack report logs what the probe logs and raises what the
    probe raises.  When the probe returns, the report has the keys "os",
    "architecture", "Python" and "Rsync", in that order, the last one with
    the answer of the probe.  That entry is not empty only if Rsync was
    launched and the first line of its output has the shape of the pattern
    with a version of at least 3.2; the entry is then that line from the
    word "version" on, trimmed on the right. *)
Theorem stack_report_shows_recent_rsync uname sys_version limit run log :
  fst (get_stack uname sys_version limit run log)
  = fst (_get_rsync_version limit run log)
  /\ (forall e,
        snd (get_stack uname sys_version limit run log) = Raise e <->
        answer limit run = Raise e)
  /\ (forall r,
        snd (get_stack uname sys_version limit run log) = Return r ->
        exists v,
          answer limit run = Return v
          /\ r = [ (u "os", system uname ++ u " " ++ release uname);
                   (u "architecture", machine uname);
                   (u "Python", sys_version);
                   (u "Rsync", v) ]
          /\ report_get r (u "Rsync") = Some v
          /\ (v <> [] ->
              exists result text rest ws major c1 minor c2 patch tail,
                run = Return result
                /\ decode_utf_8 (stdout result) = Return text
                /\ splitlines text
                   = (u "rsync" ++ ws ++ u "version "
                        ++ major ++ c1 :: minor ++ c2 :: patch ++ tail) :: rest
                /\ ws <> [] /\ all_in isspace ws
                /\ major <> [] /\ all_in is_digit major
                /\ minor <> [] /\ all_in is_digit minor
                /\ patch <> [] /\ all_in is_digit patch
                /\ (3 < decimal_value major
                    \/ (decimal_value major = 3 /\ 2 <= decimal_value minor))
                /\ v = u "version " ++ major ++ c1 :: minor ++ c2 :: patch
                         ++ rstrip tail)).
Proof.
  unfold get_stack, and_then, pure. rewrite probe_frame.
  destruct (answer limit run) as [v|e] eqn:E; cbn [fst snd].
  - split; [reflexivity|]. split; [split; discriminate|].
    intros r Hr. injection Hr as <-. exists v.
    split; [reflexivity|]. split; [reflexivity|]. split; [reflexivity|].
    intros Hne. now apply (probe_answer_shape limit).
  - split; [reflexivity|]. split; [|discriminate].
    intros e0. split; intros H; injection H as ->; reflexivity.
Qed.

(** The report on a machine with Rsync 3.2.7. *)
Lemma stack_report_shows_recent_rsync_witness :
  exists result text rest ws major c1 minor c2 patch tail,
    Return {| stdout := u "rsync  version 3.2.7  protocol version 31  ";
              stderr := [] |} = Return result
    /\ decode_utf_8 (stdout result) = Return text
    /\ splitlines text
       = (u "rsync" ++ ws ++ u "version "
            ++ major ++ c1 :: minor ++ c2 :: patch ++ tail) :: rest
    /\ ws <> [] /\ all_in isspace ws
    /\ major <> [] /\ all_in is_digit major
    /\ minor <> [] /\ all_in is_digit minor
    /\ patch <> [] /\ all_in is_digit patch
    /\ (3 < decimal_value major
        \/ (decimal_value major = 3 /\ 2 <= decimal_value minor))
    /\ u "version 3.2.7  protocol version 31"
       = u "version " ++ major ++ c1 :: minor ++ c2 :: patch ++ rstrip tail.
Proof.
  destruct (stack_report_shows_recent_rsync
              {| system := u "Linux"; release := u "6.1"; machine := u "x86_64" |}
              (u "3.11.4") default_max_str_digits
              (Return {| stdout := u "rsync  version 3.2.7  protocol version 31  ";
                         stderr := [] |}) []) as (_ & _ & T).
  destruct (T _ eq_refl) as (v & Hv & _ & _ & Hs).
  vm_compute in Hv. injection Hv as <-. apply Hs. discriminate.
Defined.

(** X3.  The probe answers something exactly when Rsync was launched, both
    streams decode, the first line of the output matches the pattern and
    the version matched is found recent enough.  It raises exactly when the
    launch raises something else than [FileNotFoundError] or [IndexError],
    when what was written on the error stream, or the output, does not
    decode, and when [int] refuses a number of a first line that matches;
    [int] refuses the major number when it is too long, and the minor
    number when it is too long and the major number is 3. *)
Theorem probe_answers_iff_recent limit run :
  ((exists v, answer limit run = Return v /\ v <> []) <->
   exists result message text head rest major minor more,
     run = Return result
     /\ decode_utf_8 (stderr result) = Return message
     /\ decode_utf_8 (stdout result) = Return text
     /\ splitlines text = head :: rest
     /\ re_match rsync_pattern head [] = Some (major :: minor :: more)
     /\ too_old limit major minor = Return false)
  /\ (forall e,
        answer limit run = Raise e <->
        (run = Raise e /\ is_FileNotFoundError_or_IndexError e = false)
        \/ exists result,
             run = Return result
             /\ ((stderr result <> [] /\ decode_utf_8 (stderr result) = Raise e)
                 \/ exists message,
                      decode_utf_8 (stderr result) = Return message
                      /\ (decode_utf_8 (stdout result) = Raise e
                          \/ exists text head rest major minor more,
                               decode_utf_8 (stdout result) = Return text
                               /\ splitlines text = head :: rest
                               /\ re_match rsync_pattern head []
                                  = Some (major :: minor :: more)
                               /\ too_old limit major minor = Raise e)))
  /\ (forall major minor,
        (exists e, too_old limit major minor = Raise e) <->
        over_limit limit major
        \/ (decimal_value major = 3 /\ over_limit limit minor)).
Proof.
  split; [|split].
  - split.
    + intros (v & Hv & Hne). destruct run as [result|e].
      2:{ unfold answer, _get_rsync_version, try_or_empty, and_then, eval in Hv.
          cbn [snd] in Hv.
          destruct (is_FileNotFoundError_or_IndexError e); cbn [snd] in Hv;
            [injection Hv as <-; now destruct Hne|discriminate]. }
      destruct (answer_run_cases limit result) as [(_ & _ & E)|[[message Hm] E]];
        rewrite E in Hv; [discriminate|].
      rewrite answer_quiet in Hv. cbn [stdout] in Hv.
      destruct (decode_utf_8 (stdout result)) as [text|e] eqn:Hd;
        [|discriminate].
      destruct (splitlines text) as [|head ls] eqn:Hs;
        [injection Hv as <-; now destruct Hne|].
      destruct (re_match rsync_pattern head []) as [[|major [|minor more]]|]
        eqn:Hg; try discriminate;
        try (injection Hv as <-; now destruct Hne).
      cbn [unpack_two] in Hv.
      destruct (too_old limit major minor) as [[|]|e] eqn:Ho;
        [injection Hv as <-; now destruct Hne| |discriminate].
      exists result, message, text, head, ls, major, minor, more.
      repeat (split; [first [assumption|reflexivity]|]). exact Ho.
    + intros (result & message & text & head & rest & major & minor & more
              & -> & Hm & Hd & Hs & Hg & Ho).
      assert (Hl : first_item (splitlines text) = Return head)
        by now rewrite Hs.
      exists (strip (skipn 5 head)). split.
      * now rewrite (answer_match _ _ _ _ _ _ _ _ Hm Hd Hl Hg), Ho.
      * destruct (re_match_rsync_shape _ _ Hg)
          as (ws & ma & c1 & mi & c2 & pa & tail & -> & _ & Hws & Hws' & _).
        change (rev (lstrip (rev (lstrip
                  (ws ++ u "version " ++ ma ++ c1 :: mi ++ c2 :: pa ++ tail))))
                <> []).
        rewrite lstrip_blanks by exact Hws'.
        change (lstrip (u "version " ++ ?x)) with (118 :: (u "ersion " ++ x)).
        intros Hv. apply (f_equal (@rev N)) in Hv.
        rewrite rev_involutive in Hv. cbn [rev] in Hv.
        rewrite lstrip_app in Hv.
        destruct (lstrip (rev (u "ersion " ++ ma ++ c1 :: mi ++ c2 :: pa ++ tail)));
          discriminate Hv.
  - intros e. split.
    + intros He. destruct run as [result|e'].
      2:{ left. unfold answer, _get_rsync_version, try_or_empty, and_then,
            eval in He. cbn [snd] in He.
          destruct (is_FileNotFoundError_or_IndexError e') eqn:Ec;
            cbn [snd] in He; [discriminate|].
          injection He as ->. auto. }
      right. exists result. split; [reflexivity|].
      destruct (answer_run_cases limit result)
        as [(Hne & [e' Hd] & E)|[[message Hm] E]]; rewrite E in He.
      { left. injection He as <-.
        split; [exact Hne|]. now rewrite (decode_raises _ _ Hd) in Hd. }
      right. exists message. split; [exact Hm|].
      rewrite answer_quiet in He. cbn [stdout] in He.
      destruct (decode_utf_8 (stdout result)) as [text|e'] eqn:Hd.
      2:{ left. injection He as <-. now rewrite (decode_raises _ _ Hd). }
      right.
      destruct (splitlines text) as [|head ls] eqn:Hs; [discriminate|].
      destruct (re_match rsync_pattern head []) as [gs|] eqn:Hg;
        [|discriminate].
      destruct (re_match_rsync_shape _ _ Hg)
        as (ws & ma & c1 & mi & c2 & pa & tail & _ & -> & _).
      cbn [unpack_two] in He.
      destruct (too_old limit ma mi) as [[|]|e'] eqn:Ho; try discriminate.
      injection He as ->.
      exists text, head, ls, ma, mi, [pa]. auto.
    + intros [[-> He]|(result & -> & H)].
      { unfold answer, _get_rsync_version, try_or_empty, and_then, eval.
        cbn [snd]. now rewrite He. }
      destruct H as [[Hne Hd]|(message & Hm & H)].
      { destruct result as [out err]. cbn [stderr] in *. unfold answer.
        rewrite (probe_noisy_run limit out err) by exact Hne.
        rewrite Hd. now rewrite (decode_raises _ _ Hd). }
      rewrite (answer_of_run _ _ _ Hm), answer_quiet. cbn [stdout].
      destruct H as [Hd|(text & head & rest & major & minor & more
                         & Hd & Hs & Hg & Ho)].
      { rewrite Hd. now rewrite (decode_raises _ _ Hd). }
      rewrite Hd, Hs, Hg. cbn [unpack_two]. now rewrite Ho.
  - intros major minor. unfold too_old, over_limit. split.
    + intros [e He].
      destruct (int_of_str_cases limit major) as [[E _]|[_ Hl]];
        [|now left].
      rewrite E in He.
      destruct (decimal_value major <? 3); [discriminate|].
      destruct (decimal_value major =? 3) eqn:E3; [|discriminate].
      apply N.eqb_eq in E3.
      destruct (int_of_str_cases limit minor) as [[E' _]|[_ Hl]];
        [rewrite E' in He; discriminate|]. now right.
    + intros [Hl|[E3 Hl]].
      * destruct (int_of_str_cases limit major) as [[_ Hn]|[[msg ->] _]];
          [contradiction|]. eauto.
      * destruct (int_of_str_cases limit major) as [[-> _]|[[msg ->] _]];
          [|eauto].
        rewrite E3. cbn.
        destruct (int_of_str_cases limit minor) as [[_ Hn]|[[msg ->] _]];
          [contradiction|]. eauto.
Qed.

(** X4.  What Rsync writes on its error stream is logged first, as the
    message itself, and changes nothing else: the outcome is the same, and
    so are the other records; when it does not decode, the probe raises
    with nothing logged.  Apart from it, the probe adds its records to the
    log, at most one; it logs nothing when it answers something, when it
    raises and when there is no output. *)
Theorem probe_logs_stderr_only limit out err log :
  let quiet :=
    _get_rsync_version limit (Return {| stdout := out; stderr := [] |}) in
  let noisy :=
    _get_rsync_version limit (Return {| stdout := out; stderr := err |}) in
  (forall message,
     err <> [] -> decode_utf_8 err = Return message ->
     snd (noisy log) = snd (quiet log)
     /\ fst (noisy log) = log ++ ERROR message [] :: fst (quiet []))
  /\ (forall e,
        err <> [] -> decode_utf_8 err = Raise e ->
        noisy log = (log, Raise UnicodeDecodeError))
  /\ fst (quiet log) = log ++ fst (quiet [])
  /\ (List.length (fst (quiet [])) <= 1)%nat
  /\ (forall v, snd (quiet log) = Return v -> v <> [] -> fst (quiet []) = [])
  /\ (forall e, snd (quiet log) = Raise e -> fst (quiet []) = [])
  /\ (forall text,
        decode_utf_8 out = Return text -> splitlines text = [] ->
        fst (quiet log) = log).
Proof.
  cbv zeta. split; [|split; [|split]].
  - intros message Hne Hm. rewrite (probe_noisy_run limit out err) by exact Hne.
    rewrite Hm, !(probe_frame limit (Return {| stdout := out; stderr := [] |})).
    cbn [fst snd]. split; [reflexivity|].
    now rewrite <- app_assoc.
  - intros e Hne He. rewrite (probe_noisy_run limit out err) by exact Hne.
    now rewrite He.
  - now rewrite probe_frame.
  - assert (H7 : forall text,
               decode_utf_8 out = Return text -> splitlines text = [] ->
               fst (_get_rsync_version limit
                      (Return {| stdout := out; stderr := [] |}) log) = log).
    { intros text Ht Hs. now rewrite probe_quiet_run, Ht, Hs. }
    cut ((List.length
            (fst (_get_rsync_version limit
                    (Return {| stdout := out; stderr := [] |}) [])) <= 1)%nat
         /\ (forall v,
               snd (_get_rsync_version limit
                      (Return {| stdout := out; stderr := [] |}) log)
               = Return v ->
               v <> [] ->
               fst (_get_rsync_version limit
                      (Return {| stdout := out; stderr := [] |}) []) = [])
         /\ (forall e,
               snd (_get_rsync_version limit
                      (Return {| stdout := out; stderr := [] |}) log)
               = Raise e ->
               fst (_get_rsync_version limit
                      (Return {| stdout := out; stderr := [] |}) []) = [])).
    { intros (H4 & H5 & H6). auto. }
    clear H7. rewrite !probe_quiet_run.
    destruct (decode_utf_8 out) as [text|e];
      [|cbn; split; [lia|split; reflexivity]].
    destruct (splitlines text) as [|head ls];
      [cbn; split; [lia|split; reflexivity]|].
    destruct (re_match rsync_pattern head []) as [groups|].
    2:{ cbn [fst snd app List.length]. split; [lia|]. split.
        - intros v Hv Hne. injection Hv as <-. now destruct Hne.
        - intros e He. discriminate He. }
    destruct (unpack_two groups) as [[major minor]|e];
      [|cbn; split; [lia|split; reflexivity]].
    destruct (too_old limit major minor) as [[|]|e];
      cbn [fst snd app List.length].
    + split; [lia|]. split.
      * intros v Hv Hne. injection Hv as <-. now destruct Hne.
      * intros e He. discriminate He.
    + split; [lia|split; reflexivity].
    + split; [lia|split; reflexivity].
Qed.

(** The probe on the output of Rsync 3.2.7, and on a version whose major
    number has 4301 digits. *)
Lemma probe_answers_iff_recent_witness :
  (exists v,
     answer default_max_str_digits
       (Return {| stdout := u "rsync  version 3.2.7  protocol version 31";
                  stderr := [] |}) = Return v /\ v <> [])
  /\ exists e,
       too_old default_max_str_digits (repeat 51 4301) (u "2") = Raise e.
Proof.
  destruct (probe_answers_iff_recent default_max_str_digits
              (Return {| stdout := u "rsync  version 3.2.7  protocol version 31";
                         stderr := [] |})) as (T1 & _ & T3).
  split.
  - apply (proj2 T1).
    exists {| stdout := u "rsync  version 3.2.7  protocol version 31";
              stderr := [] |}, [],
           (u "rsync  version 3.2.7  protocol version 31"),
           (u "rsync  version 3.2.7  protocol version 31"), [],
           (u "3"), (u "2"), [u "7"].
    repeat split; reflexivity.
  - apply (proj2 (T3 _ _)). left. unfold over_limit.
    rewrite repeat_length. vm_compute. repeat split.
Defined.

(** A warning on the error stream of Rsync 3.2.7. *)
Lemma probe_logs_stderr_only_witness :
  _get_rsync_version default_max_str_digits
    (Return {| stdout := u "rsync  version 3.2.7  protocol version 31";
               stderr := u "rsync: warning" |}) []
  = ([ERROR (u "rsync: warning") []],
     Return (u "version 3.2.7  protocol version 31")).
Proof.
  destruct (probe_logs_stderr_only default_max_str_digits
              (u "rsync  version 3.2.7  protocol version 31")
              (u "rsync: warning") []) as (T & _).
  destruct (T (u "rsync: warning")) as [T1 T2];
    [discriminate|reflexivity|].
  rewrite (surjective_pairing (_get_rsync_version _ _ _)), T1, T2.
  reflexivity.
Defined.

(** *** The dependency report *)

Variable version_of : str -> imported.

Lemma report_set_fresh r k v :
  ~ In k (map fst r) -> report_set r k v = r ++ [(k, v)].
Proof.
  induction r as [|[k' v'] r IH]; simpl; [reflexivity|].
  intros H. destruct (str_eqb k' k) eqn:E.
  - apply str_eqb_eq in E. tauto.
  - f_equal. apply IH. tauto.
Qed.

Lemma report_components_app l1 l2 r :
  report_components version_of (l1 ++ l2) r =
    match report_components version_of l1 r with
    | inr r' => report_components version_of l2 r'
    | inl e => inl e
    end.
Proof.
  revert r; induction l1 as [|c l1 IH]; intros r; [reflexivity|].
  cbn [app report_components].
  destruct (version_of c) as [v|e]; [apply IH|].
  destruct (is_ModuleNotFound_or_AttributeError e); [apply IH|reflexivity].
Qed.

Lemma get_dependency_versions_eq :
  get_dependency_versions version_of =
    report_components version_of
      (REQUIRED_PY_DEPENDENCIES ++ OPTIONAL_PY_DEPENDENCIES) [].
Proof.
  unfold get_dependency_versions. cbn [report_lists].
  rewrite report_components_app.
  destruct (report_components version_of REQUIRED_PY_DEPENDENCIES []);
    [reflexivity|].
  destruct (report_components version_of OPTIONAL_PY_DEPENDENCIES r);
    reflexivity.
Qed.

Lemma report_components_run l r :
  (forall c e, In c l -> version_of c = ImportFails e ->
               is_ModuleNotFound_or_AttributeError e = true) ->
  NoDup (map fst r ++ l) ->
  report_components version_of l r =
    inr (r ++ map (fun c => (c, shown_version version_of c)) l).
Proof.
  revert r; induction l as [|c l IH]; intros r Hc Hd.
  - cbn. now rewrite app_nil_r.
  - assert (Hfresh : ~ In c (map fst r)).
    { apply NoDup_remove_2 in Hd. intros H. apply Hd.
      apply in_or_app. now left. }
    assert (Hd' : forall v, NoDup (map fst (r ++ [(c, v)]) ++ l)).
    { intros v. rewrite map_app. cbn [map fst]. rewrite <- app_assoc.
      exact Hd. }
    assert (Hc' : forall c' e, In c' l -> version_of c' = ImportFails e ->
                   is_ModuleNotFound_or_AttributeError e = true).
    { intros c' e H. apply Hc. now right. }
    cbn [report_components map]. unfold shown_version at 1.
    destruct (version_of c) as [v|e] eqn:E.
    + rewrite report_set_fresh by exact Hfresh.
      rewrite (IH _ Hc' (Hd' v)). now rewrite <- app_assoc.
    + rewrite (Hc c e (or_introl eq_refl) E).
      rewrite report_set_fresh by exact Hfresh.
      rewrite (IH _ Hc' (Hd' [])). now rewrite <- app_assoc.
Qed.

Lemma components_NoDup :
  NoDup (REQUIRED_PY_DEPENDENCIES ++ OPTIONAL_PY_DEPENDENCIES).
Proof.
  repeat constructor; simpl; intros H;
    repeat (destruct H as [H|H]; [discriminate H|]); exact H.
Qed.

(** X5.  When no component fails otherwise than by
    [ModuleNotFoundError] or [AttributeError], the dependency report is
    returned and holds, for the three required and the two optional
    components in that order, the installed version, or the empty string
    for a component that is missing or has no version. *)
Theorem dependency_report_lists_every_component :
  (forall c e,
     In c (REQUIRED_PY_DEPENDENCIES ++ OPTIONAL_PY_DEPENDENCIES) ->
     version_of c = ImportFails e ->
     is_ModuleNotFound_or_AttributeError e = true) ->
  get_dependency_versions version_of =
    inr (map (fun c => (c, shown_version version_of c))
             (REQUIRED_PY_DEPENDENCIES ++ OPTIONAL_PY_DEPENDENCIES)).
Proof.
  intros H. rewrite get_dependency_versions_eq.
  rewrite report_components_run; [reflexivity|exact H|].
  apply components_NoDup.
Qed.

(** X6.  Any other exception raised while importing a component or reading
    its version is not caught: it ends the report at the first component
    that raises one. *)
Theorem dependency_report_lets_other_errors_through before c after e :
  REQUIRED_PY_DEPENDENCIES ++ OPTIONAL_PY_DEPENDENCIES = before ++ c :: after ->
  (forall c' e',
     In c' before -> version_of c' = ImportFails e' ->
     is_ModuleNotFound_or_AttributeError e' = true) ->
  version_of c = ImportFails e ->
  is_ModuleNotFound_or_AttributeError e = false ->
  get_dependency_versions version_of = inl e.
Proof.
  intros Hl Hb Hc He. rewrite get_dependency_versions_eq, Hl.
  rewrite report_components_app, report_components_run.
  - cbn [report_components]. now rewrite Hc, He.
  - exact Hb.
  - cbn [map app]. pose proof components_NoDup as Hd. rewrite Hl in Hd.
    clear -Hd. induction before as [|x l IH]; [constructor|].
    cbn [app] in *. inversion Hd as [|? ? Hx Hd']; subst.
    constructor; [|now apply IH].
    intros H. apply Hx. apply in_or_app. now left.
Qed.

End ReportFacts.

Section ReportExamples.
Import StackReport.

Lemma dependency_report_lists_every_component_witness :
  get_dependency_versions (some_packages false) =
    inr [(u "enderchest", u "0.1.12"); (u "gsb", u "0.0.4");
         (u "pygit2", []); (u "paramiko", []); (u "pytest", [])].
Proof.
  apply (dependency_report_lists_every_component (some_packages false)).
  intros c e Hin H. simpl in Hin.
  repeat (destruct Hin as [<-|Hin];
          [vm_compute in H; first [discriminate H
                                  |injection H as <-; reflexivity]|]).
  contradiction.
Defined.

Lemma dependency_report_lets_other_errors_through_witness :
  get_dependency_versions (some_packages true)
  = inl (ImportError (u "cannot import name")).
Proof.
  apply (dependency_report_lets_other_errors_through (some_packages true)
           [u "enderchest"; u "gsb"; u "pygit2"; u "paramiko"]
           (u "pytest") []); try reflexivity.
  intros c e Hin H. simpl in Hin.
  repeat (destruct Hin as [<-|Hin];
          [vm_compute in H; first [discriminate H
                                  |injection H as <-; reflexivity]|]).
  contradiction.
Defined.

End ReportExamples.

(** ** More on the configuration store *)

Section StoreMore.
Context {W : World}.

(** X8.  The constructor drops what the object held, keeps the files, logs
    at most one record and ends with at most one chest and no save.  It
    raises exactly when [$MINECRAFT_ROOT] is set, not empty, and loading
    its chest raises an exception that is neither a [ValueError] nor an
    [OSError]; that exception is the one raised. *)
Theorem constructor_outcomes h :
  let h' := fst (__init__ h) in
  _saves (self h') = []
  /\ (List.length (_ender_chests (self h')) <= 1)%nat
  /\ files h' = files h
  /\ (exists l, LOGGER h' = LOGGER h ++ l /\ (List.length l <= 1)%nat)
  /\ (forall e,
        snd (__init__ h) = Raise e <->
        exists value,
          getenv (u "MINECRAFT_ROOT") = Some value /\ value <> []
          /\ load_chest (Path_of value) = Raise e
          /\ is_ValueError_or_OSError e = false)
  /\ (forall value chest,
        getenv (u "MINECRAFT_ROOT") = Some value -> value <> [] ->
        load_chest (Path_of value) = Return chest ->
        _ender_chests (self h') = [(Path_of value, chest)]).
Proof.
  cbv zeta. rewrite init_run. cbv zeta.
  assert (Hnil : forall l : list LogRecord,
            exists l', l = l ++ l' /\ (List.length l' <= 1)%nat).
  { intros l. exists []. rewrite app_nil_r. split; [reflexivity|simpl; lia]. }
  destruct (getenv (u "MINECRAFT_ROOT")) as [[|c s]|] eqn:He;
    [|destruct (load_chest (Path_of (c :: s))) as [chest|e] eqn:El;
      [|destruct (is_ValueError_or_OSError e) eqn:Ec]|];
    cbn [fst snd with_chest with_self with_log self _ender_chests _saves
         LOGGER files dict_set];
    (split; [reflexivity|]); (split; [simpl; lia|]); (split; [reflexivity|]);
    (split; [first [apply Hnil
                   |eexists; split; [reflexivity|simpl; lia]]|]);
    split.
  - intros e. split; [discriminate|].
    intros (value & Hv & Hne & _). injection Hv as <-. now destruct Hne.
  - intros value chest Hv Hne. injection Hv as <-. now destruct Hne.
  - intros e. split; [discriminate|].
    intros (value & Hv & _ & Hl & _). injection Hv as <-. congruence.
  - intros value ch Hv _ Hl. injection Hv as <-. congruence.
  - intros e'. split; [discriminate|].
    intros (value & Hv & _ & Hl & Hc). injection Hv as <-. congruence.
  - intros value ch Hv _ Hl. injection Hv as <-. congruence.
  - intros e'. split.
    + intros H. injection H as <-. exists (c :: s).
      split; [reflexivity|]. split; [discriminate|]. split; assumption.
    + intros (value & Hv & _ & Hl & _). injection Hv as <-. congruence.
  - intros value ch Hv _ Hl. injection Hv as <-. congruence.
  - intros e. split; [discriminate|].
    intros (value & Hv & _). discriminate.
  - intros value chest Hv. discriminate.
Qed.

(** X9.  The tolerance of [from_config] stops at exceptions that are
    neither a [ValueError] nor an [OSError]: when a listed chest fails with
    one, the entries before it have been replayed, the load raises that
    exception, and neither the entries after it nor the saves are looked
    at; the same holds for a save, after all the chests were replayed. *)
Theorem load_stops_at_uncaught_error f h text d cv :
  snd (read_text f h) = Return text ->
  tomllib_loads text = Return d ->
  snd (__init__ h) = Return tt ->
  getitem d (u "ender_chests") = Return cv ->
  let h0 := fst (__init__ h) in
  (forall before c after e,
     iter cv = before ++ c :: after ->
     failures_caught load_chest before ->
     load_chest (Path_of c) = Raise e ->
     is_ValueError_or_OSError e = false ->
     from_config f h =
       ({| self := {| _ender_chests :=
                        replay_chests before (_ender_chests (self h0));
                      _saves := _saves (self h0) |};
           LOGGER := LOGGER h0 ++ chest_failures before;
           files := files h0 |}, Raise e))
  /\ (forall sv before s after e,
        failures_caught load_chest (iter cv) ->
        getitem d (u "saves") = Return sv ->
        iter sv = before ++ s :: after ->
        failures_caught load_save before ->
        load_save (Path_of s) = Raise e ->
        is_ValueError_or_OSError e = false ->
        from_config f h =
          ({| self := {| _ender_chests :=
                           replay_chests (iter cv) (_ender_chests (self h0));
                         _saves := replay_saves before (_saves (self h0)) |};
              LOGGER := (LOGGER h0 ++ chest_failures (iter cv))
                          ++ save_failures before;
              files := files h0 |}, Raise e)).
Proof.
  intros Hr Hl Hi Hc h0. subst h0.
  pose proof (read_text_heap f h) as Hh.
  unfold from_config, bind, call.
  destruct (read_text f h) as [h' o]. simpl in Hh, Hr. subst h' o.
  rewrite Hl. destruct (__init__ h) as [h0 o0]. simpl in Hi. subst o0.
  rewrite Hc. cbn [fst]. split.
  - intros before c after e Hcv Fb Hload He.
    rewrite Hcv, for_each_app, (chest_loop_run _ _ Fb).
    cbn [for_each]. unfold bind. rewrite load_chest_entry_run, Hload, He.
    reflexivity.
  - intros sv before s after e Fc Hs Hsv Fb Hload He.
    rewrite (chest_loop_run _ _ Fc), Hs.
    rewrite Hsv, for_each_app, (save_loop_run _ _ Fb).
    cbn [for_each]. unfold bind. rewrite load_save_entry_run, Hload, He.
    reflexivity.
Qed.

(** *** What the operations leave alone *)

Lemma keys_dict_set_extends {V} (d : dict V) k v :
  exists l, keys (dict_set d k v) = keys d ++ l /\ (List.length l <= 1)%nat.
Proof.
  induction d as [|[k' v'] d (l & IH & Hl)]; simpl.
  - exists [k]. split; [reflexivity|simpl; lia].
  - destruct (Path_eqb k' k); simpl.
    + exists []. rewrite app_nil_r. split; [reflexivity|simpl; lia].
    + exists l. rewrite IH. split; [reflexivity|exact Hl].
Qed.

Lemma log_grown_refl h : log_grown h h.
Proof. split; [exists []; now rewrite app_nil_r|reflexivity]. Qed.

Lemma preserves_log_grown_quiet {A} h0 (c : M A) :
  (forall h, LOGGER (fst (c h)) = LOGGER h /\ files (fst (c h)) = files h) ->
  preserves (log_grown h0) c.
Proof.
  intros Hc h [[l Hl] Hf]. destruct (Hc h) as [H1 H2].
  split; [exists l; congruence|congruence].
Qed.

Lemma register_enderchest_quiet p h :
  LOGGER (fst (register_enderchest p h)) = LOGGER h
  /\ files (fst (register_enderchest p h)) = files h.
Proof.
  rewrite register_enderchest_run. destruct (load_chest p); split; reflexivity.
Qed.

Lemma register_save_quiet p h :
  LOGGER (fst (register_save p h)) = LOGGER h
  /\ files (fst (register_save p h)) = files h.
Proof.
  rewrite register_save_run. destruct (load_save p); split; reflexivity.
Qed.

Lemma preserves_log_grown_error h0 fmt args :
  preserves (log_grown h0) (LOGGER_error fmt args).
Proof.
  intros h [[l Hl] Hf]. split; [|exact Hf].
  exists (l ++ [ERROR fmt args]). cbn. rewrite Hl. now rewrite app_assoc.
Qed.

Lemma preserves_log_grown_init h0 : preserves (log_grown h0) __init__.
Proof.
  unfold __init__. apply preserves_bind.
  { apply preserves_log_grown_quiet. intros h. split; reflexivity. }
  intros _. apply preserves_try.
  - destruct (getenv (u "MINECRAFT_ROOT")) as [[|c s]|];
      try apply preserves_ret.
    apply preserves_log_grown_quiet. apply register_enderchest_quiet.
  - intros e. apply preserves_log_grown_error.
Qed.

Lemma preserves_log_grown_from_config h0 f :
  preserves (log_grown h0) (from_config f).
Proof.
  unfold from_config.
  apply preserves_bind; [apply preserves_read_text|intros text].
  apply preserves_bind; [apply preserves_call|intros d].
  apply preserves_bind; [apply preserves_log_grown_init|intros _].
  apply preserves_bind; [apply preserves_call|intros cv].
  apply preserves_bind.
  { apply preserves_for_each. intros c. apply preserves_try.
    - apply preserves_log_grown_quiet. apply register_enderchest_quiet.
    - intros e. apply preserves_log_grown_error. }
  intros _.
  apply preserves_bind; [apply preserves_call|intros sv].
  apply preserves_bind; [|intros _; apply preserves_ret].
  apply preserves_for_each. intros s. apply preserves_try.
  - apply preserves_log_grown_quiet. apply register_save_quiet.
  - intros e. apply preserves_log_grown_error.
Qed.

(** X10.  No operation removes or moves an entry or a record.  A
    registration keeps the entries of its dictionary in their places and
    adds at most one at the end; it leaves the other dictionary, the log
    and the files alone.  The constructor and [from_config], whatever
    their outcome, only add records at the end of the log and touch no
    file. *)
Theorem operations_only_append h :
  (forall p,
     let h' := fst (register_enderchest p h) in
     (exists l, chest_keys h' = chest_keys h ++ l /\ (List.length l <= 1)%nat)
     /\ _saves (self h') = _saves (self h)
     /\ LOGGER h' = LOGGER h /\ files h' = files h)
  /\ (forall p,
        let h' := fst (register_save p h) in
        (exists l, save_keys h' = save_keys h ++ l /\ (List.length l <= 1)%nat)
        /\ _ender_chests (self h') = _ender_chests (self h)
        /\ LOGGER h' = LOGGER h /\ files h' = files h)
  /\ log_grown h (fst (__init__ h))
  /\ (forall f, log_grown h (fst (from_config f h))).
Proof.
  split; [|split; [|split]].
  - intros p. cbv zeta. rewrite register_enderchest_run.
    destruct (load_chest p) as [chest|e]; cbn [fst].
    + split; [apply keys_dict_set_extends|]. repeat split.
    + split; [|repeat split]. exists []. rewrite app_nil_r.
      split; [reflexivity|simpl; lia].
  - intros p. cbv zeta. rewrite register_save_run.
    destruct (load_save p) as [save|e]; cbn [fst].
    + split; [apply keys_dict_set_extends|]. repeat split.
    + split; [|repeat split]. exists []. rewrite app_nil_r.
      split; [reflexivity|simpl; lia].
  - apply preserves_log_grown_init, log_grown_refl.
  - intros f. apply preserves_log_grown_from_config, log_grown_refl.
Qed.

(** X11.  [register_save] looks at the directory of the path it is given
    and not at the name of the file: two paths that differ in their last
    component only, in a directory that is not the current one, load the
    same manifest and leave the same state. *)
Theorem manifest_name_is_ignored r dir name1 name2 h :
  r <> [] \/ dir <> [] ->
  let m1 := {| root_of := r; parts := dir ++ [name1] |} in
  let m2 := {| root_of := r; parts := dir ++ [name2] |} in
  load_save m1 = load_save m2 /\ register_save m1 h = register_save m2 h.
Proof.
  intros Hd m1 m2.
  assert (E : load_save m1 = load_save m2).
  { unfold load_save, expanduser, m1, m2. cbn [root_of parts].
    destruct r as [|x r].
    - destruct dir as [|first rest]; [now destruct Hd|].
      cbn [app]. destruct (startswith (u "~") first).
      + destruct (startswith (u "~") (os_path_expanduser first));
          [reflexivity|].
        unfold parent. cbn [parts root_of].
        rewrite !app_assoc.
        destruct ((parts (Path_of (os_path_expanduser first)) ++ rest) ++ [name1])
          eqn:E1; [now destruct (parts (Path_of (os_path_expanduser first)) ++ rest)|].
        destruct ((parts (Path_of (os_path_expanduser first)) ++ rest) ++ [name2])
          eqn:E2; [now destruct (parts (Path_of (os_path_expanduser first)) ++ rest)|].
        rewrite <- E1, <- E2, !removelast_last. reflexivity.
      + unfold parent. cbn [parts root_of].
        change (first :: rest ++ [name1]) with ((first :: rest) ++ [name1]).
        change (first :: rest ++ [name2]) with ((first :: rest) ++ [name2]).
        destruct ((first :: rest) ++ [name1]) eqn:E1; [discriminate|].
        destruct ((first :: rest) ++ [name2]) eqn:E2; [discriminate|].
        rewrite <- E1, <- E2, !removelast_last. reflexivity.
    - unfold parent. cbn [parts root_of].
      destruct (dir ++ [name1]) eqn:E1; [now destruct dir|].
      destruct (dir ++ [name2]) eqn:E2; [now destruct dir|].
      rewrite <- E1, <- E2, !removelast_last. reflexivity. }
  split; [exact E|]. now rewrite !register_save_run, E.
Qed.

End StoreMore.

(** ** Paths and their text *)

Section PathFacts.

Lemma split_sep_component cur x rest :
  ~ In sep x -> split_sep cur (x ++ rest) = split_sep (cur ++ x) rest.
Proof.
  revert cur; induction x as [|c x IH]; intros cur Hx.
  - now rewrite app_nil_r.
  - cbn [app split_sep].
    destruct (c =? sep) eqn:E.
    + apply N.eqb_eq in E. exfalso. apply Hx. now left.
    + rewrite IH by (intros H; apply Hx; now right).
      now rewrite <- app_assoc.
Qed.

Lemma split_sep_slash cur rest :
  split_sep cur (sep :: rest) = cur :: split_sep [] rest.
Proof. reflexivity. Qed.

Lemma split_sep_join l :
  l <> [] -> Forall (fun x => ~ In sep x) l ->
  split_sep [] (join [sep] l) = l.
Proof.
  induction l as [|x l IH]; intros Hl Hx; [now destruct Hl|].
  inversion Hx as [|? ? Hx1 Hx2]; subst.
  destruct l as [|y l].
  - cbn [join]. rewrite <- (app_nil_r x) at 1.
    now rewrite split_sep_component.
  - change (join [sep] (x :: y :: l)) with (x ++ sep :: join [sep] (y :: l)).
    rewrite split_sep_component by exact Hx1.
    rewrite split_sep_slash. cbn [app]. f_equal.
    apply IH; [discriminate|exact Hx2].
Qed.

Lemma split_sep_clean cur s :
  ~ In sep cur -> Forall (fun x => ~ In sep x) (split_sep cur s).
Proof.
  revert cur; induction s as [|c s IH]; intros cur Hc; cbn [split_sep].
  - now repeat constructor.
  - destruct (c =? sep) eqn:E.
    + constructor; [exact Hc|]. apply IH. intros [].
    + apply IH. intros H. apply in_app_or in H as [H|[H|[]]]; [tauto|].
      apply N.eqb_neq in E. congruence.
Qed.

Lemma filter_components l :
  Forall (fun x => is_component x = true /\ ~ In sep x) l ->
  filter is_component l = l.
Proof.
  induction 1 as [|x l [Hx _] _ IH]; [reflexivity|].
  cbn [filter]. now rewrite Hx, IH.
Qed.

(** The text of components starts with the first character of the first
    one, which is not a slash. *)
Lemma join_head x l :
  is_component x = true -> ~ In sep x ->
  exists c rest, join [sep] (x :: l) = c :: rest /\ (c =? sep) = false.
Proof.
  intros Hc Hs. destruct x as [|c x]; [discriminate|].
  exists c. destruct l as [|y l].
  - exists x. split; [reflexivity|].
    apply N.eqb_neq. intros ->. apply Hs. now left.
  - eexists. split; [reflexivity|].
    apply N.eqb_neq. intros ->. apply Hs. now left.
Qed.

Lemma Path_of_well_formed s : well_formed (Path_of s).
Proof.
  split.
  - cbn [Path_of root_of]. unfold splitroot.
    destruct s as [|a [|b [|c s]]]; auto;
      repeat match goal with
             | |- context [if ?b then _ else _] => destruct b
             end; auto.
  - cbn [Path_of parts]. apply Forall_forall. intros x Hx.
    apply filter_In in Hx as [Hx Hc]. split; [exact Hc|].
    pose proof (split_sep_clean [] s (fun H => H)) as H.
    rewrite Forall_forall in H. now apply H.
Qed.

Lemma Path_of_str_of p : well_formed p -> Path_of (str_of p) = p.
Proof.
  destruct p as [r t]. intros [Hr Ht]. cbn [root_of parts] in *.
  assert (Hs : Forall (fun x => ~ In sep x) t).
  { eapply Forall_impl; [|exact Ht]. now intros x [_ H]. }
  assert (Hf : filter is_component t = t) by now apply filter_components.
  unfold str_of. cbn [root_of parts].
  destruct Hr as [->|[->| ->]].
  - destruct t as [|x t]; [reflexivity|].
    inversion Ht as [|? ? [Hx1 Hx2] _]; subst.
    destruct (join_head x t Hx1 Hx2) as (c & rest & E & Hc).
    unfold Path_of. f_equal.
    + cbn [app]. rewrite E. unfold splitroot. now rewrite Hc.
    + cbn [app]. rewrite split_sep_join by (auto; discriminate). exact Hf.
  - unfold Path_of. f_equal.
    + cbn [app]. destruct t as [|x t]; [reflexivity|].
      inversion Ht as [|? ? [Hx1 Hx2] _]; subst.
      destruct (join_head x t Hx1 Hx2) as (c & rest & E & Hc).
      rewrite E. unfold splitroot. now rewrite N.eqb_refl, Hc.
    + cbn [app]. rewrite split_sep_slash. destruct t as [|x t]; [reflexivity|].
      rewrite split_sep_join by (auto; discriminate).
      cbn [filter]. exact Hf.
  - unfold Path_of. f_equal.
    + cbn [app]. destruct t as [|x t]; [reflexivity|].
      inversion Ht as [|? ? [Hx1 Hx2] _]; subst.
      destruct (join_head x t Hx1 Hx2) as (c & rest & E & Hc).
      rewrite E. unfold splitroot. now rewrite !N.eqb_refl, Hc.
    + cbn [app]. rewrite !split_sep_slash.
      destruct t as [|x t]; [reflexivity|].
      rewrite split_sep_join by (auto; discriminate).
      cbn [filter]. exact Hf.
Qed.

(** X12.  Every path built from a string is in normal form; the string of
    a path in normal form gives the path back, so that normalising twice is
    normalising once and two paths in normal form with the same string are
    the same path. *)
Theorem path_text_round_trip :
  (forall s, well_formed (Path_of s))
  /\ (forall p, well_formed p -> Path_of (str_of p) = p)
  /\ (forall s, Path_of (str_of (Path_of s)) = Path_of s)
  /\ (forall p q, well_formed p -> well_formed q ->
                  str_of p = str_of q -> p = q).
Proof.
  split; [apply Path_of_well_formed|].
  split; [apply Path_of_str_of|]. split.
  - intros s. apply Path_of_str_of, Path_of_well_formed.
  - intros p q Hp Hq E.
    rewrite <- (Path_of_str_of p Hp), <- (Path_of_str_of q Hq). now rewrite E.
Qed.

Lemma path_text_round_trip_witness :
  Path_of (str_of (P "//usr//local/./bin/")) = P "//usr//local/./bin/"
  /\ str_of (P "//usr//local/./bin/") = u "//usr/local/bin".
Proof.
  destruct path_text_round_trip as (T1 & T2 & _).
  split; [apply T2, T1|reflexivity].
Defined.

End PathFacts.

(** ** The chests through [write] and [from_config] *)

Section RoundTripFacts.
Context {W : World}.

(** X13.  The chests survive a round trip.  Let [h] be a store whose chest
    paths are in normal form and all load, and let the file hold, under
    ["ender_chests"], the array that [write] renders for [h].  Then, the
    constructor and the saves not raising, [from_config] returns a store
    that holds every chest path of [h], and no chest path other than those
    and the one of [$MINECRAFT_ROOT]. *)
Theorem chests_survive_round_trip h f h0 text d sv :
  Forall well_formed (chest_keys h) ->
  (forall k, In k (chest_keys h) -> exists v, load_chest k = Return v) ->
  snd (read_text f h0) = Return text ->
  tomllib_loads text = Return d ->
  getitem d (u "ender_chests")
  = Return (VSeq (sorted (set (map str_of (chest_keys h))))) ->
  getitem d (u "saves") = Return sv ->
  failures_caught load_save (iter sv) ->
  snd (__init__ h0) = Return tt ->
  let h' := fst (from_config f h0) in
  snd (from_config f h0) = Return tt
  /\ (forall p, In p (chest_keys h) -> In p (chest_keys h'))
  /\ (forall p, In p (chest_keys h') ->
                In p (chest_keys h) \/ In p (chest_keys (fst (__init__ h0)))).
Proof.
  intros Hwf Hload Hr Hl Hc Hs Fs Hi h'. subst h'.
  rewrite Forall_forall in Hwf.
  assert (Fc : failures_caught load_chest
                 (iter (VSeq (sorted (set (map str_of (chest_keys h))))))).
  { intros entry e Hin He. cbn [iter] in Hin.
    apply In_sorted_set, in_map_iff in Hin as (k & <- & Hk).
    rewrite Path_of_str_of in He by now apply Hwf.
    destruct (Hload k Hk) as [v Hv]. congruence. }
  rewrite (from_config_run _ _ _ _ _ _ Hr Hl Hi Hc Hs Fc Fs). cbv zeta.
  unfold chest_keys at 2 3. cbn [fst snd self _ender_chests iter].
  split; [reflexivity|]. split.
  - intros p Hp. destruct (Hload p Hp) as [v Hv].
    apply (proj2 (dict_get_In _ _)). exists v.
    rewrite <- (Path_of_str_of p) by now apply Hwf.
    apply replay_chests_registers.
    + apply In_sorted_set, in_map, Hp.
    + now rewrite Path_of_str_of by now apply Hwf.
  - intros p Hp. apply In_keys_replay_chests in Hp
      as [Hp|(c & chest & Hc' & <- & _)]; [now right|left].
    apply In_sorted_set, in_map_iff in Hc' as (k & <- & Hk).
    now rewrite Path_of_str_of by now apply Hwf.
Qed.

End RoundTripFacts.

(** ** The text of the writer *)

Section TextFacts.
Import Json.

Lemma hexdigit_printable d : d < 16 -> is_printable (hexdigit d) = true.
Proof.
  intros H.
  assert (In d (map N.of_nat (seq 0 16))) as Hin.
  { apply in_map_iff. exists (N.to_nat d). split; [lia|]. apply in_seq. lia. }
  simpl in Hin.
  repeat (destruct Hin as [<-|Hin]; [reflexivity|]). contradiction.
Qed.

Lemma escape_u_printable n : all_in is_printable (escape_u n).
Proof.
  unfold escape_u.
  repeat constructor; apply hexdigit_printable, JsonFacts.nibble_lt.
Qed.

Lemma all_in_app cls a b : all_in cls a -> all_in cls b -> all_in cls (a ++ b).
Proof. intros Ha Hb. apply Forall_app. now split. Qed.

Lemma escape_char_printable c : all_in is_printable (escape_char c).
Proof.
  unfold escape_char.
  destruct (is_plain c) eqn:Hp.
  { constructor; [|constructor]. unfold is_plain in Hp.
    apply andb_true_iff in Hp as [Hp _]. now apply andb_true_iff in Hp as [Hp _]. }
  repeat match goal with
         | |- context [if ?b then _ else _] =>
             destruct b;
             [first [apply escape_u_printable|now repeat constructor]|]
         end.
  apply all_in_app; apply escape_u_printable.
Qed.

Lemma dumps_printable s : all_in is_printable (dumps s).
Proof.
  unfold dumps. apply all_in_app; [repeat constructor|].
  apply all_in_app; [|repeat constructor].
  induction s as [|c s IH]; [constructor|].
  cbn [flat_map]. apply all_in_app; [apply escape_char_printable|exact IH].
Qed.

Lemma printable_text s : all_in is_printable s -> all_in is_text s.
Proof.
  apply Forall_impl. intros c Hc. unfold is_text. now rewrite Hc.
Qed.

Lemma array_section_text key entries :
  all_in is_printable key -> all_in is_text (array_section key entries).
Proof.
  intros Hk. unfold array_section.
  apply all_in_app; [now apply printable_text|].
  apply all_in_app; [now repeat constructor|].
  apply all_in_app; [now repeat constructor|].
  apply all_in_app; [|now repeat constructor].
  induction entries as [|e l IH]; [constructor|].
  cbn [flat_map]. apply all_in_app; [|exact IH].
  apply all_in_app; [now repeat constructor|].
  apply all_in_app; [apply printable_text, dumps_printable|].
  now repeat constructor.
Qed.

Lemma string_line_text key value :
  all_in is_printable key -> all_in is_text (string_line key value).
Proof.
  intros Hk. unfold string_line.
  apply all_in_app; [now apply printable_text|].
  apply all_in_app; [now repeat constructor|].
  apply all_in_app; [apply printable_text, dumps_printable|].
  now repeat constructor.
Qed.

(** X14.  Whatever the strings are, the quoted form of a string is made of
    printable ASCII characters; so the text [_to_toml] renders for a
    dictionary with printable keys, and the text [write] returns for any
    store, version and time, is made of printable ASCII characters and
    line feeds. *)
Theorem written_text_is_ascii :
  (forall s, all_in is_printable (dumps s))
  /\ (forall config_dict,
        Forall (fun item => all_in is_printable (fst item)) config_dict ->
        all_in is_text (_to_toml config_dict))
  /\ (forall (W : World) (h : Heap) text,
        snd (write None h) = Return text -> all_in is_text text).
Proof.
  assert (T : forall config_dict,
             Forall (fun item => all_in is_printable (fst item)) config_dict ->
             all_in is_text (_to_toml config_dict)).
  { intros d Hd. rewrite to_toml_eq.
    induction Hd as [|[key value] d Hk _ IH]; [constructor|].
    cbn [flat_map fst snd]. apply all_in_app; [|exact IH].
    destruct value; [now apply string_line_text|now apply array_section_text]. }
  split; [apply dumps_printable|]. split; [exact T|].
  intros W h text H. unfold write, bind, get_self, ret in H. cbn [snd] in H.
  injection H as <-. apply T. unfold as_dict_of.
  repeat constructor.
Qed.

Lemma written_text_is_ascii_witness :
  let W := home_world in
  all_in is_text
    (_to_toml (as_dict_of
                 (self (fst (register_enderchest (P "/a") blank))))).
Proof.
  intros W. destruct written_text_is_ascii as (_ & _ & T).
  apply (T W (fst (register_enderchest (P "/a") blank))). reflexivity.
Defined.

(** *** The writer's strings and the TOML parser *)

Lemma toml_plain c rest :
  is_plain c = true ->
  Toml.basic_string (c :: rest) = cons_opt c (Toml.basic_string rest).
Proof.
  unfold is_plain. intros H.
  apply andb_true_iff in H as [H Hb]. apply andb_true_iff in H as [H Hq].
  apply andb_true_iff in H as [Hlo Hhi].
  apply negb_true_iff in Hb, Hq. apply N.leb_le in Hlo, Hhi.
  cbn [Toml.basic_string]. rewrite Hq, Hb.
  destruct (c <? 32) eqn:E1; [apply N.ltb_lt in E1; lia|].
  destruct (c =? 127) eqn:E2; [apply N.eqb_eq in E2; lia|]. reflexivity.
Qed.

Lemma toml_simple e x rest :
  e <> 117 -> e <> 85 -> Toml.simple_escape e = Some x ->
  Toml.basic_string (backslash :: e :: rest)
  = cons_opt x (Toml.basic_string rest).
Proof.
  intros He1 He2 Hx. cbn [Toml.basic_string].
  change (backslash =? quote) with false.
  change (backslash =? backslash) with true. cbv iota.
  apply N.eqb_neq in He1, He2. rewrite He1, He2, Hx. reflexivity.
Qed.

Lemma toml_u h1 h2 h3 h4 uni rest :
  hex4 h1 h2 h3 h4 = Some uni ->
  Toml.basic_string (backslash :: 117 :: h1 :: h2 :: h3 :: h4 :: rest)
  = if Toml.is_scalar_value uni
    then cons_opt uni (Toml.basic_string rest) else None.
Proof.
  intros Hh. cbn [Toml.basic_string].
  change (backslash =? quote) with false.
  change (backslash =? backslash) with true.
  change (117 =? 117) with true. cbv iota. now rewrite Hh.
Qed.

Lemma bmp_scalar_is_scalar c :
  is_bmp_scalar c = true -> Toml.is_scalar_value c = true /\ c < 65536.
Proof.
  unfold is_bmp_scalar, Toml.is_scalar_value. intros H.
  apply andb_true_iff in H as [H1 H2]. rewrite H2.
  apply N.ltb_lt in H1. split; [|exact H1].
  rewrite andb_true_r. apply N.ltb_lt. lia.
Qed.

(** A character of the basic plane that is not a surrogate is read back. *)
Lemma toml_escape_char_bmp c rest :
  is_bmp_scalar c = true ->
  Toml.basic_string (escape_char c ++ rest)
  = cons_opt c (Toml.basic_string rest).
Proof.
  intros Hc. destruct (bmp_scalar_is_scalar c Hc) as [Hs Hlt].
  unfold escape_char.
  destruct (is_plain c) eqn:Hp; [now apply toml_plain|].
  destruct (c =? backslash) eqn:E1;
    [apply N.eqb_eq in E1; subst; now apply toml_simple|].
  destruct (c =? quote) eqn:E2;
    [apply N.eqb_eq in E2; subst; now apply toml_simple|].
  destruct (c =? 8) eqn:E3;
    [apply N.eqb_eq in E3; subst; now apply (toml_simple 98 8)|].
  destruct (c =? 12) eqn:E4;
    [apply N.eqb_eq in E4; subst; now apply (toml_simple 102 12)|].
  destruct (c =? 10) eqn:E5;
    [apply N.eqb_eq in E5; subst; now apply (toml_simple 110 10)|].
  destruct (c =? 13) eqn:E6;
    [apply N.eqb_eq in E6; subst; now apply (toml_simple 114 13)|].
  destruct (c =? 9) eqn:E7;
    [apply N.eqb_eq in E7; subst; now apply (toml_simple 116 9)|].
  apply N.ltb_lt in Hlt. rewrite Hlt. apply N.ltb_lt in Hlt.
  destruct (JsonFacts.hex4_escape_u c rest Hlt) as (h1 & h2 & h3 & h4 & E & Hh).
  rewrite E, (toml_u _ _ _ _ _ _ Hh), Hs. reflexivity.
Qed.

(** A surrogate, or a character outside the basic plane, is written as
    the escape of a surrogate, which the parser refuses. *)
Lemma toml_escape_char_other c rest :
  c < 1114112 -> is_bmp_scalar c = false ->
  Toml.basic_string (escape_char c ++ rest) = None.
Proof.
  intros Hc Hb. unfold escape_char.
  assert (Hrange : 55296 <= c).
  { unfold is_bmp_scalar in Hb. apply andb_false_iff in Hb as [Hb|Hb].
    - apply N.ltb_ge in Hb. lia.
    - apply negb_false_iff, andb_true_iff in Hb as [Hb _].
      now apply N.leb_le in Hb. }
  assert (Hplain : is_plain c = false).
  { unfold is_plain. destruct (c <=? 126) eqn:E;
      [apply N.leb_le in E; lia|]. now rewrite andb_false_r. }
  rewrite Hplain.
  repeat match goal with
         | |- context [if c =? ?k then _ else _] =>
             let E := fresh in
             destruct (c =? k) eqn:E; [apply N.eqb_eq in E; unfold backslash, quote in E; lia|]
         end.
  destruct (c <? 65536) eqn:E8.
  - apply N.ltb_lt in E8.
    destruct (JsonFacts.hex4_escape_u c rest E8) as (h1 & h2 & h3 & h4 & E & Hh).
    rewrite E, (toml_u _ _ _ _ _ _ Hh).
    assert (Toml.is_scalar_value c = false) as ->; [|reflexivity].
    unfold is_bmp_scalar in Hb. unfold Toml.is_scalar_value.
    apply N.ltb_lt in E8. rewrite E8 in Hb. cbn [andb] in Hb.
    rewrite Hb. apply andb_false_r.
  - apply N.ltb_ge in E8.
    destruct (JsonFacts.surrogates_of c (conj E8 Hc)) as (L1 & L2 & S1 & S2 & Ec).
    cbv zeta. rewrite <- app_assoc.
    match goal with
    | |- context [escape_u ?a ++ ?r] =>
        destruct (JsonFacts.hex4_escape_u a r L1) as (h1 & h2 & h3 & h4 & Eh & Hh);
        rewrite Eh, (toml_u _ _ _ _ _ _ Hh)
    end.
    match goal with
    | |- (if Toml.is_scalar_value ?a then _ else _) = _ =>
        assert (Toml.is_scalar_value a = false) as ->; [|reflexivity]
    end.
    unfold Toml.is_scalar_value. unfold is_high_surrogate in S1.
    apply andb_true_iff in S1 as [S1a S1b]. apply N.leb_le in S1b.
    rewrite S1a. cbn [andb].
    match goal with
    | |- (_ && negb (?a <=? 57343))%bool = false =>
        assert ((a <=? 57343) = true) as -> by (apply N.leb_le; lia)
    end.
    apply andb_false_r.
Qed.

Lemma toml_reads_dumps s t :
  code_points s ->
  Toml.basic_string (flat_map escape_char s ++ quote :: t)
  = if forallb is_bmp_scalar s then Some (s, t) else None.
Proof.
  induction s as [|c s IH]; intros Hs; [reflexivity|].
  cbn [flat_map forallb]. rewrite <- app_assoc.
  destruct (is_bmp_scalar c) eqn:Hc; cbn [andb].
  - rewrite toml_escape_char_bmp by exact Hc.
    rewrite IH by (intros x Hx; apply Hs; now right).
    destruct (forallb is_bmp_scalar s); reflexivity.
  - apply toml_escape_char_other; [apply Hs; now left|exact Hc].
Qed.

(** X15.  The TOML parser reads the quoted form of a string back as that
    string exactly when every character is in the basic plane and is not
    a surrogate; the quoted form of any other string (one with a character
    above U+FFFF, say) is refused, as a string and as an element of an
    array. *)
Theorem toml_reads_back_basic_plane_only s t :
  code_points s ->
  Toml.value (dumps s ++ t)
  = (if forallb is_bmp_scalar s then Some (VStr s, t) else None)
  /\ (forallb is_bmp_scalar s = false ->
      forall fuel acc, Toml.array_items fuel (dump_entry s ++ t) acc = None).
Proof.
  intros Hs. split.
  - unfold Toml.value, dumps. cbn [app].
    change (quote =? quote) with true. cbv iota.
    rewrite <- app_assoc. cbn [app].
    rewrite toml_reads_dumps by exact Hs.
    destruct (forallb is_bmp_scalar s); reflexivity.
  - intros Hb [|fuel] acc; [reflexivity|].
    unfold dump_entry, dumps. cbn [Toml.array_items].
    rewrite <- !app_assoc.
    change (Toml.skip_ws_nl (nl ++ u "    " ++ [quote] ++ ?x))
      with (Toml.skip_ws_nl ([quote] ++ x)).
    cbn [app Toml.skip_ws_nl].
    change (Toml.is_ws quote || (quote =? 10)) with false.
    cbv iota. change (quote =? 93) with false.
    change (quote =? quote) with true. cbv iota.
    rewrite toml_reads_dumps by exact Hs. now rewrite Hb.
Qed.

Lemma toml_reads_back_basic_plane_only_witness :
  Toml.value (dumps (u "/home/steve/minecraft"))
  = Some (VStr (u "/home/steve/minecraft"), [])
  /\ Toml.value (dumps (u "/home/steve/" ++ [128512])) = None.
Proof.
  split.
  - rewrite <- (app_nil_r (dumps (u "/home/steve/minecraft"))).
    apply (toml_reads_back_basic_plane_only (u "/home/steve/minecraft") []).
    intros c Hc. simpl in Hc.
    repeat (destruct Hc as [<-|Hc]; [reflexivity|]). contradiction.
  - rewrite <- (app_nil_r (dumps (u "/home/steve/" ++ [128512]))).
    apply (toml_reads_back_basic_plane_only (u "/home/steve/" ++ [128512]) []).
    intros c Hc. simpl in Hc.
    repeat (destruct Hc as [<-|Hc]; [reflexivity|]). contradiction.
Defined.

End TextFacts.

(** ** Saves and odd values through [from_config] *)

Section ReloadFacts.
Context {W : World}.

(** X16.  A save is written as its root, and the load takes what is
    written for the path of a manifest file: for a root in normal form
    with a slash at its start, the entry is loaded from the manifest of
    the parent directory of the root, and the replay registers the root of
    that manifest, or nothing when there is none. *)
Theorem written_save_reloads_from_parent r :
  well_formed r -> root_of r <> [] ->
  load_save (Path_of (str_of r)) = GSB_Manifest_of (parent r)
  /\ forall d,
       replay_save d (str_of r) =
         match GSB_Manifest_of (parent r) with
         | Return save => dict_set d (root save) save
         | Raise _ => d
         end.
Proof.
  intros Hwf Hr.
  assert (E : load_save (Path_of (str_of r)) = GSB_Manifest_of (parent r)).
  { rewrite Path_of_str_of by exact Hwf. unfold load_save, expanduser.
    destruct (root_of r); [now destruct Hr|reflexivity]. }
  split; [exact E|]. intros d. unfold replay_save. now rewrite E.
Qed.

(** X17.  A value that is a string where an array is expected is read
    character by character: the chests of the loaded store are then that
    of [$MINECRAFT_ROOT] and those of the one-character paths, made of
    the characters of the string, that load. *)
Theorem string_value_is_read_by_character f h text d s sv :
  snd (read_text f h) = Return text ->
  tomllib_loads text = Return d ->
  snd (__init__ h) = Return tt ->
  getitem d (u "ender_chests") = Return (VStr s) ->
  getitem d (u "saves") = Return sv ->
  failures_caught load_chest (map (fun c => [c]) s) ->
  failures_caught load_save (iter sv) ->
  let h' := fst (from_config f h) in
  snd (from_config f h) = Return tt
  /\ forall p,
       In p (chest_keys h') <->
       In p (chest_keys (fst (__init__ h)))
       \/ exists c chest,
            In c s /\ p = Path_of [c] /\ load_chest p = Return chest.
Proof.
  intros Hr Hl Hi Hc Hs Fc Fs h'. subst h'.
  rewrite (from_config_run _ _ _ _ _ _ Hr Hl Hi Hc Hs Fc Fs). cbv zeta.
  split; [reflexivity|]. intros p.
  unfold chest_keys at 1. cbn [fst self _ender_chests iter].
  rewrite In_keys_replay_chests. split.
  - intros [H|(e & chest & He & <- & Hload)]; [now left|right].
    apply in_map_iff in He as (c & <- & Hc'). exists c, chest. auto.
  - intros [H|(c & chest & Hc' & -> & Hload)]; [now left|right].
    exists [c], chest. split; [|auto].
    apply in_map_iff. exists c. auto.
Qed.

End ReloadFacts.

(** ** The further properties on concrete stores *)

Section MoreExamples.

Ltac caught' :=
  intros entry e Hin Hload; simpl in Hin;
  repeat (destruct Hin as [<-|Hin]; [vm_compute in Hload|]);
  try contradiction;
  first [discriminate Hload | injection Hload as <-; reflexivity].

(** The constructor with [$MINECRAFT_ROOT] in the home of an unknown
    user. *)
Lemma constructor_outcomes_witness :
  let W := ghost_world in
  snd (__init__ blank)
  = Raise (RuntimeError (u "Could not determine home directory.")).
Proof.
  intros W.
  destruct (@constructor_outcomes W blank) as (_ & _ & _ & _ & T & _).
  apply T. exists (u "~ghost/minecraft").
  split; [reflexivity|]. split; [discriminate|]. split; reflexivity.
Defined.

(** A file that lists the home of an unknown user between two chests. *)
Lemma load_stops_at_uncaught_error_witness :
  let W := home_world in
  let h := with_file cfg
             (array_section (u "ender_chests")
                            [u "/good"; u "~ghost/mc"; u "/a"]
              ++ array_section (u "saves") []) in
  snd (from_config cfg h)
  = Raise (RuntimeError (u "Could not determine home directory."))
  /\ chest_keys (fst (from_config cfg h)) = [P "/good"].
Proof.
  intros W h.
  destruct (@load_stops_at_uncaught_error W cfg h
              (array_section (u "ender_chests")
                             [u "/good"; u "~ghost/mc"; u "/a"]
               ++ array_section (u "saves") [])
              [(u "ender_chests", VSeq [u "/good"; u "~ghost/mc"; u "/a"]);
               (u "saves", VSeq [])]
              (VSeq [u "/good"; u "~ghost/mc"; u "/a"])) as (T & _);
    try (vm_compute; reflexivity).
  rewrite (T [u "/good"] (u "~ghost/mc") [u "/a"]
             (RuntimeError (u "Could not determine home directory.")));
    try (vm_compute; reflexivity); try caught'.
  split; vm_compute; reflexivity.
Defined.

(** Two names in the directory [/saves/world]. *)
Lemma manifest_name_is_ignored_witness :
  let W := home_world in
  register_save (P "/saves/world/.gsb_manifest") blank
  = register_save (P "/saves/world/README.txt") blank.
Proof.
  intros W.
  apply (@manifest_name_is_ignored W [sep] [u "saves"; u "world"]
           (u ".gsb_manifest") (u "README.txt") blank).
  left. discriminate.
Defined.

(** The chests [/b] and [/a], written and loaded. *)
Lemma chests_survive_round_trip_witness :
  let W := home_world in
  let h := fst ((register_enderchest (P "/b") ;;
                 register_enderchest (P "/a")) blank) in
  let h0 := fst (write (Some cfg) h) in
  In (P "/b") (chest_keys (fst (from_config cfg h0)))
  /\ In (P "/a") (chest_keys (fst (from_config cfg h0))).
Proof.
  intros W h h0.
  destruct (@chests_survive_round_trip W h cfg h0
              (_to_toml (as_dict_of (self h)))
              [(u "generated_by_enderchest_gui", VStr (u "0.1.0"));
               (u "last_modified", VStr (u "2024-02-29 12:00:00.000000"));
               (u "ender_chests", VSeq [u "/a"; u "/b"]);
               (u "saves", VSeq [])]
              (VSeq [])) as (_ & T & _);
    try (vm_compute; reflexivity); try caught'.
  - change (chest_keys h) with [P "/b"; P "/a"].
    constructor; [apply Path_of_well_formed|].
    constructor; [apply Path_of_well_formed|constructor].
  - intros k Hk. change (chest_keys h) with [P "/b"; P "/a"] in Hk.
    destruct Hk as [<-|[<-|[]]].
    + exists (P "/b/EnderChest/enderchest.cfg"). reflexivity.
    + exists (P "/a/EnderChest/enderchest.cfg"). reflexivity.
  - split; apply T; simpl; auto.
Defined.

(** The save of [/saves/world], whose parent holds a repository too. *)
Lemma written_save_reloads_from_parent_witness :
  let W := home_world in
  load_save (Path_of (str_of (P "/saves/world"))) = Return (P "/saves").
Proof.
  intros W.
  destruct (@written_save_reloads_from_parent W (P "/saves/world")) as (T & _).
  - apply Path_of_well_formed.
  - discriminate.
  - rewrite T. reflexivity.
Defined.

(** A file with [ender_chests = "/a"]: the slash and the letter are tried,
    not the chest [/a]. *)
Lemma string_value_is_read_by_character_witness :
  let W := home_world in
  let h := with_file cfg
             (_to_toml [(u "ender_chests", VStr (u "/a"));
                        (u "saves", VSeq [])]) in
  ~ In (P "/a") (chest_keys (fst (from_config cfg h))).
Proof.
  intros W h.
  destruct (@string_value_is_read_by_character W cfg h
              (_to_toml [(u "ender_chests", VStr (u "/a"));
                         (u "saves", VSeq [])])
              [(u "ender_chests", VStr (u "/a")); (u "saves", VSeq [])]
              (u "/a") (VSeq [])) as (_ & T);
    try (vm_compute; reflexivity); try caught'.
  intros H. apply T in H as [H|(c & chest & Hc & Hp & Hl)].
  - vm_compute in H. exact H.
  - simpl in Hc. destruct Hc as [<-|[<-|[]]]; vm_compute in Hp; discriminate Hp.
Defined.

End MoreExamples.

(** ** The TOML parser on the text of the writer *)

Section ParserFacts.
Import Json.

Lemma skip_ws_nl_stop c s :
  (Toml.is_ws c || (c =? 10))%bool = false ->
  Toml.skip_ws_nl (c :: s) = c :: s.
Proof. intros H. cbn [Toml.skip_ws_nl]. now rewrite H. Qed.

Lemma span_all p key rest :
  all_in p key ->
  match rest with c :: _ => p c = false | [] => True end ->
  Toml.span p (key ++ rest) = (key, rest).
Proof.
  induction 1 as [|c key Hc _ IH]; intros Hr.
  - destruct rest as [|c r]; [reflexivity|]. cbn [app Toml.span]. now rewrite Hr.
  - cbn [app Toml.span]. rewrite Hc, (IH Hr). reflexivity.
Qed.

Lemma bare_not_blank c :
  Toml.is_bare_key_char c = true ->
  (Toml.is_ws c || (c =? 10))%bool = false.
Proof.
  unfold Toml.is_bare_key_char, Toml.is_ws, is_digit. intros H.
  destruct (c =? 32) eqn:E1; [apply N.eqb_eq in E1; subst; discriminate H|].
  destruct (c =? 9) eqn:E2; [apply N.eqb_eq in E2; subst; discriminate H|].
  destruct (c =? 10) eqn:E3; [apply N.eqb_eq in E3; subst; discriminate H|].
  reflexivity.
Qed.

(** One statement [key = value] followed by a line end: the parser adds
    the key when it reads the value, and stops when it does not. *)
Lemma statements_step fuel key valtext rest acc :
  bare_key key ->
  Toml.has_key acc key = false ->
  Toml.skip_ws (valtext ++ nl ++ rest) = valtext ++ nl ++ rest ->
  Toml.statements (S fuel) (key ++ u " = " ++ valtext ++ nl ++ rest) acc =
    match Toml.value (valtext ++ nl ++ rest) with
    | Some (v, s3) =>
        match Toml.skip_ws s3 with
        | [] => Return (acc ++ [(key, v)])
        | c :: s4 =>
            if c =? 10
            then Toml.statements fuel s4 (acc ++ [(key, v)])
            else Toml.decode_error
        end
    | None => Toml.decode_error
    end.
Proof.
  intros [Hne Hk] Hacc Hskip.
  destruct key as [|k0 key]; [now destruct Hne|].
  inversion Hk as [|? ? Hk0 Hk']; subst.
  cbn [Toml.statements app].
  rewrite (skip_ws_nl_stop _ _ (bare_not_blank _ Hk0)).
  change (k0 :: key ++ u " = " ++ valtext ++ nl ++ rest)
    with ((k0 :: key) ++ u " = " ++ valtext ++ nl ++ rest).
  rewrite (span_all Toml.is_bare_key_char (k0 :: key)
             (u " = " ++ valtext ++ nl ++ rest) Hk eq_refl).
  change (Toml.skip_ws (u " = " ++ ?x)) with (61 :: 32 :: x).
  cbv iota. change (61 =? 61) with true. rewrite Hacc. cbn [andb negb].
  change (Toml.skip_ws (32 :: ?x)) with (Toml.skip_ws x).
  rewrite Hskip. reflexivity.
Qed.

Lemma toml_array_items entries :
  forall fuel acc t,
    Forall code_points entries ->
    (List.length entries < fuel)%nat ->
    Toml.array_items fuel
      (flat_map dump_entry entries ++ nl ++ u "]" ++ t) acc
    = if forallb (forallb is_bmp_scalar) entries
      then Some (acc ++ entries, t) else None.
Proof.
  induction entries as [|e l IH]; intros fuel acc t Hc Hf.
  - destruct fuel as [|fuel]; [inversion Hf|].
    cbn [flat_map app forallb]. now rewrite app_nil_r.
  - destruct fuel as [|fuel]; [inversion Hf|].
    inversion Hc as [|? ? He Hl]; subst.
    cbn [flat_map forallb]. unfold dump_entry at 1, dumps.
    rewrite <- ?app_assoc. cbn [Toml.array_items].
    change (Toml.skip_ws_nl (nl ++ u "    " ++ [quote] ++ ?x))
      with (quote :: x).
    cbv iota. change (quote =? 93) with false.
    change (quote =? quote) with true. cbv iota.
    change ([quote] ++ ?x) with (quote :: x).
    rewrite toml_reads_dumps by exact He.
    destruct (forallb is_bmp_scalar e); cbn [andb]; [|reflexivity].
    change (Toml.skip_ws_nl (u "," ++ ?x)) with (44 :: x).
    cbv iota. change (44 =? 44) with true. cbv iota.
    rewrite IH; [|exact Hl|simpl in Hf; lia].
    destruct (forallb (forallb is_bmp_scalar) l); [|reflexivity].
    now rewrite <- app_assoc.
Qed.


Lemma array_section_raw key entries :
  array_section key entries =
    key ++ u " = " ++ (u "[" ++ flat_map dump_entry entries ++ nl ++ u "]") ++ nl.
Proof.
  unfold array_section, dump_entry.
  change (u " = [") with (u " = " ++ u "[").
  rewrite <- !app_assoc. do 3 f_equal.
  rewrite (app_assoc _ nl).
  rewrite (flat_map_shift_nl (fun e => u "    " ++ dumps e ++ u ",")).
  rewrite <- app_assoc. do 2 f_equal.
  apply flat_map_ext. intros e. now rewrite <- !app_assoc.
Qed.

Lemma length_dump_entries entries :
  (List.length entries <= List.length (flat_map dump_entry entries))%nat.
Proof.
  induction entries as [|e l IH]; [reflexivity|].
  cbn [flat_map]. rewrite length_app. unfold dump_entry at 1.
  cbn [List.length app nl]. lia.
Qed.

Lemma toml_value_dumps s t :
  code_points s ->
  Toml.value (dumps s ++ t)
  = if forallb is_bmp_scalar s then Some (VStr s, t) else None.
Proof.
  intros Hs. unfold Toml.value, dumps. cbn [app].
  change (quote =? quote) with true. cbv iota.
  rewrite <- app_assoc. cbn [app].
  rewrite toml_reads_dumps by exact Hs.
  destruct (forallb is_bmp_scalar s); reflexivity.
Qed.

Lemma toml_value_array entries t :
  Forall code_points entries ->
  Toml.value ((u "[" ++ flat_map dump_entry entries ++ nl ++ u "]") ++ t)
  = if forallb (forallb is_bmp_scalar) entries
    then Some (VSeq entries, t) else None.
Proof.
  intros Hc. rewrite <- !app_assoc.
  change (u "[" ++ ?x) with (91 :: x). cbn [Toml.value].
  change (91 =? quote) with false. change (91 =? 91) with true. cbv iota.
  rewrite toml_array_items.
  - destruct (forallb (forallb is_bmp_scalar) entries); reflexivity.
  - exact Hc.
  - rewrite length_app. pose proof (length_dump_entries entries). lia.
Qed.

Lemma has_key_fresh acc k :
  ~ In k (map fst acc) -> Toml.has_key acc k = false.
Proof.
  unfold Toml.has_key. induction acc as [|[k' v] acc IH]; [reflexivity|].
  cbn [map fst existsb In]. intros H.
  destruct (str_eqb k' k) eqn:E.
  - apply str_eqb_eq in E. tauto.
  - apply IH. tauto.
Qed.

Lemma forallb_same {A} (p : A -> bool) l l' :
  (forall x, In x l <-> In x l') -> forallb p l = forallb p l'.
Proof.
  intros H. destruct (forallb p l) eqn:E; symmetry.
  - rewrite forallb_forall in *. intros x Hx. apply E, H, Hx.
  - destruct (forallb p l') eqn:E'; [|reflexivity].
    rewrite <- E. symmetry. rewrite forallb_forall in *.
    intros x Hx. apply E', H, Hx.
Qed.

Lemma written_value_plane v :
  value_in_basic_plane (written_value v) = value_in_basic_plane v.
Proof.
  destruct v as [s|l]; [reflexivity|]. cbn.
  apply forallb_same. intros x. apply In_sorted_set.
Qed.

(** One key of the writer, read by the parser. *)
Lemma statements_item fuel item rest acc :
  bare_key (fst item) ->
  ~ In (fst item) (map fst acc) ->
  value_code_points (snd item) ->
  Toml.statements (S fuel) (item_text item ++ rest) acc
  = if value_in_basic_plane (snd item)
    then Toml.statements fuel rest (acc ++ [written_item item])
    else Toml.decode_error.
Proof.
  destruct item as [k [s|l]]; cbn [fst snd]; intros Hk Hacc Hc;
    unfold item_text, written_item; cbn [fst snd written_value].
  - unfold string_line. rewrite <- !app_assoc.
    rewrite statements_step;
      [|exact Hk|now apply has_key_fresh|reflexivity].
    rewrite toml_value_dumps by exact Hc. cbn [value_in_basic_plane].
    destruct (forallb is_bmp_scalar s); reflexivity.
  - rewrite array_section_raw. rewrite <- (app_assoc k), <- (app_assoc (u " = ")).
    rewrite <- (app_assoc _ nl rest).
    rewrite (statements_step fuel k
               (u "[" ++ flat_map dump_entry (sorted (set l)) ++ nl ++ u "]")
               rest acc Hk (has_key_fresh _ _ Hacc) eq_refl).
    rewrite toml_value_array.
    + rewrite <- (written_value_plane (VSeq l)). cbn [written_value value_in_basic_plane].
      destruct (forallb (forallb is_bmp_scalar) (sorted (set l))); reflexivity.
    + unfold value_code_points in Hc. apply Forall_forall. intros x Hx.
      rewrite Forall_forall in Hc. apply Hc. apply In_sorted_set. exact Hx.
Qed.

Lemma statements_items items :
  forall fuel acc,
    (List.length items < fuel)%nat ->
    Forall (fun item => bare_key (fst item)) items ->
    NoDup (map fst acc ++ map fst items) ->
    Forall (fun item => value_code_points (snd item)) items ->
    Toml.statements fuel (flat_map item_text items) acc
    = if forallb (fun item => value_in_basic_plane (snd item)) items
      then Return (acc ++ map written_item items)
      else Toml.decode_error.
Proof.
  induction items as [|item items IH]; intros fuel acc Hf Hk Hd Hc;
    (destruct fuel as [|fuel]; [inversion Hf|]).
  - cbn. now rewrite app_nil_r.
  - inversion Hk as [|? ? Hk1 Hk2]; subst.
    inversion Hc as [|? ? Hc1 Hc2]; subst.
    cbn [flat_map forallb map].
    rewrite statements_item; [|exact Hk1| |exact Hc1].
    2:{ apply NoDup_remove_2 in Hd. intros H. apply Hd.
        apply in_or_app. now left. }
    destruct (value_in_basic_plane (snd item)); cbn [andb]; [|reflexivity].
    rewrite IH; [|simpl in Hf; lia|exact Hk2| |exact Hc2].
    + destruct (forallb _ items); [|reflexivity].
      now rewrite <- app_assoc.
    + rewrite map_app. cbn [map written_item fst]. rewrite <- app_assoc.
      exact Hd.
Qed.

Lemma length_items_text items :
  (List.length items <= List.length (flat_map item_text items))%nat.
Proof.
  induction items as [|[k v] l IH]; [reflexivity|].
  cbn [flat_map]. rewrite length_app.
  assert (1 <= List.length (item_text (k, v)))%nat; [|simpl; lia].
  unfold item_text. cbn [fst snd].
  destruct v; unfold string_line, array_section;
    rewrite !length_app; cbn [List.length nl]; lia.
Qed.

(** The text of the writer holds no carriage return, so that the parser
    replaces nothing in it. *)
Lemma replace_crlf_id s : ~ In 13 s -> Toml.replace_crlf s = s.
Proof.
  induction s as [|c s IH]; intros H; [reflexivity|].
  assert (Hc : (c =? 13) = false).
  { apply N.eqb_neq. intros ->. apply H. now left. }
  assert (Hs : Toml.replace_crlf s = s).
  { apply IH. intros Hin. apply H. now right. }
  destruct s as [|d s]; [reflexivity|].
  change (Toml.replace_crlf (c :: d :: s))
    with (if (c =? 13) && (d =? 10) then 10 :: Toml.replace_crlf s
          else c :: Toml.replace_crlf (d :: s)).
  rewrite Hc. cbn [andb]. now rewrite Hs.
Qed.

Lemma bare_key_printable k : bare_key k -> all_in is_printable k.
Proof.
  intros [_ H]. revert H. apply Forall_impl. intros c Hc.
  unfold Toml.is_bare_key_char, is_digit in Hc. unfold is_printable.
  repeat (apply orb_true_iff in Hc as [Hc|Hc]);
    try (apply andb_true_iff in Hc as [H1 H2]; apply N.leb_le in H1, H2);
    try apply N.eqb_eq in Hc;
    apply andb_true_iff; split; apply N.leb_le; lia.
Qed.

Lemma items_text_no_cr items :
  Forall (fun item => bare_key (fst item)) items ->
  ~ In 13 (flat_map item_text items).
Proof.
  intros Hk Hin. apply in_flat_map in Hin as ([k v] & Hi & Hin).
  rewrite Forall_forall in Hk. apply Hk, bare_key_printable in Hi.
  cbn [fst] in Hi. unfold item_text in Hin. cbn [fst snd] in Hin.
  assert (Ht : all_in is_text (match v with
                               | VStr s => string_line k s
                               | VSeq l => array_section k (sorted (set l))
                               end)).
  { destruct v; [now apply string_line_text|now apply array_section_text]. }
  unfold all_in in Ht. rewrite Forall_forall in Ht.
  apply Ht in Hin. discriminate Hin.
Qed.

Lemma loads_to_toml items :
  Forall (fun item => bare_key (fst item)) items ->
  NoDup (map fst items) ->
  Forall (fun item => value_code_points (snd item)) items ->
  Toml.loads (_to_toml items)
  = if forallb (fun item => value_in_basic_plane (snd item)) items
    then Return (map written_item items)
    else Toml.decode_error.
Proof.
  intros Hk Hd Hc. unfold Toml.loads. cbv zeta. rewrite to_toml_eq.
  change (flat_map _ items) with (flat_map item_text items).
  rewrite replace_crlf_id by now apply items_text_no_cr.
  rewrite statements_items; try assumption; [reflexivity|].
  pose proof (length_items_text items). lia.
Qed.

(** X18.  The TOML parser and the writer agree on a dictionary with bare,
    distinct keys exactly when every string is made of characters of the
    basic plane that are not surrogates: the text [_to_toml] renders is
    then read back as the same keys in the same order, with each string as
    it was and each array sorted and without duplicates; with any other
    string in it, the whole text is refused. *)
Theorem toml_parser_reads_writer items :
  Forall (fun item => bare_key (fst item)) items ->
  NoDup (map fst items) ->
  Forall (fun item => value_code_points (snd item)) items ->
  Toml.loads (_to_toml items)
  = if forallb (fun item => value_in_basic_plane (snd item)) items
    then Return (map written_item items)
    else Raise (TOMLDecodeError (u "Invalid statement")).
Proof.
  intros Hk Hd Hc. unfold Toml.loads. cbv zeta. rewrite to_toml_eq.
  change (flat_map _ items) with (flat_map item_text items).
  rewrite replace_crlf_id by now apply items_text_no_cr.
  rewrite statements_items; try assumption.
  - reflexivity.
  - pose proof (length_items_text items). lia.
Qed.


Lemma value_code_points_check v :
  value_code_pointsb v = true -> value_code_points v.
Proof.
  destruct v as [s|l]; cbn; intros H.
  - intros c Hc. rewrite forallb_forall in H. apply N.ltb_lt. now apply H.
  - apply Forall_forall. intros s Hs c Hc.
    rewrite forallb_forall in H. specialize (H s Hs).
    rewrite forallb_forall in H. apply N.ltb_lt. now apply H.
Qed.

Lemma as_dict_keys {W : World} (config : Config) :
  Forall (fun item => bare_key (fst item)) (as_dict_of config)
  /\ NoDup (map fst (as_dict_of config)).
Proof.
  split.
  - unfold as_dict_of.
    repeat (constructor; [split; [discriminate|now repeat constructor]|]).
    constructor.
  - unfold as_dict_of. cbn [map fst].
    repeat constructor; simpl; intros H;
      repeat (destruct H as [H|H]; [discriminate H|]); exact H.
Qed.

End ParserFacts.

Section ReloadParserFacts.
Context {W : World}.

(** X19.  Write a store to a file and load the file, in a world whose
    TOML parser reads the text written as the model of the parser does.
    If a string of the store (a path, the version or the time) holds a
    character outside the basic plane, or a surrogate, the load raises
    [TOMLDecodeError] and registers nothing: the file [write] made cannot
    be read.  Otherwise the file is read and parsed, and lists the sorted
    strings of the chest paths and of the save roots. *)
Theorem written_file_reloads_in_basic_plane_only f h :
  write_error f = None -> read_error f = None ->
  Forall (fun item => value_code_points (snd item)) (as_dict_of (self h)) ->
  reads_as_modelled (_to_toml (as_dict_of (self h))) ->
  let h1 := fst (write (Some f) h) in
  (store_in_basic_plane (self h) = false ->
   exists msg, from_config f h1 = (h1, Raise (TOMLDecodeError msg)))
  /\ (store_in_basic_plane (self h) = true ->
      exists text d,
        snd (read_text f h1) = Return text
        /\ tomllib_loads text = Return d
        /\ getitem d (u "ender_chests")
           = Return (VSeq (sorted (set (map str_of (chest_keys h)))))
        /\ getitem d (u "saves")
           = Return (VSeq (sorted (set (map str_of (save_keys h)))))).
Proof.
  intros Hw Hr Hc Hp h1. unfold reads_as_modelled in Hp.
  destruct (as_dict_keys (self h)) as [Hk Hd].
  pose proof (loads_to_toml _ Hk Hd Hc) as Hl.
  fold (store_in_basic_plane (self h)) in Hl. rewrite Hl in Hp.
  assert (Hread : read_text f h1 = (h1, Return (_to_toml (as_dict_of (self h))))).
  { subst h1. unfold write, bind, get_self, write_text, ret. rewrite Hw.
    cbn [fst]. unfold read_text. rewrite Hr. cbn [files].
    now rewrite dict_get_dict_set. }
  split; intros Hb; rewrite Hb in Hp.
  - destruct Hp as [msg Hp]. exists msg.
    unfold from_config, bind, call. rewrite Hread, Hp. reflexivity.
  - exists (_to_toml (as_dict_of (self h))),
           (map written_item (as_dict_of (self h))).
    rewrite Hread, Hp. repeat split; reflexivity.
Qed.

End ReloadParserFacts.

Section ParserExamples.

Lemma toml_parser_reads_writer_witness :
  Toml.loads (_to_toml [(u "name", VStr (u "steve"));
                        (u "ender_chests", VSeq [u "/b"; u "/a"; u "/b"])])
  = Return [(u "name", VStr (u "steve"));
            (u "ender_chests", VSeq [u "/a"; u "/b"])].
Proof.
  apply (toml_parser_reads_writer
           [(u "name", VStr (u "steve"));
            (u "ender_chests", VSeq [u "/b"; u "/a"; u "/b"])]).
  - repeat (constructor; [split; [discriminate|now repeat constructor]|]).
    constructor.
  - repeat constructor; simpl; intros H;
      repeat (destruct H as [H|H]; [discriminate H|]); exact H.
  - repeat (constructor; [apply value_code_points_check; reflexivity|]).
    constructor.
Defined.

(** The store of the chest in the directory named with U+1F600, written
    and loaded. *)
Lemma written_file_reloads_in_basic_plane_only_witness :
  let W := emoji_world in
  let h := fst (register_enderchest
                  (Path_of (u "/home/steve/" ++ [128512])) blank) in
  chest_keys h = [Path_of (u "/home/steve/" ++ [128512])]
  /\ exists msg,
       snd (from_config cfg (fst (write (Some cfg) h)))
       = Raise (TOMLDecodeError msg).
Proof.
  intros W h. split; [reflexivity|].
  assert (Hc : Forall (fun item => value_code_points (snd item))
                      (as_dict_of (self h))).
  { repeat (constructor; [apply value_code_points_check; reflexivity|]).
    constructor. }
  assert (Hp : reads_as_modelled (_to_toml (as_dict_of (self h)))).
  { unfold reads_as_modelled.
    destruct (Toml.loads (_to_toml (as_dict_of (self h)))) as [d|e] eqn:E;
      [exact E|].
    exists (u "Invalid statement"). vm_compute. reflexivity. }
  destruct (@written_file_reloads_in_basic_plane_only W cfg h
              eq_refl eq_refl Hc Hp) as [T _].
  destruct (T eq_refl) as [msg Hm]. exists msg. now rewrite Hm.
Defined.

End ParserExamples.

(** ** Keys and what they hold *)

Section ConsistencyFacts.
Context {W : World}.

Lemma Forall_dict_set {V} (P : Path * V -> Prop) (d : dict V) k v :
  Forall P d -> P (k, v) -> Forall P (dict_set d k v).
Proof.
  intros Hd Hk. induction Hd as [|[k' v'] d Hx Hd IH]; cbn [dict_set].
  - now repeat constructor.
  - destruct (Path_eqb k' k) eqn:E.
    + apply Path_eqb_eq in E. rewrite E. now constructor.
    + now constructor.
Qed.

Lemma consistent_register_enderchest p :
  preserves entries_consistent (register_enderchest p).
Proof.
  intros h [Hc Hs]. rewrite register_enderchest_run.
  destruct (load_chest p) as [chest|e] eqn:E; [|now split].
  split; [|exact Hs]. now apply Forall_dict_set.
Qed.

Lemma consistent_register_save p :
  preserves entries_consistent (register_save p).
Proof.
  intros h [Hc Hs]. rewrite register_save_run.
  destruct (load_save p) as [save|e] eqn:E; [|now split].
  split; [exact Hc|]. now apply Forall_dict_set.
Qed.

Lemma consistent_init h : entries_consistent (fst (__init__ h)).
Proof.
  rewrite init_run. cbv zeta.
  assert (H0 : entries_consistent
                 (with_self h {| _ender_chests := []; _saves := [] |}))
    by (split; constructor).
  destruct (getenv (u "MINECRAFT_ROOT")) as [[|c s]|]; try exact H0.
  destruct (load_chest (Path_of (c :: s))) as [chest|e] eqn:E.
  - split; [|constructor]. repeat constructor. exact E.
  - destruct (is_ValueError_or_OSError e); exact H0.
Qed.

Lemma consistent_from_config f : preserves entries_consistent (from_config f).
Proof.
  unfold from_config.
  apply preserves_bind; [apply preserves_read_text|intros text].
  apply preserves_bind; [apply preserves_call|intros d].
  apply preserves_bind; [intros h _; apply consistent_init|intros _].
  apply preserves_bind; [apply preserves_call|intros cv].
  apply preserves_bind.
  { apply preserves_for_each. intros c. apply preserves_try.
    - apply consistent_register_enderchest.
    - intros e h H. exact H. }
  intros _.
  apply preserves_bind; [apply preserves_call|intros sv].
  apply preserves_bind; [|intros _; apply preserves_ret].
  apply preserves_for_each. intros s. apply preserves_try.
  - apply consistent_register_save.
  - intros e h H. exact H.
Qed.

(** X20.  Every operation keeps each entry under the key it belongs to: a
    chest is the descriptor its key loads to, a save is stored under its
    own root.  The store the constructor or [from_config] builds is so from
    the start; in such a store the roots of the listed saves are the keys
    of the saves, in order. *)
Theorem entries_stay_under_their_keys h :
  entries_consistent (fst (__init__ h))
  /\ (entries_consistent h ->
      (forall p, entries_consistent (fst (register_enderchest p h)))
      /\ (forall p, entries_consistent (fst (register_save p h)))
      /\ (forall f, entries_consistent (fst (from_config f h)))
      /\ (forall f, entries_consistent (fst (write f h)))
      /\ map root (saves (self h)) = save_keys h).
Proof.
  split; [apply consistent_init|]. intros H.
  split; [intros p; now apply consistent_register_enderchest|].
  split; [intros p; now apply consistent_register_save|].
  split; [intros f; now apply consistent_from_config|].
  split.
  - intros f. unfold write, bind, get_self, write_text, ret.
    destruct f as [f|]; [|exact H]. destruct (write_error f); exact H.
  - destruct H as [_ Hs]. unfold saves, values, save_keys, keys.
    induction Hs as [|[k m] d Hk _ IH]; [reflexivity|].
    cbn [map fst snd] in *. now rewrite IH, Hk.
Qed.

End ConsistencyFacts.

Section ConsistencyExamples.

Lemma entries_stay_under_their_keys_witness :
  let W := home_world in
  let h := fst (register_save (P "~/saves/world/.gsb_manifest") blank) in
  map root (saves (self h)) = save_keys h
  /\ save_keys h = [P "/home/steve/saves/world"].
Proof.
  intros W h.
  destruct (@entries_stay_under_their_keys W blank) as (_ & T).
  destruct T as (_ & T2 & _); [split; constructor|].
  destruct (@entries_stay_under_their_keys W h) as (_ & T').
  destruct (T' (T2 _)) as (_ & _ & _ & _ & T5).
  split; [exact T5|reflexivity].
Defined.

End ConsistencyExamples.
